(** * DeafAUTH: token lifecycle and credential flows

    A shallow embedding of [deafauth/auth.py], [deafauth/routes.py] and
    [deafauth/models.py], and the properties their specification states.

    Conventions of the embedding.
    - A Python [str] is a [string]: a sequence of code points below 256
      (the Latin-1 range; this is exactly what a WSGI header value holds).
      [bytes] is [list byte].
    - A Python call either returns or raises: [outcome A].
    - Clock readings, random material and the request are explicit
      arguments; the user table is passed and returned explicitly.
    - The application context of a request is there throughout:
      [current_app.config] is the [Config] argument. *)

From Stdlib Require Import ZArith List Strings.String Strings.Ascii Strings.Byte Bool Lia.
From Stdlib Require Import DecimalString DecimalZ DecimalPos QArith_base.
Import ListNotations.
Local Open Scope string_scope.
Local Open Scope list_scope.
Local Open Scope Z_scope.

Set Implicit Arguments.

(** ** Python outcomes *)

Inductive exn : Type :=
| ValueError | TypeError | KeyError | AttributeError | OverflowError
| UnicodeDecodeError | JSONDecodeError
| DecryptError          (* pyseto: authentication tag mismatch *)
| IntegrityError        (* store: UNIQUE constraint violated *)
| OperationalError.     (* store: any other failure at commit *)

Inductive outcome (A : Type) : Type :=
| Returned (a : A)
| Raised (e : exn).
Arguments Raised {A} e.

Definition bind {A B} (c : outcome A) (k : A -> outcome B) : outcome B :=
  match c with
  | Returned a => k a
  | Raised e => Raised e
  end.

Notation "x <- c ;; k" := (bind c (fun x => k))
  (at level 61, c at next level, right associativity).
Notation "' pat <- c ;; k" := (bind c (fun x => let 'pat := x in k))
  (at level 61, pat pattern, c at next level, right associativity).

(** [try: body except Exception as e: handler e].  Every member of [exn]
    is a subclass of [Exception]. *)
Definition try_except {A} (body : outcome A) (handler : exn -> outcome A)
  : outcome A :=
  match body with
  | Returned a => Returned a
  | Raised e => handler e
  end.

Definition bytes := list byte.

(** ** Python [str] operations *)

Module Str.

Definition code (c : ascii) : Z := Z.of_N (N_of_ascii c).

Definition chr (z : Z) : ascii := ascii_of_N (Z.to_N z).

(** [c.isspace()] for a code point below 256. *)
Definition isspace (c : ascii) : bool :=
  let n := code c in
  ((9 <=? n) && (n <=? 13)) || ((28 <=? n) && (n <=? 32))
  || (n =? 133) || (n =? 160).

(** [c.lower()] for a code point below 256: A-Z, and the Latin-1 capitals
    U+00C0..U+00DE except the multiplication sign U+00D7. *)
Definition lower_char (c : ascii) : ascii :=
  let n := code c in
  if ((65 <=? n) && (n <=? 90))
     || ((192 <=? n) && (n <=? 222) && negb (n =? 215))
  then chr (n + 32) else c.

Fixpoint lower (s : string) : string :=
  match s with
  | EmptyString => EmptyString
  | String c r => String (lower_char c) (lower r)
  end.

Fixpoint lstrip (s : string) : string :=
  match s with
  | EmptyString => EmptyString
  | String c r => if isspace c then lstrip r else s
  end.

(** Drops trailing whitespace: a character is kept when something that is
    kept, or the character itself, is not whitespace. *)
Fixpoint rstrip (s : string) : string :=
  match s with
  | EmptyString => EmptyString
  | String c r =>
      match rstrip r with
      | EmptyString => if isspace c then EmptyString else String c EmptyString
      | r' => String c r'
      end
  end.

Definition strip (s : string) : string := rstrip (lstrip s).

(** [s.split()] with no separator: maximal runs of non-whitespace.
    [cur] is the run being read, reversed. *)
Fixpoint rev_string (acc : string) (s : string) : string :=
  match s with
  | EmptyString => acc
  | String c r => rev_string (String c acc) r
  end.

Definition flush (cur : string) : list string :=
  match cur with
  | EmptyString => []
  | _ => [rev_string EmptyString cur]
  end.

Fixpoint split_from (cur : string) (s : string) : list string :=
  match s with
  | EmptyString => flush cur
  | String c r =>
      if isspace c then flush cur ++ split_from EmptyString r
      else split_from (String c cur) r
  end.

Definition split (s : string) : list string := split_from EmptyString s.

(** [s.encode()]: UTF-8 of code points below 256. *)
Definition encode_char (c : ascii) : bytes :=
  let n := code c in
  if n <? 128 then [byte_of_ascii c]
  else [byte_of_ascii (chr (192 + Z.shiftr n 6));
        byte_of_ascii (chr (128 + Z.land n 63))].

Fixpoint encode (s : string) : bytes :=
  match s with
  | EmptyString => []
  | String c r => encode_char c ++ encode r
  end.

(** Truthiness of a [str]: non-empty. *)
Definition truthy (s : string) : bool :=
  match s with EmptyString => false | _ => true end.

End Str.

(** ** SHA-256 (FIPS 180-4), as [hashlib.sha256(m).digest()] computes it.
    Words are [Z] in [0, 2^32); every operation masks its result. *)

Module Sha256.

Definition mask32 : Z := 0xFFFFFFFF.

Definition add32 (x y : Z) : Z := Z.land (x + y) mask32.

Definition rotr (n x : Z) : Z :=
  Z.lor (Z.shiftr x n) (Z.land (Z.shiftl x (32 - n)) mask32).

Definition shr (n x : Z) : Z := Z.shiftr x n.

Definition not32 (x : Z) : Z := Z.lxor x mask32.

Definition Ch (x y z : Z) : Z := Z.lxor (Z.land x y) (Z.land (not32 x) z).

Definition Maj (x y z : Z) : Z :=
  Z.lxor (Z.lxor (Z.land x y) (Z.land x z)) (Z.land y z).

Definition bsig0 (x : Z) : Z := Z.lxor (Z.lxor (rotr 2 x) (rotr 13 x)) (rotr 22 x).
Definition bsig1 (x : Z) : Z := Z.lxor (Z.lxor (rotr 6 x) (rotr 11 x)) (rotr 25 x).
Definition ssig0 (x : Z) : Z := Z.lxor (Z.lxor (rotr 7 x) (rotr 18 x)) (shr 3 x).
Definition ssig1 (x : Z) : Z := Z.lxor (Z.lxor (rotr 17 x) (rotr 19 x)) (shr 10 x).

(** The largest [x] below [2^k] above [acc] with [x^deg <= n]: an integer
    root, one bit at a time. *)
Fixpoint iroot (k : nat) (deg n acc : Z) : Z :=
  match k with
  | O => acc
  | S k' =>
      let c := acc + 2 ^ Z.of_nat k' in
      if c ^ deg <=? n then iroot k' deg n c else iroot k' deg n acc
  end.

(** The first 32 bits of the fractional part of the root of a prime. *)
Definition frac32 (deg p : Z) : Z :=
  Z.land (iroot 36 deg (p * 2 ^ (32 * deg)) 0) mask32.

Definition primes : list Z :=
  [2; 3; 5; 7; 11; 13; 17; 19; 23; 29; 31; 37; 41; 43; 47; 53;
   59; 61; 67; 71; 73; 79; 83; 89; 97; 101; 103; 107; 109; 113; 127; 131;
   137; 139; 149; 151; 157; 163; 167; 173; 179; 181; 191; 193; 197; 199;
   211; 223; 227; 229; 233; 239; 241; 251; 257; 263; 269; 271; 277; 281;
   283; 293; 307; 311].

(** The round constants: cube roots of the first 64 primes. *)
Definition K : list Z := Eval vm_compute in map (frac32 3) primes.

(** The eight working variables / chaining values. *)
Record state : Type := State {
  ha : Z; hb : Z; hc : Z; hd : Z; he : Z; hf : Z; hg : Z; hh : Z
}.

(** The initial value: square roots of the first 8 primes. *)
Definition H0 : state :=
  Eval vm_compute in
  State (frac32 2 2) (frac32 2 3) (frac32 2 5) (frac32 2 7)
        (frac32 2 11) (frac32 2 13) (frac32 2 17) (frac32 2 19).

Definition byteZ (b : byte) : Z := Z.of_N (Byte.to_N b).

Definition Zbyte (z : Z) : byte :=
  byte_of_ascii (ascii_of_N (Z.to_N (Z.land z 255))).

(** Big-endian bytes of a 32-bit word, and back. *)
Definition be32 (x : Z) : bytes :=
  [Zbyte (Z.shiftr x 24); Zbyte (Z.shiftr x 16); Zbyte (Z.shiftr x 8); Zbyte x].

Definition word_of (b0 b1 b2 b3 : byte) : Z :=
  Z.lor (Z.lor (Z.shiftl (byteZ b0) 24) (Z.shiftl (byteZ b1) 16))
        (Z.lor (Z.shiftl (byteZ b2) 8) (byteZ b3)).

(** Padding: 0x80, zeros up to 56 mod 64, then the bit length on 64 bits. *)
Definition pad (m : bytes) : bytes :=
  let len := Z.of_nat (List.length m) in
  let zeros := Z.to_nat ((55 - len) mod 64) in
  let bits := len * 8 in
  m ++ [x80] ++ repeat x00 zeros
    ++ be32 (Z.land (Z.shiftr bits 32) mask32) ++ be32 (Z.land bits mask32).

Fixpoint words (fuel : nat) (bs : bytes) : list Z :=
  match fuel, bs with
  | S f, b0 :: b1 :: b2 :: b3 :: r => word_of b0 b1 b2 b3 :: words f r
  | _, _ => []
  end.

(** The message schedule, most recent word first: [w] holds
    [W(t-1), W(t-2), ...]. *)
Fixpoint schedule (n : nat) (w : list Z) : list Z :=
  match n with
  | O => w
  | S n' =>
      let wt := add32 (add32 (ssig1 (nth 1 w 0)) (nth 6 w 0))
                      (add32 (ssig0 (nth 14 w 0)) (nth 15 w 0)) in
      schedule n' (wt :: w)
  end.

Definition round (s : state) (kw : Z * Z) : state :=
  let (k, w) := kw in
  let t1 := add32 (add32 (add32 (hh s) (bsig1 (he s)))
                         (add32 (Ch (he s) (hf s) (hg s)) k)) w in
  let t2 := add32 (bsig0 (ha s)) (Maj (ha s) (hb s) (hc s)) in
  State (add32 t1 t2) (ha s) (hb s) (hc s) (add32 (hd s) t1) (he s) (hf s) (hg s).

Definition compress (h : state) (block : bytes) : state :=
  let w := rev (schedule 48 (rev (words 16 block))) in
  let s := fold_left round (combine K w) h in
  State (add32 (ha h) (ha s)) (add32 (hb h) (hb s))
        (add32 (hc h) (hc s)) (add32 (hd h) (hd s))
        (add32 (he h) (he s)) (add32 (hf h) (hf s))
        (add32 (hg h) (hg s)) (add32 (hh h) (hh s)).

Fixpoint blocks (fuel : nat) (h : state) (bs : bytes) : state :=
  match fuel with
  | O => h
  | S f =>
      match bs with
      | [] => h
      | _ => blocks f (compress h (firstn 64 bs)) (skipn 64 bs)
      end
  end.

Definition digest_of (s : state) : bytes :=
  be32 (ha s) ++ be32 (hb s) ++ be32 (hc s) ++ be32 (hd s)
  ++ be32 (he s) ++ be32 (hf s) ++ be32 (hg s) ++ be32 (hh s).

Definition sha256 (m : bytes) : bytes :=
  let p := pad m in
  digest_of (blocks (List.length p) H0 p).

Definition hex_digit (z : Z) : ascii :=
  if z <? 10 then Str.chr (48 + z) else Str.chr (87 + z).

Fixpoint hexdigest (bs : bytes) : string :=
  match bs with
  | [] => EmptyString
  | b :: r =>
      String (hex_digit (Z.shiftr (byteZ b) 4))
        (String (hex_digit (Z.land (byteZ b) 15)) (hexdigest r))
  end.

End Sha256.

(** ** Python values (what [json.loads] and [request.get_json] produce) *)

#[warnings="-register-all"]
Inductive pyval : Type :=
| PNone
| PBool (b : bool)
| PInt (n : Z)
| PFloat (q : Q)
| PStr (s : string)
| PList (l : list pyval)
| PDict (kvs : list (string * pyval)).

Module Py.

(** [bool(v)] *)
Definition truthy (v : pyval) : bool :=
  match v with
  | PNone => false
  | PBool b => b
  | PInt n => negb (n =? 0)
  | PFloat q => negb (Qnum q =? 0)
  | PStr s => Str.truthy s
  | PList l => match l with [] => false | _ => true end
  | PDict kvs => match kvs with [] => false | _ => true end
  end.

Fixpoint lookup (k : string) (kvs : list (string * pyval)) : option pyval :=
  match kvs with
  | [] => None
  | (k', v) :: r => if String.eqb k' k then Some v else lookup k r
  end.

(** [v[k]] for a [str] key [k]. *)
Definition getitem (v : pyval) (k : string) : outcome pyval :=
  match v with
  | PDict kvs =>
      match lookup k kvs with
      | Some x => Returned x
      | None => Raised KeyError
      end
  | _ => Raised TypeError
  end.

(** [v.get(k, default)] *)
Definition get (v : pyval) (k : string) (default : pyval) : outcome pyval :=
  match v with
  | PDict kvs =>
      match lookup k kvs with
      | Some x => Returned x
      | None => Returned default
      end
  | _ => Raised AttributeError
  end.

(** [str(n)] for an [int] of at most 4300 decimal digits, the limit
    beyond which CPython refuses the conversion. *)
Definition str_of_int (n : Z) : string := NilZero.string_of_int (Z.to_int n).

Definition is_digit (c : ascii) : bool :=
  (48 <=? Str.code c) && (Str.code c <=? 57).

Definition digit_val (c : ascii) : Z := Str.code c - 48.

(** Decimal digits, single underscores allowed between digits; [s] follows
    a digit whose value is already in [acc]. *)
Fixpoint digits_from (acc : Z) (s : string) : option Z :=
  match s with
  | EmptyString => Some acc
  | String c r =>
      if is_digit c then digits_from (10 * acc + digit_val c) r
      else if Ascii.eqb c "_" then
        match r with
        | String d r' =>
            if is_digit d then digits_from (10 * acc + digit_val d) r'
            else None
        | EmptyString => None
        end
      else None
  end.

Definition digits (s : string) : option Z :=
  match s with
  | String c r => if is_digit c then digits_from (digit_val c) r else None
  | EmptyString => None
  end.

(** [int(s)] for a [str]: surrounding whitespace, a sign, base 10. *)
Definition int_of_str (s : string) : outcome Z :=
  let t := Str.strip s in
  let '(neg, body) :=
    match t with
    | String "-" r => (true, r)
    | String "+" r => (false, r)
    | _ => (false, t)
    end in
  match digits body with
  | Some n => Returned (if neg then - n else n)
  | None => Raised ValueError
  end.

(** [int(v)] *)
Definition int (v : pyval) : outcome Z :=
  match v with
  | PStr s => int_of_str s
  | PInt n => Returned n
  | PBool b => Returned (if b then 1 else 0)
  | PFloat q => Returned (Z.quot (Qnum q) (Zpos (Qden q)))
  | PNone | PList _ | PDict _ => Raised TypeError
  end.

End Py.

(** ** [datetime] and [timedelta]

    A [datetime] is its wall-clock reading in microseconds since
    0001-01-01T00:00:00, with the UTC offset of an aware value. *)

Record datetime : Type := Datetime {
  wall : Z;
  utcoffset : option Z
}.

Module DT.

Definition US_PER_SECOND : Z := 1000000.
Definition US_PER_DAY : Z := 86400 * US_PER_SECOND.

(** [datetime.max] is 9999-12-31T23:59:59.999999, whose day has ordinal
    3652059. *)
Definition MAX_WALL : Z := 3652059 * US_PER_DAY - 1.

Definition MAX_DELTA_DAYS : Z := 999999999.

(** A clock reading [t] taken as [datetime.now(timezone.utc)]. *)
Definition now_utc (t : Z) : datetime := Datetime t (Some 0).

(** [timedelta(seconds=n)] for an [int] [n], in microseconds. *)
Definition timedelta_seconds (n : Z) : outcome Z :=
  let days := n / 86400 in
  if (- MAX_DELTA_DAYS <=? days) && (days <=? MAX_DELTA_DAYS)
  then Returned (n * US_PER_SECOND)
  else Raised OverflowError.

(** [d + delta] *)
Definition add (d : datetime) (delta : Z) : outcome datetime :=
  let w := wall d + delta in
  if (0 <=? w) && (w <=? MAX_WALL)
  then Returned (Datetime w (utcoffset d))
  else Raised OverflowError.

(** [a < b]: aware values compare as instants, naive ones as wall-clock
    readings, and mixing the two raises. *)
Definition lt (a b : datetime) : outcome bool :=
  match utcoffset a, utcoffset b with
  | Some oa, Some ob => Returned (wall a - oa <? wall b - ob)
  | None, None => Returned (wall a <? wall b)
  | _, _ => Raised TypeError
  end.

(** The instant an aware value denotes. *)
Definition instant (d : datetime) : option Z :=
  match utcoffset d with
  | Some o => Some (wall d - o)
  | None => None
  end.

End DT.

(** ** Responses: [jsonify(body), status] *)

Record response : Type := Response {
  body : pyval;
  status : Z
}.

Definition error_response (msg : string) (st : Z) : response :=
  Response (PDict [("error", PStr msg)]) st.

(** ** PASETO keys *)

Record Key : Type := KeyNew {
  version : Z;
  purpose : string;
  key : bytes
}.

(** [current_app.config]: the one entry the code reads. *)
Record Config : Type := MkConfig {
  SECRET_KEY : option string
}.

Definition config_get_SECRET_KEY (cfg : Config) (default : string) : string :=
  match SECRET_KEY cfg with
  | Some s => s
  | None => default
  end.

(** [get_paseto_key] *)
Definition get_paseto_key (cfg : Config) : Key :=
  let secret_key :=
    config_get_SECRET_KEY cfg "dev-secret-key-change-in-production" in
  let key_bytes := Sha256.sha256 (Str.encode secret_key) in
  KeyNew 4 "local" key_bytes.

(** ** The libraries the code calls

    PASETO v4.local authenticated encryption ([pyseto]), [json], UTF-8
    decoding, the ISO 8601 text form of [datetime], and werkzeug's password
    hashing.  The code is written against this interface; what is assumed
    of an implementation is stated where a theorem needs it. *)

Class Libs : Type := {
  (** [pyseto.encode(key, payload_bytes, nonce=...)], read as text, and
      [pyseto.decode(key, token).payload] *)
  v4_local_encrypt : Key -> bytes -> bytes -> string;
  v4_local_decrypt : Key -> string -> outcome bytes;
  json_dumps : pyval -> string;
  json_loads : string -> outcome pyval;
  (** [b.decode('utf-8')] *)
  bytes_decode : bytes -> outcome string;
  (** [d.isoformat()] and [datetime.fromisoformat(s)] *)
  isoformat : datetime -> string;
  fromisoformat : string -> outcome datetime;
  (** [generate_password_hash(password)] under a drawn salt, and
      [check_password_hash(pwhash, password)], for a [str] password.  Both
      encode the password and raise where that fails (a [str] holding a
      lone surrogate); [check_password_hash] also raises on a stored hash
      that names no known method. *)
  generate_password_hash : string -> bytes -> outcome string;
  check_password_hash : string -> string -> outcome bool
}.

(** ** [deafauth/auth.py] *)

Section Auth.

Context {L : Libs}.

(** [pyseto.encode(key, payload)] for a [dict] payload: serialised with
    [json.dumps(payload).encode("utf-8")], then encrypted under a nonce. *)
Definition pyseto_encode (k : Key) (payload : pyval) (nonce : bytes) : string :=
  v4_local_encrypt k nonce (Str.encode (json_dumps payload)).

Definition pyseto_decode (k : Key) (token : string) : outcome bytes :=
  v4_local_decrypt k token.

(** [datetime.fromisoformat(v)] for any value [v]. *)
Definition datetime_fromisoformat (v : pyval) : outcome datetime :=
  match v with
  | PStr s => fromisoformat s
  | _ => Raised TypeError
  end.

(** [generate_token(user_id, expires_in)].  [t_exp] and [t_iat] are the two
    clock readings, in that order; [nonce] is what [pyseto] draws. *)
Definition generate_token (cfg : Config) (t_exp t_iat : Z) (nonce : bytes)
    (user_id : Z) (expires_in : Z) : outcome string :=
  let key := get_paseto_key cfg in
  delta <- DT.timedelta_seconds expires_in ;;
  exp <- DT.add (DT.now_utc t_exp) delta ;;
  let payload := PDict [
    ("sub", PStr (Py.str_of_int user_id));
    ("exp", PStr (isoformat exp));
    ("iat", PStr (isoformat (DT.now_utc t_iat)))
  ] in
  let token := pyseto_encode key payload nonce in
  Returned token.

Definition DEFAULT_EXPIRES_IN : Z := 3600.

(** The body of the [try] block of [verify_token]; [t_now] is the clock
    reading of the expiry check. *)
Definition verify_token_try (cfg : Config) (t_now : Z) (token : string)
  : outcome (option pyval) :=
  let key := get_paseto_key cfg in
  payload_bytes <- pyseto_decode key token ;;
  payload <- (s <- bytes_decode payload_bytes ;; json_loads s) ;;
  exp <- (e <- Py.getitem payload "exp" ;; datetime_fromisoformat e) ;;
  expired <- DT.lt exp (DT.now_utc t_now) ;;
  if expired then Returned None
  else Returned (Some payload).

(** [verify_token(token)], called within an application context: the
    handler logs and returns [None]. *)
Definition verify_token (cfg : Config) (t_now : Z) (token : string)
  : outcome (option pyval) :=
  try_except (verify_token_try cfg t_now token) (fun _ => Returned None).

(** The header parsing of [token_required]: [token] after the first [if]. *)
Definition bearer_token (auth_header : option string) : option string :=
  match auth_header with
  | Some h =>
      if Str.truthy h then
        match Str.split h with
        | [scheme; credentials] =>
            if String.eqb (Str.lower scheme) "bearer" then Some credentials
            else None
        | _ => None
        end
      else None
  | None => None
  end.

(** [not token] for [token] a [str] or [None]. *)
Definition not_token (token : option string) : bool :=
  match token with
  | Some t => negb (Str.truthy t)
  | None => true
  end.

(** [not payload] for [payload] a value or [None]. *)
Definition not_payload (payload : option pyval) : bool :=
  match payload with
  | Some p => negb (Py.truthy p)
  | None => true
  end.

Definition MISSING : response := error_response "Token is missing" 401.
Definition INVALID : response := error_response "Token is invalid or expired" 401.

(** [token_required(f)], from [payload = verify_token(token)] on. *)
Definition with_token (f : Z -> outcome response)
    (cfg : Config) (t_now : Z) (token : string) : outcome response :=
  payload <- verify_token cfg t_now token ;;
  if not_payload payload then Returned INVALID
  else
    let payload := match payload with Some p => p | None => PNone end in
    user_id <- (sub <- Py.getitem payload "sub" ;; Py.int sub) ;;
    f user_id.

(** [token_required(f)] applied to a request with the given
    [Authorization] header. *)
Definition token_required (f : Z -> outcome response)
    (cfg : Config) (t_now : Z) (auth_header : option string)
  : outcome response :=
  let token := bearer_token auth_header in
  if not_token token then Returned MISSING
  else
    with_token f cfg t_now
      (match token with Some t => t | None => EmptyString end).

End Auth.

(** ** Regular expressions, as far as [is_valid_email] needs them *)

Module Re.

Inductive regex : Type :=
| Void
| Eps
| Cls (p : ascii -> bool)
| Cat (r1 r2 : regex)
| Alt (r1 r2 : regex)
| Star (r : regex).

Fixpoint nullable (r : regex) : bool :=
  match r with
  | Void => false
  | Eps => true
  | Cls _ => false
  | Cat r1 r2 => nullable r1 && nullable r2
  | Alt r1 r2 => nullable r1 || nullable r2
  | Star _ => true
  end.

(** The derivative of [r] by the character [c]. *)
Fixpoint deriv (c : ascii) (r : regex) : regex :=
  match r with
  | Void => Void
  | Eps => Void
  | Cls p => if p c then Eps else Void
  | Cat r1 r2 =>
      if nullable r1 then Alt (Cat (deriv c r1) r2) (deriv c r2)
      else Cat (deriv c r1) r2
  | Alt r1 r2 => Alt (deriv c r1) (deriv c r2)
  | Star r1 => Cat (deriv c r1) (Star r1)
  end.

Fixpoint fullmatch (r : regex) (s : string) : bool :=
  match s with
  | EmptyString => nullable r
  | String c t => fullmatch (deriv c r) t
  end.

Definition plus (r : regex) : regex := Cat r (Star r).

Definition chr_is (z : Z) (c : ascii) : bool := Str.code c =? z.

(** [re.match('^' r '$', s)]: [$] matches at the end and just before a
    final newline. *)
Definition match_anchored (r : regex) (s : string) : bool :=
  fullmatch (Cat r (Alt Eps (Cls (chr_is 10)))) s.

End Re.

(** ** [deafauth/models.py] *)

Module User.

Record t : Type := mk {
  id : Z;
  email : string;
  password_hash : string;
  is_verified : bool;
  verification_token : option string;
  created_at : option datetime;
  updated_at : option datetime
}.

Section WithLibs.
Context {L : Libs}.

(** [to_dict]: the public view. *)
Definition to_dict (u : t) : pyval :=
  PDict [
    ("id", PInt (id u));
    ("email", PStr (email u));
    ("is_verified", PBool (is_verified u));
    ("created_at",
      match created_at u with
      | Some d => PStr (isoformat d)
      | None => PNone
      end)
  ].

End WithLibs.

End User.

(** ** The [users] table

    Rows in insertion order.  [email] carries a UNIQUE constraint, checked
    by the store when a row is committed. *)

Definition Store : Type := list User.t.

Module Db.

Definition has_email (e : string) (u : User.t) : bool :=
  String.eqb (User.email u) e.

(** A NULL token matches no string. *)
Definition has_token (tok : string) (u : User.t) : bool :=
  match User.verification_token u with
  | Some t => String.eqb t tok
  | None => false
  end.

(** [User.query.filter_by(...).first()] *)
Definition first (p : User.t -> bool) (s : Store) : option User.t := find p s.

(** [User.query.get(user_id)] *)
Definition get (user_id : Z) (s : Store) : option User.t :=
  find (fun u => User.id u =? user_id) s.

(** The next value of the integer primary key. *)
Definition next_id (s : Store) : Z :=
  1 + fold_right (fun u m => Z.max (User.id u) m) 0 s.

(** [datetime.utcnow()]: naive. *)
Definition utcnow (t : Z) : datetime := Datetime t None.

(** [db.session.add(user); db.session.commit()] for a new row.  [healthy]
    says whether the store can commit at all; the UNIQUE constraint on
    [email] is checked in any case. *)
Definition commit_add (healthy : bool) (t_now : Z) (s : Store) (u : User.t)
  : outcome (Store * User.t) :=
  if negb healthy then Raised OperationalError
  else if existsb (has_email (User.email u)) s then Raised IntegrityError
  else
    let row := User.mk (next_id s) (User.email u) (User.password_hash u)
                 (User.is_verified u) (User.verification_token u)
                 (Some (utcnow t_now)) (Some (utcnow t_now)) in
    Returned (s ++ [row], row).

(** [db.session.commit()] after attribute writes to the row [u]. *)
Definition commit_update (healthy : bool) (t_now : Z) (s : Store) (u : User.t)
  : outcome (Store * User.t) :=
  if negb healthy then Raised OperationalError
  else
    let row := User.mk (User.id u) (User.email u) (User.password_hash u)
                 (User.is_verified u) (User.verification_token u)
                 (User.created_at u) (Some (utcnow t_now)) in
    Returned (map (fun r => if User.id r =? User.id u then row else r) s, row).

End Db.

(** What a request draws from its surroundings: whether the store commits,
    successive clock readings, and random material. *)
Record World : Type := MkWorld {
  healthy : bool;
  clock1 : Z;
  clock2 : Z;
  token_urlsafe : string;
  salt : bytes;
  nonce : bytes
}.

(** ** [deafauth/routes.py] *)

Section Routes.

Context {L : Libs}.

Definition local_char (c : ascii) : bool :=
  let n := Str.code c in
  ((97 <=? n) && (n <=? 122)) || ((65 <=? n) && (n <=? 90))
  || ((48 <=? n) && (n <=? 57))
  || (n =? 46) || (n =? 95) || (n =? 37) || (n =? 43) || (n =? 45).

Definition domain_char (c : ascii) : bool :=
  let n := Str.code c in
  ((97 <=? n) && (n <=? 122)) || ((65 <=? n) && (n <=? 90))
  || ((48 <=? n) && (n <=? 57))
  || (n =? 46) || (n =? 45).

Definition alpha_char (c : ascii) : bool :=
  let n := Str.code c in
  ((97 <=? n) && (n <=? 122)) || ((65 <=? n) && (n <=? 90)).

(** [[a-zA-Z0-9._%+-]+@[a-zA-Z0-9.-]+\.[a-zA-Z]{2,}] *)
Definition pattern : Re.regex :=
  Re.Cat (Re.plus (Re.Cls local_char))
 (Re.Cat (Re.Cls (Re.chr_is 64))
 (Re.Cat (Re.plus (Re.Cls domain_char))
 (Re.Cat (Re.Cls (Re.chr_is 46))
 (Re.Cat (Re.Cls alpha_char)
 (Re.Cat (Re.Cls alpha_char) (Re.Star (Re.Cls alpha_char))))))).

Definition is_valid_email (email : string) : bool :=
  Re.match_anchored pattern email.

(** [v.strip().lower()] *)
Definition strip_lower (v : pyval) : outcome string :=
  match v with
  | PStr s => Returned (Str.lower (Str.strip s))
  | _ => Raised AttributeError
  end.

(** [len(v)] *)
Definition len (v : pyval) : outcome Z :=
  match v with
  | PStr s => Returned (Z.of_nat (String.length s))
  | PList l => Returned (Z.of_nat (List.length l))
  | PDict kvs => Returned (Z.of_nat (List.length kvs))
  | _ => Raised TypeError
  end.

(** The two fields both [signup] and [login] read from the body. *)
Definition read_credentials (data : pyval) : outcome (string * pyval) :=
  email <- (e <- Py.get data "email" (PStr "") ;; strip_lower e) ;;
  password <- Py.get data "password" (PStr "") ;;
  Returned (email, password).

(** [signup], up to and including the lookup of an existing user. *)
Inductive validated : Type :=
| Reject (r : response)
| Proceed (email : string) (password : pyval).

Definition signup_validate (s : Store) (data : pyval) : outcome validated :=
  if negb (Py.truthy data) then
    Returned (Reject (error_response "No data provided" 400))
  else
    '(email, password) <- read_credentials data ;;
    if negb (Str.truthy email) || negb (is_valid_email email) then
      Returned (Reject (error_response "Valid email is required" 400))
    else
      too_short <- (if negb (Py.truthy password) then Returned true
                    else n <- len password ;; Returned (n <? 8)) ;;
      if (too_short : bool) then
        Returned (Reject
          (error_response "Password must be at least 8 characters" 400))
      else
        match Db.first (Db.has_email email) s with
        | Some _ =>
            Returned (Reject (error_response "Email already registered" 409))
        | None => Returned (Proceed email password)
        end.

(** [generate_password_hash(password)] for any value: a value that is
    not a [str] has no [encode]. *)
Definition hash_password (password : pyval) (slt : bytes) : outcome string :=
  match password with
  | PStr p => generate_password_hash p slt
  | _ => Raised AttributeError
  end.

(** [signup], from the creation of the user on. *)
Definition signup_create (w : World) (s : Store) (email : string)
    (password : pyval) : Store * outcome response :=
  let verification_token := token_urlsafe w in
  match hash_password password (salt w) with
  | Raised e => (s, Raised e)
  | Returned pwhash =>
      let user := User.mk 0 email pwhash false (Some verification_token)
                    None None in
      match Db.commit_add (healthy w) (clock1 w) s user with
      | Raised _ => (s, Returned (error_response "Failed to create user" 500))
      | Returned (s', user) =>
          (s', Returned (Response (PDict [
             ("message", PStr "User created successfully");
             ("user", User.to_dict user);
             ("verification_token", PStr verification_token);
             ("note", PStr
               "In production, verification token would be sent via email")
           ]) 201))
      end
  end.

Definition signup (w : World) (s : Store) (data : pyval)
  : Store * outcome response :=
  match signup_validate s data with
  | Raised e => (s, Raised e)
  | Returned (Reject r) => (s, Returned r)
  | Returned (Proceed email password) => signup_create w s email password
  end.

(** [verify_email(token)] *)
Definition verify_email (w : World) (s : Store) (token : string)
  : Store * outcome response :=
  match Db.first (Db.has_token token) s with
  | None => (s, Returned (error_response "Invalid verification token" 400))
  | Some user =>
      if User.is_verified user then
        (s, Returned (Response (PDict [
           ("message", PStr "Email already verified");
           ("user", User.to_dict user)
         ]) 200))
      else
        let user := User.mk (User.id user) (User.email user)
                      (User.password_hash user) true None
                      (User.created_at user) (User.updated_at user) in
        match Db.commit_update (healthy w) (clock1 w) s user with
        | Raised _ =>
            (s, Returned (error_response "Failed to verify email" 500))
        | Returned (s', user) =>
            (s', Returned (Response (PDict [
               ("message", PStr "Email verified successfully");
               ("user", User.to_dict user)
             ]) 200))
        end
  end.

(** [check_password_hash(pwhash, password)] for any value. *)
Definition check_password (pwhash : string) (password : pyval) : outcome bool :=
  match password with
  | PStr p => check_password_hash pwhash p
  | _ => Raised AttributeError
  end.

(** [login]; it only reads the store.  [not user or not check(...)]: the
    hash is checked only when a user was found. *)
Definition login (cfg : Config) (w : World) (s : Store) (data : pyval)
  : outcome response :=
  if negb (Py.truthy data) then
    Returned (error_response "No data provided" 400)
  else
    '(email, password) <- read_credentials data ;;
    if negb (Str.truthy email) || negb (Py.truthy password) then
      Returned (error_response "Email and password are required" 400)
    else
      match Db.first (Db.has_email email) s with
      | None => Returned (error_response "Invalid email or password" 401)
      | Some user =>
          ok <- check_password (User.password_hash user) password ;;
          if negb ok then
            Returned (error_response "Invalid email or password" 401)
          else
            token <- generate_token cfg (clock1 w) (clock2 w) (nonce w)
                       (User.id user) DEFAULT_EXPIRES_IN ;;
            Returned (Response (PDict [
              ("message", PStr "Login successful");
              ("token", PStr token);
              ("user", User.to_dict user)
            ]) 200)
      end.

(** [get_current_user(user_id)], the function [/me] guards. *)
Definition get_current_user (s : Store) (user_id : Z) : outcome response :=
  match Db.get user_id s with
  | None => Returned (error_response "User not found" 404)
  | Some user => Returned (Response (PDict [("user", User.to_dict user)]) 200)
  end.

Definition me (cfg : Config) (t_now : Z) (s : Store)
    (auth_header : option string) : outcome response :=
  token_required (get_current_user s) cfg t_now auth_header.

End Routes.

(** ** Concurrent signups

    A signup touches the store twice: the lookup of an existing user, and
    the commit of the new row.  Requests served concurrently interleave at
    these two accesses; the store itself runs each access atomically. *)

Section Concurrent.

Context {L : Libs}.

Inductive phase : Type :=
| Received
| Validated (email : string) (password : pyval)
| Finished (r : outcome response).

Record request : Type := MkRequest {
  req_world : World;
  req_data : pyval;
  req_phase : phase
}.

Definition incoming (wd : World * pyval) : request :=
  MkRequest (fst wd) (snd wd) Received.

(** The next store access of one request. *)
Definition advance (s : Store) (r : request) : Store * request :=
  let at_phase p := MkRequest (req_world r) (req_data r) p in
  match req_phase r with
  | Received =>
      match signup_validate s (req_data r) with
      | Raised e => (s, at_phase (Finished (Raised e)))
      | Returned (Reject resp) => (s, at_phase (Finished (Returned resp)))
      | Returned (Proceed email password) =>
          (s, at_phase (Validated email password))
      end
  | Validated email password =>
      let '(s', out) := signup_create (req_world r) s email password in
      (s', at_phase (Finished out))
  | Finished _ => (s, r)
  end.

(** One request of the pool takes its next step. *)
Inductive step : Store * list request -> Store * list request -> Prop :=
| step_at (s s' : Store) (before after : list request) (r r' : request) :
    advance s r = (s', r') ->
    step (s, before ++ r :: after) (s', before ++ r' :: after).

Inductive steps : Store * list request -> Store * list request -> Prop :=
| steps_refl c : steps c c
| steps_then c1 c2 c3 : steps c1 c2 -> step c2 c3 -> steps c1 c3.

(** The normalised email a signup request is for. *)
Definition signup_email (data : pyval) : option string :=
  match read_credentials data with
  | Returned (email, _) => Some email
  | Raised _ => None
  end.

Definition created (r : request) : bool :=
  match req_phase r with
  | Finished (Returned resp) => status resp =? 201
  | _ => false
  end.

Definition option_string_eqb (a : option string) (b : string) : bool :=
  match a with
  | Some x => String.eqb x b
  | None => false
  end.

(** The request is a signup for [e] that was answered 201. *)
Definition created_for (e : string) (r : request) : bool :=
  created r && option_string_eqb (signup_email (req_data r)) e.

(** The UNIQUE constraint, as a property of a table. *)
Definition unique_emails (s : Store) : Prop :=
  forall e, (List.length (filter (Db.has_email e) s) <= 1)%nat.

End Concurrent.

(** ** What the token round trip assumes of the libraries *)

Definition str_valued (kvs : list (string * pyval)) : Prop :=
  forall k v, In (k, v) kvs -> exists s, v = PStr s.

Class LibsLaws (L : Libs) : Prop := {
  (** decryption under the key of the encryption gives the message back *)
  v4_local_correct : forall k n m,
    List.length (key k) = 32%nat ->
    v4_local_decrypt k (v4_local_encrypt k n m) = Returned m;
  utf8_correct : forall s, bytes_decode (Str.encode s) = Returned s;
  (** a [dict] of [str] values with distinct keys survives [json] *)
  json_correct : forall kvs,
    str_valued kvs -> NoDup (List.map fst kvs) ->
    json_loads (json_dumps (PDict kvs)) = Returned (PDict kvs);
  (** an aware UTC [datetime] in range survives its ISO form *)
  isoformat_correct : forall w,
    0 <= w <= DT.MAX_WALL ->
    fromisoformat (isoformat (Datetime w (Some 0)))
    = Returned (Datetime w (Some 0))
}.

Section TokenFacts.

Context {L : Libs}.

(** The expiry instant a token carries: what [verify_token] compares with
    the clock, when every step before the comparison succeeds. *)
Definition embedded_expiry (cfg : Config) (token : string) : option Z :=
  let key := get_paseto_key cfg in
  match (payload_bytes <- pyseto_decode key token ;;
         payload <- (s <- bytes_decode payload_bytes ;; json_loads s) ;;
         e <- Py.getitem payload "exp" ;; datetime_fromisoformat e) with
  | Returned d => DT.instant d
  | Raised _ => None
  end.

End TokenFacts.

(** * The specification, in the terms of the embedding *)

(** What "splits into exactly two whitespace-separated parts" says, without
    reference to how [split] works. *)
Fixpoint all_space (s : string) : bool :=
  match s with
  | EmptyString => true
  | String c r => Str.isspace c && all_space r
  end.

Fixpoint no_space (s : string) : bool :=
  match s with
  | EmptyString => true
  | String c r => negb (Str.isspace c) && no_space r
  end.

Definition is_part (p : string) : Prop := p <> "" /\ no_space p = true.

Definition two_parts (h p0 p1 : string) : Prop :=
  exists w0 w1 w2 : string,
    h = (w0 ++ p0 ++ w1 ++ p1 ++ w2)%string
    /\ all_space w0 = true
    /\ is_part p0
    /\ (w1 <> "" /\ all_space w1 = true)
    /\ is_part p1
    /\ all_space w2 = true.

Definition caseless_eq (a b : string) : Prop := Str.lower a = Str.lower b.

(** The header carries a bearer token [t]: its value splits into exactly
    two whitespace-separated parts, the first being "Bearer" in any case. *)
Definition carries_bearer (auth_header : option string) (t : string) : Prop :=
  exists h scheme,
    auth_header = Some h /\ two_parts h scheme t /\ caseless_eq scheme "Bearer".

(** The one answer of [login] to credentials it does not accept. *)
Definition INVALID_CREDENTIALS : response :=
  error_response "Invalid email or password" 401.

(** The row [u] with its [is_verified] flag set to [b]. *)
Definition with_verified (b : bool) (u : User.t) : User.t :=
  User.mk (User.id u) (User.email u) (User.password_hash u) b
    (User.verification_token u) (User.created_at u) (User.updated_at u).

(** The stores the three routes can produce from an empty table. *)
Inductive api_step `{L : Libs} : Store -> Store -> Prop :=
| api_signup (w : World) (s : Store) (data : pyval) :
    api_step s (fst (signup w s data))
| api_verify_email (w : World) (s : Store) (token : string) :
    api_step s (fst (verify_email w s token)).

Inductive reachable `{L : Libs} : Store -> Prop :=
| reachable_empty : reachable []
| reachable_step (s s' : Store) :
    reachable s -> api_step s s' -> reachable s'.

(** A verified row holds no verification token. *)
Definition token_cleared (s : Store) : Prop :=
  forall u, In u s ->
    User.is_verified u = true -> User.verification_token u = None.

(** The request of the first scenario of the specification. *)
Definition alice : pyval :=
  PDict [("email", PStr "a@b.com"); ("password", PStr "abcdefgh")].

(** How many elements of [l] satisfy [f]. *)
Definition count {A} (f : A -> bool) (l : list A) : nat :=
  List.length (filter f l).

(** What holds of the table and the pool at every point of a run. *)
Definition signup_invariant `{L : Libs} (c : Store * list request) : Prop :=
  unique_emails (fst c)
  /\ (forall e, (count (created_for e) (snd c)
                 <= count (Db.has_email e) (fst c))%nat)
  /\ (forall r email password,
        In r (snd c) -> req_phase r = Validated email password ->
        signup_email (req_data r) = Some email).

(** A request the guard turns away: no bearer token, or one that
    [verify_token] refuses. *)
Definition rejected `{L : Libs} (cfg : Config) (t_now : Z)
    (auth_header : option string) : Prop :=
  match bearer_token auth_header with
  | None => True
  | Some token => verify_token cfg t_now token = Returned None
  end.

(** "Every rejected request gets the same response." *)
Definition rejections_indistinguishable `{L : Libs} : Prop :=
  forall f cfg t_now h1 h2,
    rejected cfg t_now h1 -> rejected cfg t_now h2 ->
    token_required f cfg t_now h1 = token_required f cfg t_now h2.

(** "The create fails with Conflict when the email already exists." *)
Definition create_reports_conflict `{L : Libs} : Prop :=
  forall w s email password,
    existsb (Db.has_email email) s = true ->
    snd (signup_create w s email password)
    = Returned (error_response "Email already registered" 409).

(** The status a finished request was answered with. *)
Definition answered (r : request) : option Z :=
  match req_phase r with
  | Finished (Returned resp) => Some (status resp)
  | _ => None
  end.

(** ** A reference implementation of the libraries

    Small executable stand-ins, enough to run the code on concrete
    requests: a keyed-hash sealing in place of PASETO v4.local, a [json]
    for [dict]s of strings, UTF-8 for code points below 256, and ISO 8601
    through the calendar arithmetic of Python's [datetime]. *)

Module Ref.

(** *** Hexadecimal text *)

Definition hex_value (c : ascii) : option Z :=
  let n := Str.code c in
  if (48 <=? n) && (n <=? 57) then Some (n - 48)
  else if (97 <=? n) && (n <=? 102) then Some (n - 87)
  else None.

Fixpoint unhex (s : string) : option bytes :=
  match s with
  | EmptyString => Some []
  | String a (String b r) =>
      match hex_value a, hex_value b, unhex r with
      | Some x, Some y, Some bs => Some (Sha256.Zbyte (16 * x + y) :: bs)
      | _, _, _ => None
      end
  | String _ EmptyString => None
  end.

Fixpoint take (n : nat) (s : string) : string :=
  match n, s with
  | S n', String c r => String c (take n' r)
  | _, _ => EmptyString
  end.

Fixpoint drop (n : nat) (s : string) : string :=
  match n, s with
  | S n', String _ r => drop n' r
  | _, _ => s
  end.

Fixpoint strip_prefix (p s : string) : option string :=
  match p, s with
  | EmptyString, _ => Some s
  | String a p', String b s' =>
      if Ascii.eqb a b then strip_prefix p' s' else None
  | String _ _, EmptyString => None
  end.

(** *** Sealing: header, keyed tag, message *)

Definition HEADER : string := "v4.local.".

Definition tag (k : Key) (m : bytes) : string :=
  Sha256.hexdigest (Sha256.sha256 (key k ++ m)).

Definition seal (k : Key) (n m : bytes) : string :=
  (HEADER ++ tag k m ++ Sha256.hexdigest m)%string.

Definition unseal (k : Key) (token : string) : outcome bytes :=
  match strip_prefix HEADER token with
  | None => Raised ValueError
  | Some rest =>
      match unhex (drop 64 rest) with
      | None => Raised ValueError
      | Some m =>
          if String.eqb (tag k m) (take 64 rest) then Returned m
          else Raised DecryptError
      end
  end.

(** *** UTF-8, for code points below 256 *)

Fixpoint utf8_decode (bs : bytes) : outcome string :=
  match bs with
  | [] => Returned EmptyString
  | b :: r =>
      let n := Sha256.byteZ b in
      if n <? 128 then
        s <- utf8_decode r ;; Returned (String (Str.chr n) s)
      else if (n =? 194) || (n =? 195) then
        match r with
        | c :: r' =>
            let m := Sha256.byteZ c in
            if (128 <=? m) && (m <? 192) then
              s <- utf8_decode r' ;;
              Returned (String (Str.chr ((n - 192) * 64 + (m - 128))) s)
            else Raised UnicodeDecodeError
        | [] => Raised UnicodeDecodeError
        end
      else Raised UnicodeDecodeError
  end.

(** *** [json], for a [dict] of strings *)

Definition QUOTE : ascii := Str.chr 34.
Definition BACKSLASH : ascii := Str.chr 92.

Fixpoint escape (s : string) : string :=
  match s with
  | EmptyString => EmptyString
  | String c r =>
      if Ascii.eqb c QUOTE || Ascii.eqb c BACKSLASH
      then String BACKSLASH (String c (escape r))
      else String c (escape r)
  end.

Definition quote (s : string) : string :=
  String QUOTE (escape s ++ String QUOTE EmptyString).

(** Reads a string literal after its opening quote. *)
Fixpoint read_string (s : string) : option (string * string) :=
  match s with
  | EmptyString => None
  | String c r =>
      if Ascii.eqb c QUOTE then Some (EmptyString, r)
      else if Ascii.eqb c BACKSLASH then
        match r with
        | String d r' =>
            match read_string r' with
            | Some (x, rest) => Some (String d x, rest)
            | None => None
            end
        | EmptyString => None
        end
      else
        match read_string r with
        | Some (x, rest) => Some (String c x, rest)
        | None => None
        end
  end.

Definition dumps_value (v : pyval) : string :=
  match v with
  | PStr s => quote s
  | _ => "null"
  end.

Fixpoint dumps_members (kvs : list (string * pyval)) : string :=
  match kvs with
  | [] => "}"
  | (k, v) :: rest =>
      (quote k ++ ": " ++ dumps_value v
       ++ match rest with
          | [] => "}"
          | _ => ", " ++ dumps_members rest
          end)%string
  end.

Definition dumps (v : pyval) : string :=
  match v with
  | PDict kvs => String "{" (dumps_members kvs)
  | _ => dumps_value v
  end.

(** Reads ["key": "value"] members up to the closing brace. *)
Fixpoint loads_members (fuel : nat) (s : string)
  : option (list (string * pyval)) :=
  match fuel with
  | O => None
  | S fuel' =>
      match strip_prefix (String QUOTE EmptyString) s with
      | None => None
      | Some s1 =>
          match read_string s1 with
          | None => None
          | Some (k, s2) =>
              match strip_prefix (": " ++ String QUOTE EmptyString) s2 with
              | None => None
              | Some s3 =>
                  match read_string s3 with
                  | None => None
                  | Some (v, s4) =>
                      if String.eqb s4 "}" then Some [(k, PStr v)]
                      else
                        match strip_prefix ", " s4 with
                        | None => None
                        | Some s5 =>
                            match loads_members fuel' s5 with
                            | Some kvs => Some ((k, PStr v) :: kvs)
                            | None => None
                            end
                        end
                  end
              end
          end
      end
  end.

Definition loads (s : string) : outcome pyval :=
  if String.eqb s "{}" then Returned (PDict [])
  else
    match strip_prefix "{" s with
    | None => Raised JSONDecodeError
    | Some r =>
        match loads_members (String.length r) r with
        | Some kvs => Returned (PDict kvs)
        | None => Raised JSONDecodeError
        end
    end.

End Ref.

(** *** Password hashing: salted digest *)

Module RefHash.

Definition METHOD : string := "sha256$".

Definition digest (slt : bytes) (password : string) : string :=
  Sha256.hexdigest (Sha256.sha256 (slt ++ Str.encode password)).

Definition generate (password : string) (slt : bytes) : string :=
  (METHOD ++ Sha256.hexdigest slt ++ "$" ++ digest slt password)%string.

(** The text before the first [$], and the text after it. *)
Fixpoint until_dollar (s : string) : option (string * string) :=
  match s with
  | EmptyString => None
  | String c r =>
      if Ascii.eqb c "$" then Some (EmptyString, r)
      else
        match until_dollar r with
        | Some (x, rest) => Some (String c x, rest)
        | None => None
        end
  end.

Definition check (pwhash password : string) : bool :=
  match Ref.strip_prefix METHOD pwhash with
  | None => false
  | Some r =>
      match until_dollar r with
      | None => false
      | Some (salt_hex, hashval) =>
          match Ref.unhex salt_hex with
          | None => false
          | Some slt => String.eqb (digest slt password) hashval
          end
      end
  end.

End RefHash.

(** *** ISO 8601, with the calendar of Python's [datetime] *)

Module Iso.

Definition is_leap (year : Z) : bool :=
  (year mod 4 =? 0) && (negb (year mod 100 =? 0) || (year mod 400 =? 0)).

Definition days_before_year (year : Z) : Z :=
  let y := year - 1 in y * 365 + y / 4 - y / 100 + y / 400.

Definition DAYS_IN_MONTH : list Z :=
  [-1; 31; 28; 31; 30; 31; 30; 31; 31; 30; 31; 30; 31].

Definition DAYS_BEFORE_MONTH : list Z :=
  [-1; 0; 31; 59; 90; 120; 151; 181; 212; 243; 273; 304; 334].

Definition days_in_month (year month : Z) : Z :=
  nth (Z.to_nat month) DAYS_IN_MONTH 0
  + (if (month =? 2) && is_leap year then 1 else 0).

Definition days_before_month (year month : Z) : Z :=
  nth (Z.to_nat month) DAYS_BEFORE_MONTH 0
  + (if (2 <? month) && is_leap year then 1 else 0).

(** Year, month, day to ordinal; 0001-01-01 is day 1. *)
Definition ymd2ord (year month day : Z) : Z :=
  days_before_year year + days_before_month year month + day.

Definition DI400Y : Z := 146097.
Definition DI100Y : Z := 36524.
Definition DI4Y : Z := 1461.

(** The date [n] days into a 400-year cycle, the year counted from the
    start of the cycle. *)
Definition cycle_ymd (n : Z) : Z * Z * Z :=
  let n100 := n / DI100Y in
  let n := n mod DI100Y in
  let n4 := n / DI4Y in
  let n := n mod DI4Y in
  let n1 := n / 365 in
  let n := n mod 365 in
  let year := 1 + n100 * 100 + n4 * 4 + n1 in
  if (n1 =? 4) || (n100 =? 4) then (year - 1, 12, 31)
  else
    let leapyear := (n1 =? 3) && (negb (n4 =? 24) || (n100 =? 3)) in
    let month := Z.shiftr (n + 50) 5 in
    let preceding :=
      nth (Z.to_nat month) DAYS_BEFORE_MONTH 0
      + (if (2 <? month) && leapyear then 1 else 0) in
    if n <? preceding then
      let month := month - 1 in
      let preceding :=
        preceding - (nth (Z.to_nat month) DAYS_IN_MONTH 0
                     + (if (month =? 2) && leapyear then 1 else 0)) in
      (year, month, n - preceding + 1)
    else (year, month, n - preceding + 1).

(** Ordinal to year, month, day. *)
Definition ord2ymd (n : Z) : Z * Z * Z :=
  let n := n - 1 in
  let n400 := n / DI400Y in
  let '(year, month, day) := cycle_ymd (n mod DI400Y) in
  (n400 * 400 + year, month, day).

Definition digit (n : Z) : ascii := Str.chr (48 + n).

(** The last [k] decimal digits of [n]. *)
Fixpoint fmt (k : nat) (n : Z) : string :=
  match k with
  | O => EmptyString
  | S k' => String (digit ((n / 10 ^ Z.of_nat k') mod 10)) (fmt k' n)
  end.

Fixpoint digits (k : nat) (acc : Z) (s : string) : option (Z * string) :=
  match k with
  | O => Some (acc, s)
  | S k' =>
      match s with
      | String c r =>
          if Py.is_digit c then digits k' (10 * acc + Py.digit_val c) r
          else None
      | EmptyString => None
      end
  end.

Definition expect (c : ascii) (s : string) : option string :=
  match s with
  | String d r => if Ascii.eqb c d then Some r else None
  | EmptyString => None
  end.

Definition US_PER_MINUTE : Z := 60 * DT.US_PER_SECOND.
Definition US_PER_HOUR : Z := 60 * US_PER_MINUTE.

Definition fmt_offset (o : option Z) : string :=
  match o with
  | None => EmptyString
  | Some us =>
      let a := Z.abs us in
      String (if us <? 0 then "-"%char else "+"%char)
        (fmt 2 (a / US_PER_HOUR)
         ++ String ":" (fmt 2 ((a / US_PER_MINUTE) mod 60)))
  end.

Definition fmt_fraction (us : Z) : string :=
  if us =? 0 then EmptyString else String "." (fmt 6 us).

(** [d.isoformat()] *)
Definition isoformat (d : datetime) : string :=
  let '(year, month, day) := ord2ymd (wall d / DT.US_PER_DAY + 1) in
  let t := wall d mod DT.US_PER_DAY in
  (fmt 4 year ++ String "-" (fmt 2 month ++ String "-" (fmt 2 day
   ++ String "T" (fmt 2 (t / US_PER_HOUR)
   ++ String ":" (fmt 2 ((t / US_PER_MINUTE) mod 60)
   ++ String ":" (fmt 2 ((t / DT.US_PER_SECOND) mod 60)
   ++ (fmt_fraction (t mod DT.US_PER_SECOND)
   ++ fmt_offset (utcoffset d))))))))%string.

Definition parse_fraction (s : string) : option (Z * string) :=
  match s with
  | String "." r => digits 6 0 r
  | _ => Some (0, s)
  end.

Definition parse_offset (s : string) : option (option Z) :=
  match s with
  | EmptyString => Some None
  | String c r =>
      if Ascii.eqb c "+" || Ascii.eqb c "-" then
        match digits 2 0 r with
        | Some (h, r1) =>
            match expect ":" r1 with
            | Some r2 =>
                match digits 2 0 r2 with
                | Some (m, EmptyString) =>
                    if (h <? 24) && (m <? 60) then
                      let us := h * US_PER_HOUR + m * US_PER_MINUTE in
                      Some (Some (if Ascii.eqb c "-" then - us else us))
                    else None
                | _ => None
                end
            | None => None
            end
        | None => None
        end
      else None
  end.

Definition obind {A B} (c : option A) (k : A -> option B) : option B :=
  match c with
  | Some a => k a
  | None => None
  end.

Definition parse (s : string) : option datetime :=
  obind (digits 4 0 s) (fun '(year, s) =>
  obind (expect "-" s) (fun s =>
  obind (digits 2 0 s) (fun '(month, s) =>
  obind (expect "-" s) (fun s =>
  obind (digits 2 0 s) (fun '(day, s) =>
  obind (expect "T" s) (fun s =>
  obind (digits 2 0 s) (fun '(hour, s) =>
  obind (expect ":" s) (fun s =>
  obind (digits 2 0 s) (fun '(minute, s) =>
  obind (expect ":" s) (fun s =>
  obind (digits 2 0 s) (fun '(second, s) =>
  obind (parse_fraction s) (fun '(us, s) =>
  obind (parse_offset s) (fun offset =>
    if (1 <=? year) && (1 <=? month) && (month <=? 12) && (1 <=? day)
       && (day <=? days_in_month year month)
       && (hour <? 24) && (minute <? 60) && (second <? 60)
    then
      Some (Datetime
              ((ymd2ord year month day - 1) * DT.US_PER_DAY
               + hour * US_PER_HOUR + minute * US_PER_MINUTE
               + second * DT.US_PER_SECOND + us)
              offset)
    else None))))))))))))).

(** [datetime.fromisoformat(s)] *)
Definition fromisoformat (s : string) : outcome datetime :=
  match parse s with
  | Some d => Returned d
  | None => Raised ValueError
  end.

(** The calendar facts, checked day by day over one 400-year cycle. *)
Definition cycle_ok (r : Z) : bool :=
  (DI400Y <=? r)
  || (let '(y, m, d) := cycle_ymd r in
      (1 <=? y) && (y <=? 400) && ((145730 <? r) || (y <=? 399))
      && (1 <=? m) && (m <=? 12)
      && (1 <=? d) && (d <=? days_in_month y m)
      && (ymd2ord y m d =? r + 1)).

Fixpoint all_in (k : nat) (lo : Z) (p : Z -> bool) : bool :=
  match k with
  | O => p lo
  | S k' => all_in k' lo p && all_in k' (lo + 2 ^ Z.of_nat k') p
  end.

End Iso.

#[export] Instance reference_libs : Libs := {
  v4_local_encrypt := Ref.seal;
  v4_local_decrypt := Ref.unseal;
  json_dumps := Ref.dumps;
  json_loads := Ref.loads;
  bytes_decode := Ref.utf8_decode;
  isoformat := Iso.isoformat;
  fromisoformat := Iso.fromisoformat;
  generate_password_hash := fun p slt => Returned (RefHash.generate p slt);
  check_password_hash := fun pwhash p => Returned (RefHash.check pwhash p)
}.

(** ** Concrete requests, for running the code *)

Definition cfg0 : Config := MkConfig (Some "test-secret-key").

(** 2026-11-03T10:31:00 UTC. *)
Definition t0 : Z :=
  Eval vm_compute in
  match Iso.fromisoformat "2026-11-03T10:31:00+00:00" with
  | Returned d => wall d
  | Raised _ => 0
  end.

Definition world0 : World :=
  MkWorld true t0 (t0 + 1) "Zm9yLXRoZS1leGFtcGxl" [x5a; x17; xc3] [x01].

Definition world1 : World :=
  MkWorld true (t0 + 2) (t0 + 3) "YW5vdGhlci1leGFtcGxl" [x22; x9e; x04] [x02].

(** The same address, differently written, and another password. *)
Definition alice_again : pyval :=
  PDict [("email", PStr "  A@B.com "); ("password", PStr "another-password")].

Definition alice_wrong_password : pyval :=
  PDict [("email", PStr "a@b.com"); ("password", PStr "wrongpassword")].

(** The table after the signup of [alice]. *)
Definition store1 : Store := fst (signup world0 [] alice).

(** A token for user 7, valid for an hour from [t0]. *)
Definition token0 : string :=
  Eval vm_compute in
  match generate_token cfg0 t0 t0 [x01] 7 3600 with
  | Returned t => t
  | Raised _ => EmptyString
  end.

(** ** Running a schedule

    A schedule names, step by step, the request that moves next. *)

Section Schedules.

Context {L : Libs}.

Definition advance_at (i : nat) (c : Store * list request)
  : Store * list request :=
  match nth_error (snd c) i with
  | None => c
  | Some r =>
      let '(s', r') := advance (fst c) r in
      (s', firstn i (snd c) ++ r' :: skipn (S i) (snd c))
  end.

Definition run (schedule : list nat) (c : Store * list request)
  : Store * list request :=
  fold_left (fun c i => advance_at i c) schedule c.

End Schedules.

(** The status of a response, and the token a login response carries. *)
Definition status_of (o : outcome response) : option Z :=
  match o with
  | Returned r => Some (status r)
  | Raised _ => None
  end.

Definition token_of (o : outcome response) : option string :=
  match o with
  | Returned r =>
      match Py.getitem (body r) "token" with
      | Returned (PStr t) => Some t
      | _ => None
      end
  | Raised _ => None
  end.

(** Two signups for one address, received together. *)
Definition two_signups : list (World * pyval) :=
  [(world0, alice); (world1, alice_again)].

(** Both look the address up before either commits. *)
Definition racing : list nat := [0; 1; 0; 1]%nat.

(** The first is answered before the second is looked at. *)
Definition in_turn : list nat := [0; 0; 1; 1]%nat.

(** The row of [alice] in [store1]. *)
Definition row1 : User.t :=
  nth 0 store1 (User.mk 0 EmptyString EmptyString false None None None).

(** * More of the code: what further properties are stated in *)

(** ** The strings a regular expression matches *)

Module Lang.

Inductive matches : Re.regex -> string -> Prop :=
| m_eps : matches Re.Eps EmptyString
| m_cls (p : ascii -> bool) (c : ascii) :
    p c = true -> matches (Re.Cls p) (String c EmptyString)
| m_cat (r1 r2 : Re.regex) (s1 s2 : string) :
    matches r1 s1 -> matches r2 s2 -> matches (Re.Cat r1 r2) (s1 ++ s2)
| m_alt_l (r1 r2 : Re.regex) (s : string) :
    matches r1 s -> matches (Re.Alt r1 r2) s
| m_alt_r (r1 r2 : Re.regex) (s : string) :
    matches r2 s -> matches (Re.Alt r1 r2) s
| m_star_nil (r : Re.regex) : matches (Re.Star r) EmptyString
| m_star_more (r : Re.regex) (s1 s2 : string) :
    matches r s1 -> matches (Re.Star r) s2 -> matches (Re.Star r) (s1 ++ s2).

End Lang.

(** Every character of [s] is in the class [p]. *)
Fixpoint all_chars (p : ascii -> bool) (s : string) : bool :=
  match s with
  | EmptyString => true
  | String c r => p c && all_chars p r
  end.

Definition NEWLINE : string := String (Str.chr 10) EmptyString.

(** [local@domain.tld]: a non-empty local part, a non-empty domain, and at
    least two letters after the last dot. *)
Definition email_shape (s : string) : Prop :=
  exists local domain tld : string,
    s = (local ++ String "@" (domain ++ String "." tld))%string
    /\ local <> EmptyString /\ all_chars local_char local = true
    /\ domain <> EmptyString /\ all_chars domain_char domain = true
    /\ (2 <= String.length tld)%nat /\ all_chars alpha_char tld = true.

(** ** What [signup] creates *)

Section Created.

Context {L : Libs}.

(** The row a successful [signup] commits, and its answer. *)
Definition new_row (w : World) (s : Store) (email pwhash : string) : User.t :=
  User.mk (Db.next_id s) email pwhash false
    (Some (token_urlsafe w))
    (Some (Db.utcnow (clock1 w))) (Some (Db.utcnow (clock1 w))).

Definition created_response (w : World) (row : User.t) : response :=
  Response (PDict [
    ("message", PStr "User created successfully");
    ("user", User.to_dict row);
    ("verification_token", PStr (token_urlsafe w));
    ("note", PStr
      "In production, verification token would be sent via email")
  ]) 201.

(** What a body must be for [signup] to create the account [email] with
    password [p], stored as [pwhash], in the table [s]. *)
Definition acceptable (w : World) (s : Store) (data : pyval)
    (email p pwhash : string) : Prop :=
  Py.truthy data = true
  /\ read_credentials data = Returned (email, PStr p)
  /\ is_valid_email email = true
  /\ (8 <= String.length p)%nat
  /\ Db.first (Db.has_email email) s = None
  /\ generate_password_hash p (salt w) = Returned pwhash
  /\ healthy w = true.

(** Any number of signups and verifications, one after the other. *)
Inductive api_steps : Store -> Store -> Prop :=
| api_steps_refl (s : Store) : api_steps s s
| api_steps_then (s1 s2 s3 : Store) :
    api_steps s1 s2 -> api_step s2 s3 -> api_steps s1 s3.

(** What every row of a table the routes produce satisfies. *)
Definition row_wellformed (u : User.t) : Prop :=
  0 < User.id u
  /\ email_shape (User.email u)
  /\ Str.lower (Str.strip (User.email u)) = User.email u
  /\ (exists p slt,
        generate_password_hash p slt = Returned (User.password_hash u)
        /\ (8 <= String.length p)%nat)
  /\ (User.is_verified u = true <-> User.verification_token u = None).

Definition store_wellformed (s : Store) : Prop :=
  NoDup (map User.id s)
  /\ NoDup (map User.email s)
  /\ forall u, In u s -> row_wellformed u.

(** The row [u] once verified at clock reading [t]. *)
Definition verified_at (t : Z) (u : User.t) : User.t :=
  User.mk (User.id u) (User.email u) (User.password_hash u) true None
    (User.created_at u) (Some (Db.utcnow t)).

End Created.

(** What the composition of [signup] and [login] assumes of the password
    hashing: a hash checks against the password it was made from. *)
Class HashLaws (L : Libs) : Prop := {
  check_generated : forall p slt pwhash,
    generate_password_hash p slt = Returned pwhash ->
    check_password_hash pwhash p = Returned true
}.

(** ** What [login] answers *)

Section LoggedIn.

Context {L : Libs}.

Definition login_response (token : string) (user : User.t) : response :=
  Response (PDict [
    ("message", PStr "Login successful");
    ("token", PStr token);
    ("user", User.to_dict user)
  ]) 200.

(** The body names the stored row [user] by its email, with a password
    the stored hash checks against; [token] is the token made for it. *)
Definition authenticated (cfg : Config) (w : World) (s : Store)
    (data : pyval) (user : User.t) (token : string) : Prop :=
  exists email p,
    read_credentials data = Returned (email, PStr p)
    /\ email <> EmptyString /\ p <> EmptyString
    /\ Db.first (Db.has_email email) s = Some user
    /\ check_password_hash (User.password_hash user) p = Returned true
    /\ generate_token cfg (clock1 w) (clock2 w) (nonce w) (User.id user)
         DEFAULT_EXPIRES_IN = Returned token.

(** The payload [generate_token] writes. *)
Definition token_payload (user_id expiry t_iat : Z) : pyval :=
  PDict [
    ("sub", PStr (Py.str_of_int user_id));
    ("exp", PStr (isoformat (Datetime expiry (Some 0))));
    ("iat", PStr (isoformat (DT.now_utc t_iat)))
  ].


(** The row [u'] is the account [u]: same id, same email, same hash. *)
Definition same_account (u u' : User.t) : Prop :=
  User.id u' = User.id u
  /\ User.email u' = User.email u
  /\ User.password_hash u' = User.password_hash u.

(** The user id a payload names, as the guard reads it. *)
Definition subject (payload : pyval) : outcome Z :=
  sub <- Py.getitem payload "sub" ;; Py.int sub.

End LoggedIn.

(** ** More concrete requests *)

(** The address of [alice] with a password that is a number. *)
Definition alice_number : pyval :=
  PDict [("email", PStr "a@b.com"); ("password", PInt 1)].

Definition bob : pyval :=
  PDict [("email", PStr "Bob@Example.org");
         ("password", PStr "correct horse")].

(** The table after [alice] verified her email. *)
Definition store2 : Store :=
  fst (verify_email world1 store1 (token_urlsafe world0)).

(** The token of the login of [alice] at [world1]. *)
Definition token1 : string :=
  Eval vm_compute in
  match token_of (login cfg0 world1 store1 alice) with
  | Some t => t
  | None => EmptyString
  end.

(** * Properties *)

(** Settles an interval test [(a <=? x) && (x <=? b)] that holds. *)
Ltac in_range :=
  match goal with
  | |- context [if ?c then _ else _] =>
      let E := fresh "E" in
      destruct c eqn:E;
      [ reflexivity
      | exfalso; apply andb_false_iff in E;
        destruct E as [E | E]; apply Z.leb_gt in E; lia ]
  end.

(** ** SHA-256 test vectors *)

Example sha256_abc :
  Sha256.hexdigest (Sha256.sha256 (Str.encode "abc"))
  = "ba7816bf8f01cfea414140de5dae2223b00361a396177a9cb410ff61f20015ad".
Proof. vm_compute. reflexivity. Qed.

Example sha256_empty :
  Sha256.hexdigest (Sha256.sha256 [])
  = "e3b0c44298fc1c149afbf4c8996fb92427ae41e4649b934ca495991b7852b855".
Proof. vm_compute. reflexivity. Qed.

Example sha256_two_blocks :
  Sha256.hexdigest (Sha256.sha256 (Str.encode
    "abcdbcdecdefdefgefghfghighijhijkijkljklmklmnlmnomnopnopq"))
  = "248d6a61d20638b8e5c026930c3e6039a33ce45964ff2167f6ecedd419db06c1".
Proof. vm_compute. reflexivity. Qed.

(** ** Small runs of the string functions *)

Example is_valid_email_examples :
  is_valid_email "test@example.com" = true
  /\ is_valid_email "a.b%c+d-e_f@sub-domain.example.org" = true
  /\ is_valid_email "a@b.com" = true
  /\ is_valid_email "invalid-email" = false
  /\ is_valid_email "a@b" = false
  /\ is_valid_email "a@b.c" = false
  /\ is_valid_email "a@b.c0m" = false
  /\ is_valid_email "a b@c.com" = false
  /\ is_valid_email "@b.com" = false
  /\ is_valid_email "a@@b.com" = false
  /\ is_valid_email (String.append "a@b.com" (String (Str.chr 10) EmptyString))
     = true.
Proof. repeat split. Qed.

Example split_strip_lower_examples :
  Str.split "Bearer abc" = ["Bearer"; "abc"]
  /\ Str.split "  a  b c " = ["a"; "b"; "c"]
  /\ Str.split "   " = []
  /\ Str.strip "  A@B.com " = "A@B.com"
  /\ Str.lower "BeArEr" = "bearer".
Proof. repeat split. Qed.

Example int_of_str_examples :
  Py.int_of_str "42" = Returned 42
  /\ Py.int_of_str " -7 " = Returned (-7)
  /\ Py.int_of_str "+1_000" = Returned 1000
  /\ Py.int_of_str "1__0" = Raised ValueError
  /\ Py.int_of_str "12a" = Raised ValueError
  /\ Py.int_of_str "" = Raised ValueError.
Proof. repeat split. Qed.

(** ** Key derivation *)

Lemma sha256_length (m : bytes) : List.length (Sha256.sha256 m) = 32%nat.
Proof. reflexivity. Qed.

(** The key is the SHA-256 digest of the UTF-8 form of the configured
    secret: 32 bytes long, and the same key under every configuration with
    that secret. *)
Lemma get_paseto_key_derivation (secret : string) :
  let k := get_paseto_key (MkConfig (Some secret)) in
  key k = Sha256.sha256 (Str.encode secret)
  /\ List.length (key k) = 32%nat
  /\ version k = 4 /\ purpose k = "local"
  /\ forall cfg, SECRET_KEY cfg = Some secret -> get_paseto_key cfg = k.
Proof.
  cbv [get_paseto_key config_get_SECRET_KEY SECRET_KEY key version purpose].
  split; [ reflexivity | ]. split; [ apply sha256_length | ].
  split; [ reflexivity | ]. split; [ reflexivity | ].
  intros [secret'] H. cbn in H. rewrite H. reflexivity.
Qed.

Lemma get_paseto_key_length (cfg : Config) :
  List.length (key (get_paseto_key cfg)) = 32%nat.
Proof. apply sha256_length. Qed.

(** The keys [hashlib] derives: for the secret used when none is
    configured, for the secret of the tests, and for a secret with a
    character of two UTF-8 bytes. *)
Example get_paseto_key_vectors :
  Sha256.hexdigest (key (get_paseto_key (MkConfig None)))
  = "78a6c76148cb9a58742db50123c5c63dde01cdcadb51683eaad0dc44ae9569b9"
  /\ Sha256.hexdigest (key (get_paseto_key (MkConfig (Some "test-secret-key"))))
     = "2ceac6f36363c6246a64cca805cd43ca7a01b14eb2fcc532ceec3f60f2f7df1c"
  /\ Sha256.hexdigest
       (key (get_paseto_key
               (MkConfig (Some (String (Str.chr 233) EmptyString)))))
     = "4a99557e4033c3539de2eb65472017cad5f9557f7a0625a09f1c3f6e2ba69c4c".
Proof. repeat split; vm_compute; reflexivity. Qed.

(** ** [verify_token] *)

Section TokenProperties.

Context {L : Libs}.

(** C10. [verify_token] returns, a payload or [None], on every string. *)
Theorem verify_token_total (cfg : Config) (t_now : Z) (token : string) :
  exists r : option pyval, verify_token cfg t_now token = Returned r.
Proof.
  unfold verify_token, try_except.
  destruct (verify_token_try cfg t_now token) as [r | e]; eauto.
Qed.

End TokenProperties.

(** ** [int(str(n))] *)

Section IntOfStr.

Lemma digits_from_uint_acc (d : Decimal.uint) (acc : positive) :
  Py.digits_from (Z.pos acc) (NilEmpty.string_of_uint d)
  = Some (Z.pos (Pos.of_uint_acc d acc)).
Proof.
  revert acc.
  induction d as [ | d IH | d IH | d IH | d IH | d IH | d IH | d IH | d IH
                   | d IH | d IH ]; intros acc;
    [ reflexivity | .. ];
    cbn [NilEmpty.string_of_uint Py.digits_from Pos.of_uint_acc];
    match goal with
    | |- context [Py.is_digit ?c] =>
        change (Py.is_digit c) with true; cbv iota;
        rewrite <- IH; f_equal; unfold Py.digit_val;
        let v := eval vm_compute in (Str.code c) in
        change (Str.code c) with v; lia
    end.
Qed.

Lemma digits_from_uint (d : Decimal.uint) :
  Py.digits_from 0 (NilEmpty.string_of_uint d) = Some (Z.of_uint d).
Proof.
  unfold Z.of_uint.
  induction d as [ | d IH | d IH | d IH | d IH | d IH | d IH | d IH | d IH
                   | d IH | d IH ];
    [ reflexivity | exact IH | .. ];
    cbn [NilEmpty.string_of_uint Py.digits_from Pos.of_uint];
    match goal with
    | |- context [Py.is_digit ?c] =>
        change (Py.is_digit c) with true; cbv iota;
        let v := eval vm_compute in (10 * 0 + Py.digit_val c) in
        change (10 * 0 + Py.digit_val c) with v;
        apply digits_from_uint_acc
    end.
Qed.

Lemma digits_uint (d : Decimal.uint) :
  d <> Decimal.Nil ->
  Py.digits (NilEmpty.string_of_uint d) = Some (Z.of_uint d).
Proof.
  intros Hd. rewrite <- digits_from_uint.
  destruct d; [ congruence | .. ]; reflexivity.
Qed.

Lemma uint_no_space (d : Decimal.uint) :
  no_space (NilEmpty.string_of_uint d) = true.
Proof. induction d; simpl; auto. Qed.

Lemma lstrip_no_space (s : string) : no_space s = true -> Str.lstrip s = s.
Proof.
  destruct s as [ | c r]; [ reflexivity | ]. simpl.
  intros H. apply andb_true_iff in H as [Hc _].
  apply negb_true_iff in Hc. rewrite Hc. reflexivity.
Qed.

Lemma rstrip_no_space (s : string) : no_space s = true -> Str.rstrip s = s.
Proof.
  induction s as [ | c r IH]; [ reflexivity | ]. simpl.
  intros H. apply andb_true_iff in H as [Hc Hr].
  apply negb_true_iff in Hc. rewrite (IH Hr), Hc.
  destruct r; reflexivity.
Qed.

Lemma strip_no_space (s : string) : no_space s = true -> Str.strip s = s.
Proof.
  intros H. unfold Str.strip. rewrite lstrip_no_space by assumption.
  apply rstrip_no_space, H.
Qed.

Lemma int_of_str_uint (d : Decimal.uint) :
  d <> Decimal.Nil ->
  Py.int_of_str (NilEmpty.string_of_uint d) = Returned (Z.of_uint d)
  /\ Py.int_of_str (String "-" (NilEmpty.string_of_uint d))
     = Returned (- Z.of_uint d).
Proof.
  intros Hd. unfold Py.int_of_str. split.
  - rewrite strip_no_space by apply uint_no_space.
    pose proof (digits_uint Hd) as Hdig.
    destruct d; [ congruence | .. ]; cbn [NilEmpty.string_of_uint] in *;
      cbv beta iota zeta; rewrite Hdig; reflexivity.
  - rewrite strip_no_space by (simpl; apply uint_no_space).
    cbv iota beta. rewrite (digits_uint Hd). reflexivity.
Qed.

(** The text [str] writes for an [int] is read back by [int]. *)
Lemma int_of_str_of_int (n : Z) :
  Py.int (PStr (Py.str_of_int n)) = Returned n.
Proof.
  unfold Py.int, Py.str_of_int.
  rewrite <- (DecimalZ.of_to n) at 2.
  destruct n as [ | p | p]; cbn [Z.to_int NilZero.string_of_int Z.of_int].
  - reflexivity.
  - pose proof (Unsigned.to_uint_nonnil p) as Hp.
    destruct (int_of_str_uint Hp) as [H _].
    unfold NilZero.string_of_uint.
    destruct (Pos.to_uint p); [ congruence | .. ]; exact H.
  - pose proof (Unsigned.to_uint_nonnil p) as Hp.
    destruct (int_of_str_uint Hp) as [_ H].
    unfold NilZero.string_of_uint.
    destruct (Pos.to_uint p); [ congruence | .. ]; exact H.
Qed.

End IntOfStr.

(** ** Token round trip and expiry *)

Section Expiry.

Context {L : Libs}.

(** C2. A token whose embedded expiry instant lies before the clock reading
    is refused; the expiry is only reached once decryption succeeded. *)
Theorem verify_token_expired (cfg : Config) (t_now : Z) (token : string)
    (expiry : Z) :
  embedded_expiry cfg token = Some expiry ->
  expiry < t_now ->
  verify_token cfg t_now token = Returned None
  /\ exists payload_bytes,
       pyseto_decode (get_paseto_key cfg) token = Returned payload_bytes.
Proof.
  unfold embedded_expiry, verify_token, verify_token_try.
  intros Hexp Hlt.
  destruct (pyseto_decode (get_paseto_key cfg) token) as [pb | e];
    simpl in *; [ | discriminate ].
  split; [ | eauto ].
  destruct (bind (bytes_decode pb) (fun s => json_loads s)) as [p | e];
    simpl in *; [ | discriminate ].
  destruct (bind (Py.getitem p "exp") (fun e => datetime_fromisoformat e))
    as [d | e]; simpl in *; [ | discriminate ].
  unfold DT.instant in Hexp. unfold DT.lt. simpl.
  destruct (utcoffset d) as [o | ]; [ | discriminate ].
  injection Hexp as <-. simpl.
  replace (wall d - o <? t_now - 0) with true; [ reflexivity | ].
  symmetry. apply Z.ltb_lt. lia.
Qed.

(** Conversely, a payload is only returned while the clock has not passed
    the embedded expiry. *)
Lemma verify_token_accepts (cfg : Config) (t_now : Z) (token : string)
    (payload : pyval) :
  verify_token cfg t_now token = Returned (Some payload) ->
  exists expiry,
    embedded_expiry cfg token = Some expiry /\ t_now <= expiry.
Proof.
  unfold embedded_expiry, verify_token, verify_token_try.
  destruct (pyseto_decode (get_paseto_key cfg) token) as [pb | e];
    simpl; [ | discriminate ].
  destruct (bind (bytes_decode pb) (fun s => json_loads s)) as [p | e];
    simpl; [ | discriminate ].
  destruct (bind (Py.getitem p "exp") (fun e => datetime_fromisoformat e))
    as [d | e]; simpl; [ | discriminate ].
  unfold DT.lt, DT.instant. simpl.
  destruct (utcoffset d) as [o | ]; simpl; [ | discriminate ].
  destruct (wall d - o <? t_now - 0) eqn:E; simpl; [ discriminate | ].
  intros _. exists (wall d - o). split; [ reflexivity | ].
  apply Z.ltb_ge in E. lia.
Qed.

Lemma timedelta_seconds_in_range (n : Z) :
  0 <= n -> n * DT.US_PER_SECOND <= DT.MAX_WALL ->
  DT.timedelta_seconds n = Returned (n * DT.US_PER_SECOND).
Proof.
  intros H0 H1. unfold DT.timedelta_seconds.
  unfold DT.MAX_WALL, DT.US_PER_DAY, DT.US_PER_SECOND, DT.MAX_DELTA_DAYS in *.
  assert (0 <= n / 86400 < 3652059) as [Ha Hb].
  { split; [ apply Z.div_pos; lia | ].
    apply Z.div_lt_upper_bound; lia. }
  in_range.
Qed.

Lemma generate_token_payload (cfg : Config) (t_exp t_iat : Z) (nonce : bytes)
    (user_id expires_in : Z) :
  0 <= expires_in ->
  0 <= t_exp ->
  t_exp + expires_in * DT.US_PER_SECOND <= DT.MAX_WALL ->
  generate_token cfg t_exp t_iat nonce user_id expires_in
  = Returned (pyseto_encode (get_paseto_key cfg) (PDict [
      ("sub", PStr (Py.str_of_int user_id));
      ("exp", PStr (isoformat
         (Datetime (t_exp + expires_in * DT.US_PER_SECOND) (Some 0))));
      ("iat", PStr (isoformat (DT.now_utc t_iat)))
    ]) nonce).
Proof.
  intros Hn Ht Hmax. unfold generate_token.
  rewrite timedelta_seconds_in_range by (unfold DT.US_PER_SECOND in *; lia).
  simpl. unfold DT.add. simpl.
  unfold DT.US_PER_SECOND in *. in_range.
Qed.

(** What [generate_token] returns, when it returns: the expiry it wrote is
    one [datetime] can hold. *)
Lemma generate_token_returned (cfg : Config) (t_exp t_iat : Z)
    (nonce : bytes) (user_id expires_in : Z) (token : string) :
  generate_token cfg t_exp t_iat nonce user_id expires_in = Returned token ->
  0 <= t_exp + expires_in * DT.US_PER_SECOND <= DT.MAX_WALL
  /\ token = pyseto_encode (get_paseto_key cfg) (PDict [
      ("sub", PStr (Py.str_of_int user_id));
      ("exp", PStr (isoformat
         (Datetime (t_exp + expires_in * DT.US_PER_SECOND) (Some 0))));
      ("iat", PStr (isoformat (DT.now_utc t_iat)))
    ]) nonce.
Proof.
  unfold generate_token, DT.timedelta_seconds, DT.add. cbn [DT.now_utc wall utcoffset].
  destruct ((- DT.MAX_DELTA_DAYS <=? expires_in / 86400)
            && (expires_in / 86400 <=? DT.MAX_DELTA_DAYS));
    cbn [bind]; [ | discriminate ].
  destruct ((0 <=? t_exp + expires_in * DT.US_PER_SECOND)
            && (t_exp + expires_in * DT.US_PER_SECOND <=? DT.MAX_WALL)) eqn:E;
    cbn [bind]; [ | discriminate ].
  apply andb_true_iff in E as [E1 E2].
  apply Z.leb_le in E1. apply Z.leb_le in E2.
  intros [= <-]. split; [ lia | reflexivity ].
Qed.

(** What [verify_token] returns for a token of [generate_token], up to its
    expiry instant. *)
Lemma verify_generated_token `{!LibsLaws L} (cfg : Config) (t_exp t_iat : Z)
    (nonce : bytes) (user_id expires_in : Z) (token : string) (t_now : Z) :
  generate_token cfg t_exp t_iat nonce user_id expires_in = Returned token ->
  t_now <= t_exp + expires_in * DT.US_PER_SECOND ->
  verify_token cfg t_now token
  = Returned (Some (PDict [
      ("sub", PStr (Py.str_of_int user_id));
      ("exp", PStr (isoformat
         (Datetime (t_exp + expires_in * DT.US_PER_SECOND) (Some 0))));
      ("iat", PStr (isoformat (DT.now_utc t_iat)))
    ])).
Proof.
  intros Hgen Hnow.
  apply generate_token_returned in Hgen as [Hrange ->].
  unfold verify_token, verify_token_try, pyseto_decode, pyseto_encode.
  rewrite v4_local_correct by apply get_paseto_key_length.
  cbn [bind]. rewrite utf8_correct. cbn [bind].
  rewrite json_correct.
  - cbn [bind Py.getitem Py.lookup String.eqb Ascii.eqb Bool.eqb
         datetime_fromisoformat].
    rewrite isoformat_correct by exact Hrange.
    cbn [bind]. unfold DT.lt. cbn [DT.now_utc wall utcoffset bind].
    replace (t_exp + expires_in * DT.US_PER_SECOND - 0 <? t_now - 0)
      with false; [ reflexivity | ].
    symmetry. apply Z.ltb_ge. lia.
  - intros k v [H | [H | [H | []]]]; inversion H; eauto.
  - simpl. repeat constructor; simpl; intuition discriminate.
Qed.

(** C1. For a positive lifetime, [generate_token] returns a token whenever
    the expiry is one [datetime] can hold; and every token it returns for
    [user_id] is accepted at every clock reading up to the expiry instant,
    with a payload whose ['sub'] is [str(user_id)], which [int] reads back
    as [user_id]. *)
Theorem token_round_trip `{!LibsLaws L} (cfg : Config) (t_exp t_iat : Z)
    (nonce : bytes) (user_id expires_in : Z) :
  0 < expires_in ->
  (0 <= t_exp ->
   t_exp + expires_in * DT.US_PER_SECOND <= DT.MAX_WALL ->
   exists token,
     generate_token cfg t_exp t_iat nonce user_id expires_in = Returned token)
  /\ (forall token t_now,
        generate_token cfg t_exp t_iat nonce user_id expires_in
        = Returned token ->
        t_now <= t_exp + expires_in * DT.US_PER_SECOND ->
        exists payload,
          verify_token cfg t_now token = Returned (Some payload)
          /\ Py.getitem payload "sub"
             = Returned (PStr (Py.str_of_int user_id))
          /\ bind (Py.getitem payload "sub") Py.int = Returned user_id).
Proof.
  intros Hpos. split.
  - intros Ht Hmax. eexists. apply generate_token_payload; lia.
  - intros token t_now Hgen Hnow.
    eexists. split; [ apply (verify_generated_token _ _ _ _ _ _ Hgen Hnow) | ].
    split; [ reflexivity | ].
    cbn [Py.getitem Py.lookup String.eqb Ascii.eqb Bool.eqb bind].
    apply int_of_str_of_int.
Qed.

End Expiry.

(** ** The guard *)

Lemma append_nil_r (s : string) : (s ++ "")%string = s.
Proof. induction s as [ | c r IH]; simpl; [ | rewrite IH ]; reflexivity. Qed.

Lemma append_assoc (a b c : string) :
  (a ++ (b ++ c))%string = ((a ++ b) ++ c)%string.
Proof. induction a as [ | x r IH]; simpl; [ | rewrite IH ]; reflexivity. Qed.

Section Split.

Import Str.

Lemma rev_string_twice (s a b : string) :
  rev_string a (rev_string b s) = (rev_string "" b ++ s ++ a)%string.
Proof.
  revert a b. induction s as [ | c r IH]; intros a b; simpl.
  - revert a. induction b as [ | c b IHb]; intros a; simpl; [ reflexivity | ].
    rewrite IHb. rewrite (IHb (String c "")).
    rewrite <- append_assoc. reflexivity.
  - rewrite IH. simpl.
    assert (H : forall x y, rev_string y x = (rev_string "" x ++ y)%string).
    { clear. induction x as [ | d x IHx]; intros y; simpl; [ reflexivity | ].
      rewrite IHx. rewrite (IHx (String d "")).
      rewrite <- append_assoc. reflexivity. }
    rewrite (H b (String c "")). rewrite <- append_assoc. reflexivity.
Qed.

Lemma flush_word (p : string) :
  p <> "" -> flush (rev_string "" p) = [p].
Proof.
  intros Hp. unfold flush.
  destruct (rev_string "" p) eqn:E.
  - exfalso. apply Hp.
    pose proof (rev_string_twice p "" "") as H. rewrite E in H. simpl in H.
    rewrite append_nil_r in H. congruence.
  - rewrite <- E. pose proof (rev_string_twice p "" "") as H. simpl in H.
    rewrite append_nil_r in H. rewrite H. reflexivity.
Qed.

Lemma split_from_word (p s cur : string) :
  no_space p = true ->
  split_from cur (p ++ s) = split_from (rev_string cur p) s.
Proof.
  revert cur. induction p as [ | c r IH]; intros cur H; simpl in *.
  - reflexivity.
  - apply andb_true_iff in H as [Hc Hr].
    apply negb_true_iff in Hc. rewrite Hc. apply IH, Hr.
Qed.

Lemma split_from_spaces (w s : string) :
  all_space w = true -> split_from "" (w ++ s) = split_from "" s.
Proof.
  induction w as [ | c r IH]; intros H; simpl in *.
  - reflexivity.
  - apply andb_true_iff in H as [Hc Hr]. rewrite Hc. simpl. apply IH, Hr.
Qed.

Lemma split_all_space (w : string) : all_space w = true -> split w = [].
Proof.
  intros H. unfold split. rewrite <- (append_nil_r w).
  rewrite split_from_spaces by assumption. reflexivity.
Qed.

(** After a word, a boundary: the end, or a whitespace character. *)
Lemma split_from_boundary (w s cur : string) :
  w <> "" -> all_space w = true ->
  split_from cur (w ++ s) = flush cur ++ split_from "" s.
Proof.
  intros Hw H. destruct w as [ | c r]; [ congruence | ].
  simpl in *. apply andb_true_iff in H as [Hc Hr]. rewrite Hc.
  f_equal. apply split_from_spaces, Hr.
Qed.

Lemma split_from_end (w cur : string) :
  all_space w = true -> split_from cur w = flush cur.
Proof.
  intros H. destruct w as [ | c r]; [ reflexivity | ].
  rewrite <- (append_nil_r (String c r)).
  rewrite split_from_boundary by (congruence || assumption).
  simpl. apply app_nil_r.
Qed.

Lemma two_parts_split (h p0 p1 : string) :
  two_parts h p0 p1 -> split h = [p0; p1].
Proof.
  intros (w0 & w1 & w2 & -> & H0 & [N0 P0] & [N1 W1] & [N2 P1] & H2).
  unfold split.
  rewrite split_from_spaces by assumption.
  rewrite split_from_word by assumption.
  rewrite split_from_boundary by assumption.
  rewrite flush_word by assumption.
  rewrite split_from_word by assumption.
  rewrite split_from_end by assumption.
  rewrite flush_word by assumption. reflexivity.
Qed.

(** Every string is leading whitespace followed by nothing or by a part and
    a remainder that starts at a boundary. *)
Lemma leading_space (h : string) :
  exists w h', h = (w ++ h')%string /\ all_space w = true
    /\ (h' = "" \/ exists c r, h' = String c r /\ isspace c = false).
Proof.
  induction h as [ | c r (w & h' & -> & Hw & Hh')].
  - exists "", "". simpl. auto.
  - destruct (isspace c) eqn:Ec.
    + exists (String c w), h'. simpl. rewrite Ec, Hw. auto.
    + exists "", (String c (w ++ h')). simpl. split; [ reflexivity | ].
      split; [ reflexivity | ]. right. eauto.
Qed.

Lemma leading_part (h : string) :
  exists p r, h = (p ++ r)%string /\ no_space p = true
    /\ (r = "" \/ exists c r', r = String c r' /\ isspace c = true).
Proof.
  induction h as [ | c r (p & r' & -> & Hp & Hr')].
  - exists "", "". simpl. auto.
  - destruct (isspace c) eqn:Ec.
    + exists "", (String c (p ++ r')). simpl. split; [ reflexivity | ].
      split; [ reflexivity | ]. right. eauto.
    + exists (String c p), r'. simpl. rewrite Ec, Hp. auto.
Qed.

(** The first part [split] reports, and what is left to split. *)
Lemma split_first (h : string) :
  (split h = [] /\ all_space h = true)
  \/ exists w p r,
       h = (w ++ p ++ r)%string /\ all_space w = true /\ is_part p
       /\ (r = "" \/ exists c r', r = String c r' /\ isspace c = true)
       /\ split h = p :: split r.
Proof.
  destruct (leading_space h) as (w & h' & -> & Hw & [-> | (c & r & -> & Hc)]).
  - left. rewrite append_nil_r. split; [ | assumption ].
    apply split_all_space, Hw.
  - right. destruct (leading_part r) as (p & r' & -> & Hp & Hr').
    exists w, (String c p), r'.
    assert (Part : is_part (String c p)).
    { split; [ discriminate | ]. simpl. rewrite Hc, Hp. reflexivity. }
    split; [ reflexivity | ]. split; [ assumption | ].
    split; [ assumption | ]. split; [ assumption | ].
    unfold split. rewrite split_from_spaces by assumption.
    change (String c (p ++ r'))%string with (String c p ++ r')%string.
    rewrite split_from_word by apply Part.
    destruct Hr' as [-> | (d & r'' & -> & Hd)].
    + rewrite split_from_end by reflexivity.
      rewrite flush_word by apply Part. reflexivity.
    + change (String d r'') with (String d "" ++ r'')%string.
      rewrite split_from_boundary;
        [ | discriminate | simpl; rewrite Hd; reflexivity ].
      rewrite flush_word by apply Part. simpl.
      rewrite Hd. reflexivity.
Qed.

Lemma split_two_parts (h p0 p1 : string) :
  split h = [p0; p1] -> two_parts h p0 p1.
Proof.
  intros H.
  destruct (split_first h)
    as [[E _] | (w0 & q0 & r0 & -> & Hw0 & Q0 & B0 & E0)]; [ congruence | ].
  rewrite E0 in H. injection H as -> H.
  destruct (split_first r0)
    as [[E _] | (w1 & q1 & r1 & -> & Hw1 & Q1 & B1 & E1)]; [ congruence | ].
  rewrite E1 in H. injection H as -> H.
  destruct (split_first r1)
    as [[_ S1] | (w2 & q2 & r2 & _ & _ & _ & _ & E2)]; [ | congruence ].
  exists w0, w1, r1. repeat split; try assumption; try apply Q0; try apply Q1.
  intros ->. simpl in B0.
  destruct B0 as [B0 | (c & r' & B0 & Hc)].
  - destruct p1; [ apply Q1; reflexivity | discriminate ].
  - destruct Q1 as [N1 P1]. destruct p1 as [ | d p1]; [ congruence | ].
    simpl in *. injection B0 as -> _. rewrite Hc in P1. discriminate.
Qed.

End Split.

Section Guard.

Context {L : Libs}.

Lemma two_parts_nonempty (h p0 p1 : string) :
  two_parts h p0 p1 -> Str.truthy h = true.
Proof.
  intros (w0 & w1 & w2 & -> & _ & [N0 _] & _).
  destruct w0; [ | reflexivity ]. destruct p0; [ congruence | reflexivity ].
Qed.

Lemma bearer_token_spec (auth_header : option string) (t : string) :
  bearer_token auth_header = Some t <-> carries_bearer auth_header t.
Proof.
  unfold bearer_token, carries_bearer, caseless_eq. split.
  - destruct auth_header as [h | ]; [ | discriminate ].
    destruct (Str.truthy h); [ | discriminate ].
    destruct (Str.split h) as [ | p0 [ | p1 [ | ? ? ]]] eqn:E;
      try discriminate.
    destruct (String.eqb_spec (Str.lower p0) "bearer") as [Hl | ];
      [ | discriminate ].
    intros [= <-]. exists h, p0.
    split; [ reflexivity | ]. split; [ apply split_two_parts, E | exact Hl ].
  - intros (h & scheme & -> & H2 & Hl).
    rewrite (two_parts_nonempty H2), (two_parts_split H2).
    change (Str.lower "Bearer") with "bearer" in Hl.
    rewrite Hl, String.eqb_refl. reflexivity.
Qed.

Lemma token_required_bearer (f : Z -> outcome response) (cfg : Config)
    (t_now : Z) (auth_header : option string) (t : string) :
  bearer_token auth_header = Some t ->
  token_required f cfg t_now auth_header = with_token f cfg t_now t.
Proof.
  intros H. unfold token_required. rewrite H.
  apply bearer_token_spec in H.
  destruct H as (h & scheme & _ & H2 & _).
  destruct H2 as (_ & _ & _ & _ & _ & _ & _ & [N1 _] & _).
  destruct t; [ congruence | reflexivity ].
Qed.

(** C5. The guard hands a token to verification exactly when the header
    carries a bearer token; every other request is answered
    401 "Token is missing". *)
Theorem guard_header_parsing (f : Z -> outcome response) (cfg : Config)
    (t_now : Z) (auth_header : option string) :
  (forall t, bearer_token auth_header = Some t <-> carries_bearer auth_header t)
  /\ (forall t, carries_bearer auth_header t ->
        token_required f cfg t_now auth_header = with_token f cfg t_now t)
  /\ ((forall t, ~ carries_bearer auth_header t) ->
        token_required f cfg t_now auth_header = Returned MISSING).
Proof.
  split; [ intros t; apply bearer_token_spec | ]. split.
  - intros t H. apply token_required_bearer, bearer_token_spec, H.
  - intros H. unfold token_required.
    destruct (bearer_token auth_header) as [t | ] eqn:E; [ | reflexivity ].
    apply bearer_token_spec in E. destruct (H t E).
Qed.

(** The shapes the specification names. *)
Example guard_shapes :
  bearer_token None = None
  /\ bearer_token (Some "") = None
  /\ bearer_token (Some "Basic abc") = None
  /\ bearer_token (Some "Bearer") = None
  /\ bearer_token (Some "Bearer abc def") = None
  /\ bearer_token (Some "Bearer abc") = Some "abc"
  /\ bearer_token (Some "  bEaReR   abc  ") = Some "abc".
Proof. repeat split. Qed.

(** Every way [verify_token] can fail ends in the same response. *)
Lemma with_token_invalid (f : Z -> outcome response) (cfg : Config)
    (t_now : Z) (t : string) :
  verify_token cfg t_now t = Returned None ->
  with_token f cfg t_now t = Returned INVALID.
Proof. intros H. unfold with_token. rewrite H. reflexivity. Qed.

Lemma verify_token_failure (cfg : Config) (t_now : Z) (t : string) :
  (exists e, verify_token_try cfg t_now t = Raised e)
  \/ verify_token_try cfg t_now t = Returned None ->
  verify_token cfg t_now t = Returned None.
Proof.
  unfold verify_token. intros [[e ->] | ->]; reflexivity.
Qed.

(** C6, as the code has it.  The guard answers every rejection with
    status 401 and a body of the same shape.  Whatever made verification
    fail (a token that does not decrypt, a payload that does not parse, an
    expiry that has passed), the response is the same one; a request
    without a token is answered with a different message. *)
Theorem guard_rejections (f : Z -> outcome response) (cfg : Config)
    (t_now : Z) (auth_header : option string) :
  match bearer_token auth_header with
  | None => token_required f cfg t_now auth_header = Returned MISSING
  | Some t =>
      ((exists e, verify_token_try cfg t_now t = Raised e)
       \/ verify_token_try cfg t_now t = Returned None) ->
      token_required f cfg t_now auth_header = Returned INVALID
  end
  /\ status MISSING = 401 /\ status INVALID = 401
  /\ body MISSING = PDict [("error", PStr "Token is missing")]
  /\ body INVALID = PDict [("error", PStr "Token is invalid or expired")].
Proof.
  split; [ | repeat split ].
  destruct (bearer_token auth_header) as [t | ] eqn:E.
  - intros Hfail. apply verify_token_failure in Hfail.
    rewrite (token_required_bearer f cfg t_now auth_header E).
    apply with_token_invalid, Hfail.
  - unfold token_required. rewrite E. reflexivity.
Qed.

(** A token of [generate_token], presented in time, passes the guard, which
    hands the user id to the protected function. *)
Lemma guard_resolves_subject `{!LibsLaws L} (f : Z -> outcome response)
    (cfg : Config) (t_exp t_iat : Z) (nonce : bytes)
    (user_id expires_in : Z) (token : string) (t_now : Z)
    (auth_header : option string) :
  generate_token cfg t_exp t_iat nonce user_id expires_in = Returned token ->
  t_now <= t_exp + expires_in * DT.US_PER_SECOND ->
  carries_bearer auth_header token ->
  token_required f cfg t_now auth_header = f user_id.
Proof.
  intros Hgen Hnow Hhdr.
  rewrite (token_required_bearer f cfg t_now auth_header
             (proj2 (bearer_token_spec auth_header token) Hhdr)).
  unfold with_token.
  rewrite (verify_generated_token _ _ _ _ _ _ Hgen Hnow).
  cbn [bind not_payload Py.truthy negb Py.getitem Py.lookup String.eqb
       Ascii.eqb Bool.eqb].
  rewrite int_of_str_of_int. reflexivity.
Qed.

End Guard.

(** ** Login *)

Section Login.

Context {L : Libs}.

Lemma truthy_nonempty (s : string) : s <> "" -> Str.truthy s = true.
Proof. destruct s; [ congruence | reflexivity ]. Qed.

(** A body whose email field is not empty is a non-empty [dict]. *)
Lemma read_credentials_truthy (data : pyval) (email : string) (pw : pyval) :
  read_credentials data = Returned (email, pw) ->
  email <> "" -> Py.truthy data = true.
Proof.
  unfold read_credentials. intros H Hne.
  destruct data as [ | | | | | | kvs]; try discriminate.
  destruct kvs as [ | kv kvs]; [ | reflexivity ].
  simpl in H. injection H as <- _. congruence.
Qed.

(** Where the stored hash is checked against the password and does not
    match, an unknown email and a known one are answered alike: with the
    one response 401 "Invalid email or password" when both fields are
    given. *)
Lemma login_no_account_oracle (cfg : Config) (w w' : World)
    (s_absent s_present : Store) (data : pyval) (email pw : string)
    (user : User.t) :
  read_credentials data = Returned (email, PStr pw) ->
  Db.first (Db.has_email email) s_absent = None ->
  Db.first (Db.has_email email) s_present = Some user ->
  check_password_hash (User.password_hash user) pw = Returned false ->
  login cfg w s_absent data = login cfg w' s_present data
  /\ (email <> "" -> pw <> "" ->
      login cfg w s_absent data = Returned INVALID_CREDENTIALS
      /\ login cfg w' s_present data = Returned INVALID_CREDENTIALS
      /\ status INVALID_CREDENTIALS = 401).
Proof.
  intros Hdata Habsent Hpresent Hpw. unfold login.
  rewrite Hdata. simpl. rewrite Habsent, Hpresent. simpl. rewrite Hpw. simpl.
  split.
  - destruct (negb (Py.truthy data)); [ reflexivity | ].
    destruct (negb (Str.truthy email) || negb (Str.truthy pw)); reflexivity.
  - intros He Hp.
    rewrite (read_credentials_truthy _ Hdata He).
    rewrite (truthy_nonempty He), (truthy_nonempty Hp). simpl.
    repeat split.
Qed.

(** C9. A stored account whose password matches is logged in, and given a
    token for its id, whatever its [is_verified] flag: the flag is not
    read on the way. *)
Theorem login_ignores_verification (cfg : Config) (w : World) (s : Store)
    (data : pyval) (email pw : string) (user : User.t) :
  read_credentials data = Returned (email, PStr pw) ->
  email <> "" -> pw <> "" ->
  Db.first (Db.has_email email) s = Some user ->
  check_password_hash (User.password_hash user) pw = Returned true ->
  0 <= clock1 w ->
  clock1 w + DEFAULT_EXPIRES_IN * DT.US_PER_SECOND <= DT.MAX_WALL ->
  exists token,
    generate_token cfg (clock1 w) (clock2 w) (nonce w) (User.id user)
      DEFAULT_EXPIRES_IN = Returned token
    /\ login cfg w s data
       = Returned (Response (PDict [
           ("message", PStr "Login successful");
           ("token", PStr token);
           ("user", User.to_dict user)
         ]) 200).
Proof.
  intros Hdata He Hp Hfound Hpw Hclock Hmax.
  eexists. split.
  - apply generate_token_payload; [ unfold DEFAULT_EXPIRES_IN; lia | | ];
      assumption.
  - unfold login.
    rewrite (read_credentials_truthy _ Hdata He), Hdata. simpl.
    rewrite (truthy_nonempty He), (truthy_nonempty Hp). simpl.
    rewrite Hfound. simpl. rewrite Hpw. simpl.
    rewrite generate_token_payload
      by (unfold DEFAULT_EXPIRES_IN; lia || assumption).
    reflexivity.
Qed.

(** Whatever the [is_verified] flags of the table are set to, login answers
    with the same status and the same token. *)
Lemma first_by_email_map (g : User.t -> User.t) (e : string) (s : Store) :
  (forall u, User.email (g u) = User.email u) ->
  Db.first (Db.has_email e) (map g s)
  = option_map g (Db.first (Db.has_email e) s).
Proof.
  intros Hg. unfold Db.first, Db.has_email.
  induction s as [ | u s IH]; simpl; [ reflexivity | ].
  rewrite Hg. destruct (String.eqb (User.email u) e); [ reflexivity | exact IH ].
Qed.

Lemma login_blind_to_verification (cfg : Config) (w : World) (s : Store)
    (data : pyval) (flag : User.t -> bool) :
  let s' := map (fun u => with_verified (flag u) u) s in
  status_of (login cfg w s' data) = status_of (login cfg w s data)
  /\ token_of (login cfg w s' data) = token_of (login cfg w s data).
Proof.
  intros s'. subst s'. unfold login.
  destruct (negb (Py.truthy data)); [ split; reflexivity | ].
  destruct (read_credentials data) as [[email password] | e];
    cbn [bind]; [ | split; reflexivity ].
  destruct (negb (Str.truthy email) || negb (Py.truthy password));
    [ split; reflexivity | ].
  rewrite first_by_email_map by reflexivity.
  destruct (Db.first (Db.has_email email) s) as [user | ];
    cbn [option_map]; [ | split; reflexivity ].
  cbn [with_verified User.password_hash User.id].
  destruct (check_password (User.password_hash user) password) as [ok | e];
    cbn [bind]; [ | split; reflexivity ].
  destruct ok; cbn [negb]; [ | split; reflexivity ].
  destruct (generate_token cfg (clock1 w) (clock2 w) (nonce w)
              (User.id user) DEFAULT_EXPIRES_IN) as [token | e];
    cbn [bind]; split; reflexivity.
Qed.

(** On a password that is not a string [check_password_hash] raises, and
    it is only called when a row was found: the request is answered 401
    for an unknown email and raises for a known one. *)
Remark login_nonstring_password (cfg : Config) (w : World) (s : Store)
    (email : string) (n : Z) (user : User.t) :
  email <> "" -> n <> 0 ->
  let data := PDict [("email", PStr email); ("password", PInt n)] in
  Str.lower (Str.strip email) = email ->
  (Db.first (Db.has_email email) s = None ->
   login cfg w s data = Returned INVALID_CREDENTIALS)
  /\ (Db.first (Db.has_email email) s = Some user ->
      login cfg w s data = Raised AttributeError).
Proof.
  intros He Hn data Hnorm. unfold login, data, read_credentials.
  cbn [Py.truthy negb Py.get Py.lookup String.eqb Ascii.eqb Bool.eqb bind
       strip_lower].
  rewrite Hnorm. cbn [bind]. rewrite (truthy_nonempty He).
  replace (n =? 0) with false by (symmetry; apply Z.eqb_neq, Hn).
  cbn [negb orb]. split; intros ->; reflexivity.
Qed.

End Login.

(** ** Email verification *)

Lemma find_all_false {A} (f : A -> bool) (l : list A) :
  (forall x, In x l -> f x = false) -> find f l = None.
Proof.
  induction l as [ | a l IH]; intros H; simpl; [ reflexivity | ].
  rewrite (H a (or_introl eq_refl)). apply IH.
  intros x Hx. apply H. right. exact Hx.
Qed.

Section Verification.

Context {L : Libs}.

Lemma signup_store (w : World) (s : Store) (data : pyval) :
  fst (signup w s data) = s
  \/ exists row, fst (signup w s data) = s ++ [row]
       /\ User.is_verified row = false.
Proof.
  unfold signup.
  destruct (signup_validate s data) as [[r | email password] | e];
    simpl; auto.
  unfold signup_create.
  destruct (hash_password password (salt w)) as [pwhash | e]; simpl; auto.
  unfold Db.commit_add.
  destruct (negb (healthy w)); simpl; auto.
  destruct (existsb _ s); simpl; auto.
  right. eexists. split; reflexivity.
Qed.

Lemma verify_email_store (w : World) (s : Store) (token : string) :
  fst (verify_email w s token) = s
  \/ exists id row,
       fst (verify_email w s token)
       = map (fun r => if User.id r =? id then row else r) s
       /\ User.verification_token row = None.
Proof.
  unfold verify_email.
  destruct (Db.first (Db.has_token token) s) as [user | ]; simpl; auto.
  destruct (User.is_verified user); simpl; auto.
  unfold Db.commit_update. destruct (negb (healthy w)); simpl; auto.
  right. eexists. eexists. split; reflexivity.
Qed.

Lemma reachable_token_cleared (s : Store) : reachable s -> token_cleared s.
Proof.
  induction 1 as [ | s s' _ IH Hstep].
  - intros u [].
  - destruct Hstep as [w s data | w s token].
    + destruct (signup_store w s data) as [-> | (row & -> & Hrow)];
        [ assumption | ].
      intros u Hu Hv. apply in_app_or in Hu as [Hu | [<- | []]].
      * apply IH; assumption.
      * congruence.
    + destruct (verify_email_store w s token)
        as [-> | (i & row & -> & Hrow)]; [ assumption | ].
      intros u Hu Hv. apply in_map_iff in Hu as (r & Hr & Hin).
      destruct (User.id r =? i); subst u; [ assumption | ].
      apply IH; assumption.
Qed.

(** In a store the routes can produce, the row a verification token finds
    is never a verified one: the "already verified" answer of
    [verify_email] is out of reach. *)
Theorem token_finds_unverified (s : Store) (token : string) (user : User.t) :
  reachable s ->
  Db.first (Db.has_token token) s = Some user ->
  User.is_verified user = false.
Proof.
  intros Hs Hfound. apply find_some in Hfound as [Hin Htok].
  destruct (User.is_verified user) eqn:Ev; [ | reflexivity ].
  unfold Db.has_token in Htok.
  rewrite (reachable_token_cleared Hs user Hin Ev) in Htok. discriminate.
Qed.

(** After the account of a token has been verified, the same token finds
    no row: the second call is answered 400 "Invalid verification token". *)
Theorem verify_email_twice (w w' : World) (s : Store) (token : string)
    (user : User.t) :
  Db.first (Db.has_token token) s = Some user ->
  (forall r, In r s -> Db.has_token token r = true -> r = user) ->
  User.is_verified user = false ->
  healthy w = true ->
  let s' := fst (verify_email w s token) in
  (exists row, snd (verify_email w s token)
     = Returned (Response (PDict [
         ("message", PStr "Email verified successfully");
         ("user", User.to_dict row)]) 200)
     /\ User.is_verified row = true)
  /\ verify_email w' s' token
     = (s', Returned (error_response "Invalid verification token" 400)).
Proof.
  intros Hfound Honly Hunv Hw. unfold verify_email at 1 2.
  rewrite Hfound, Hunv. unfold Db.commit_update. rewrite Hw. simpl.
  split; [ eexists; split; reflexivity | ].
  unfold verify_email.
  match goal with
  | |- context [Db.first ?p ?s'] =>
      assert (Hnone : Db.first p s' = None)
  end.
  { unfold Db.first.
    apply find_all_false. intros r' Hr'.
    apply in_map_iff in Hr' as (r & <- & Hin).
    destruct (User.id r =? User.id user) eqn:Eid; [ reflexivity | ].
    destruct (Db.has_token token r) eqn:Et; [ | reflexivity ].
    rewrite (Honly r Hin Et) in Eid. rewrite Z.eqb_refl in Eid.
    discriminate. }
  rewrite Hnone. reflexivity.
Qed.

(** The scenario of the specification, run on the code: sign up, verify,
    verify again with the same token. *)
Theorem verify_email_twice_scenario (w : World) (pwhash : string) :
  healthy w = true ->
  generate_password_hash "abcdefgh" (salt w) = Returned pwhash ->
  let s1 := fst (signup w [] alice) in
  let s2 := fst (verify_email w s1 (token_urlsafe w)) in
  (exists r1, snd (signup w [] alice) = Returned r1 /\ status r1 = 201)
  /\ (exists r2, snd (verify_email w s1 (token_urlsafe w)) = Returned r2
        /\ status r2 = 200)
  /\ verify_email w s2 (token_urlsafe w)
     = (s2, Returned (error_response "Invalid verification token" 400)).
Proof.
  intros Hw Hhash s1 s2.
  assert (Hsignup : exists row,
    signup w [] alice = ([row], Returned (Response (PDict [
       ("message", PStr "User created successfully");
       ("user", User.to_dict row);
       ("verification_token", PStr (token_urlsafe w));
       ("note", PStr
         "In production, verification token would be sent via email")
     ]) 201))
    /\ User.verification_token row = Some (token_urlsafe w)
    /\ User.is_verified row = false).
  { unfold signup, signup_create.
    change (signup_validate [] alice)
      with (Returned (Proceed "a@b.com" (PStr "abcdefgh"))).
    cbn [hash_password]. rewrite Hhash.
    unfold Db.commit_add. rewrite Hw. simpl.
    eexists. split; [ reflexivity | split; reflexivity ]. }
  destruct Hsignup as (row & Hsignup & Htok & Hunv).
  subst s2 s1. rewrite Hsignup. simpl fst. simpl snd.
  split; [ eexists; split; reflexivity | ].
  assert (Hfound : Db.first (Db.has_token (token_urlsafe w)) [row] = Some row).
  { unfold Db.first, Db.has_token. simpl. rewrite Htok, String.eqb_refl.
    reflexivity. }
  assert (Honly : forall r, In r [row] ->
            Db.has_token (token_urlsafe w) r = true -> r = row).
  { intros r [<- | []] _. reflexivity. }
  destruct (@verify_email_twice w w [row] (token_urlsafe w) row
              Hfound Honly Hunv Hw)
    as [(row' & -> & _) Hsecond].
  split; [ eexists; split; reflexivity | exact Hsecond ].
Qed.

End Verification.

(** ** Concurrent signups *)

Section ConcurrentSignup.

Context {L : Libs}.

Lemma count_middle {A} (f : A -> bool) (before after : list A) (x : A) :
  count f (before ++ x :: after)
  = (count f before + (if f x then 1 else 0) + count f after)%nat.
Proof.
  unfold count. rewrite filter_app, length_app. simpl.
  destruct (f x); simpl; lia.
Qed.

Lemma count_none {A} (f : A -> bool) (l : list A) :
  existsb f l = false -> count f l = 0%nat.
Proof.
  unfold count. induction l as [ | a l IH]; simpl; [ reflexivity | ].
  intros H. apply orb_false_iff in H as [Ha Hl]. rewrite Ha. apply IH, Hl.
Qed.

(** A request refused before the commit is not answered 201. *)
Lemma signup_validate_reject (s : Store) (data : pyval) (r : response) :
  signup_validate s data = Returned (Reject r) -> (status r =? 201) = false.
Proof.
  unfold signup_validate.
  destruct (negb (Py.truthy data)); [ intros [= <-]; reflexivity | ].
  destruct (read_credentials data) as [[email password] | e];
    simpl; [ | discriminate ].
  destruct (negb (Str.truthy email) || negb (is_valid_email email));
    [ intros [= <-]; reflexivity | ].
  destruct (if negb (Py.truthy password) then Returned true
            else bind (len password) (fun n => Returned (n <? 8)))
    as [[ | ] | e]; simpl; [ intros [= <-]; reflexivity | | discriminate ].
  destruct (Db.first (Db.has_email email) s);
    [ intros [= <-]; reflexivity | discriminate ].
Qed.

(** The email a request proceeds with is its normalised email, and the
    lookup found no row holding it. *)
Lemma signup_validate_proceed (s : Store) (data : pyval) (email : string)
    (password : pyval) :
  signup_validate s data = Returned (Proceed email password) ->
  signup_email data = Some email
  /\ Db.first (Db.has_email email) s = None.
Proof.
  unfold signup_validate, signup_email.
  destruct (negb (Py.truthy data)); [ discriminate | ].
  destruct (read_credentials data) as [[email' password'] | e];
    simpl; [ | discriminate ].
  destruct (negb (Str.truthy email') || negb (is_valid_email email'));
    [ discriminate | ].
  destruct (if negb (Py.truthy password') then Returned true
            else bind (len password') (fun n => Returned (n <? 8)))
    as [[ | ] | e]; simpl; try discriminate.
  destruct (Db.first (Db.has_email email') s) eqn:E; [ discriminate | ].
  intros [= <- <-]. auto.
Qed.

(** The commit either leaves the table alone and answers other than 201,
    or appends one row for an email no row held, and answers 201. *)
Lemma signup_create_cases (w : World) (s : Store) (email : string)
    (password : pyval) :
  (fst (signup_create w s email password) = s
   /\ match snd (signup_create w s email password) with
      | Returned resp => (status resp =? 201) = false
      | Raised _ => True
      end)
  \/ (existsb (Db.has_email email) s = false
      /\ exists row resp,
           signup_create w s email password = (s ++ [row], Returned resp)
           /\ User.email row = email /\ status resp = 201).
Proof.
  unfold signup_create.
  destruct (hash_password password (salt w)) as [pwhash | e];
    simpl; [ | auto ].
  unfold Db.commit_add. simpl.
  destruct (negb (healthy w)); simpl; [ auto | ].
  destruct (existsb (Db.has_email email) s) eqn:E; simpl; [ auto | ].
  right. split; [ reflexivity | ].
  eexists. eexists. split; [ reflexivity | split; reflexivity ].
Qed.

Lemma created_for_not_finished (e : string) (r : request) :
  (forall out, req_phase r <> Finished out) -> created_for e r = false.
Proof.
  intros H. unfold created_for, created.
  destruct (req_phase r) as [ | | out]; try reflexivity.
  destruct (H out eq_refl).
Qed.

Lemma in_middle {A} (before after : list A) (x y z : A) :
  In z (before ++ y :: after) -> z = y \/ In z (before ++ x :: after).
Proof.
  rewrite !in_app_iff. simpl. intuition auto.
Qed.

Lemma created_for_at (e : string) (w : World) (data : pyval) (p : phase) :
  created_for e (MkRequest w data p)
  = match p with
    | Finished (Returned resp) =>
        (status resp =? 201) && option_string_eqb (signup_email data) e
    | _ => false
    end.
Proof. destruct p as [ | | [resp | ex]]; reflexivity. Qed.

Lemma step_invariant (c c' : Store * list request) :
  signup_invariant c -> step c c' -> signup_invariant c'.
Proof.
  intros (Huniq & Hcount & Hval) Hstep.
  destruct Hstep as [s s' before after r r' Hadv].
  unfold signup_invariant in *. simpl in *.
  unfold advance in Hadv.
  destruct (req_phase r) as [ | email password | out] eqn:Ephase.
  - (* the lookup *)
    assert (Hr : forall e, created_for e r = false).
    { intros e. apply created_for_not_finished. congruence. }
    destruct (signup_validate s (req_data r)) as [[resp | email password] | e]
      eqn:Eval; injection Hadv as <- <-.
    + split; [ assumption | ]. split.
      * intros e. specialize (Hcount e). rewrite count_middle in *.
        rewrite Hr in Hcount. rewrite created_for_at.
        rewrite (signup_validate_reject _ _ Eval). simpl. lia.
      * intros z em pw Hz. apply in_middle with (x := r) in Hz as [-> | Hz];
          [ discriminate | eauto ].
    + split; [ assumption | ]. split.
      * intros e. specialize (Hcount e). rewrite count_middle in *.
        rewrite Hr in Hcount. rewrite created_for_at. lia.
      * intros z em pw Hz. apply in_middle with (x := r) in Hz as [-> | Hz];
          [ | eauto ].
        simpl. intros [= <- <-].
        apply (signup_validate_proceed _ _ Eval).
    + split; [ assumption | ]. split.
      * intros e'. specialize (Hcount e'). rewrite count_middle in *.
        rewrite Hr in Hcount. rewrite created_for_at. lia.
      * intros z em pw Hz. apply in_middle with (x := r) in Hz as [-> | Hz];
          [ discriminate | eauto ].
  - (* the commit *)
    assert (Hr : forall e, created_for e r = false).
    { intros e. apply created_for_not_finished. congruence. }
    assert (Hemail : signup_email (req_data r) = Some email).
    { apply (Hval r email password); [ | assumption ].
      apply in_app_iff. right. left. reflexivity. }
    destruct (signup_create_cases (req_world r) s email password)
      as [[Hs Hout] | (Hnew & row & resp & Hcreate & Hrow & Hresp)].
    + destruct (signup_create (req_world r) s email password) as [s1 out].
      simpl in *. subst s1. injection Hadv as <- <-.
      split; [ assumption | ]. split.
      * intros e. specialize (Hcount e). rewrite count_middle in *.
        rewrite Hr in Hcount. rewrite created_for_at.
        destruct out as [resp | ex]; [ rewrite Hout; simpl | ]; lia.
      * intros z em pw Hz. apply in_middle with (x := r) in Hz as [-> | Hz];
          [ discriminate | eauto ].
    + rewrite Hcreate in Hadv. injection Hadv as <- <-.
      assert (Hzero : count (Db.has_email email) s = 0%nat)
        by (apply count_none, Hnew).
      assert (Hgrow : forall e,
        count (Db.has_email e) (s ++ [row])
        = (count (Db.has_email e) s + (if String.eqb email e then 1 else 0))%nat).
      { intros e. rewrite count_middle. unfold Db.has_email at 2.
        rewrite Hrow. unfold count. simpl. lia. }
      split; [ | split ].
      * intros e. fold (count (Db.has_email e) (s ++ [row])).
        rewrite Hgrow. specialize (Huniq e).
        fold (count (Db.has_email e) s) in Huniq.
        destruct (String.eqb_spec email e) as [<- | ]; lia.
      * intros e. specialize (Hcount e). rewrite count_middle in *.
        rewrite Hr in Hcount. rewrite Hgrow, created_for_at.
        rewrite Hresp, Hemail. simpl.
        destruct (String.eqb_spec email e) as [<- | ]; simpl; lia.
      * intros z em pw Hz. apply in_middle with (x := r) in Hz as [-> | Hz];
          [ discriminate | eauto ].
  - (* answered already *)
    injection Hadv as <- <-. destruct r as [rw rd rp]. simpl in *.
    subst rp. auto.
Qed.

Lemma steps_invariant (c c' : Store * list request) :
  signup_invariant c -> steps c c' -> signup_invariant c'.
Proof.
  intros Hc Hsteps. induction Hsteps as [ | c1 c2 c3 _ IH Hstep];
    [ assumption | ].
  eapply step_invariant; [ apply IH, Hc | exact Hstep ].
Qed.

Lemma initial_invariant (s : Store) (reqs : list (World * pyval)) :
  unique_emails s -> signup_invariant (s, map incoming reqs).
Proof.
  intros Huniq. split; [ assumption | ]. simpl. split.
  - intros e. replace (count (created_for e) (map incoming reqs)) with 0%nat;
      [ lia | ].
    induction reqs as [ | wd reqs IH]; [ reflexivity | ].
    simpl. unfold count in *. simpl. exact IH.
  - intros r email password Hr Hphase.
    apply in_map_iff in Hr as (wd & <- & _). discriminate.
Qed.

(** Served after the row exists, a signup for its email is refused by the
    lookup, before any write. *)
Lemma signup_existing_email (w : World) (s : Store) (data : pyval)
    (email : string) (password : pyval) (user : User.t) :
  signup_validate [] data = Returned (Proceed email password) ->
  Db.first (Db.has_email email) s = Some user ->
  signup w s data
  = (s, Returned (error_response "Email already registered" 409)).
Proof.
  unfold signup, signup_validate.
  destruct (negb (Py.truthy data)); [ discriminate | ].
  destruct (read_credentials data) as [[email' password'] | e];
    cbn [bind]; [ | discriminate ].
  destruct (negb (Str.truthy email') || negb (is_valid_email email'));
    [ discriminate | ].
  destruct (if negb (Py.truthy password') then Returned true
            else bind (len password') (fun n => Returned (n <? 8)))
    as [[ | ] | e]; cbn [bind]; try discriminate.
  cbn [Db.first find]. intros [= -> ->] ->. reflexivity.
Qed.

(** The lookup of [signup] answers 409 for an email the table holds. *)
Lemma signup_validate_existing (s : Store) (data : pyval) (email : string)
    (password : pyval) (user : User.t) :
  signup_validate [] data = Returned (Proceed email password) ->
  Db.first (Db.has_email email) s = Some user ->
  signup_validate s data
  = Returned (Reject (error_response "Email already registered" 409)).
Proof.
  unfold signup_validate.
  destruct (negb (Py.truthy data)); [ discriminate | ].
  destruct (read_credentials data) as [[email' password'] | e];
    cbn [bind]; [ | discriminate ].
  destruct (negb (Str.truthy email') || negb (is_valid_email email'));
    [ discriminate | ].
  destruct (if negb (Py.truthy password') then Returned true
            else bind (len password') (fun n => Returned (n <? 8)))
    as [[ | ] | e]; cbn [bind]; try discriminate.
  cbn [Db.first find]. intros [= -> ->] ->. reflexivity.
Qed.

(** The commit of [signup] refuses an email the table holds. *)
Lemma signup_create_existing (w : World) (s : Store) (email : string)
    (password : pyval) :
  existsb (Db.has_email email) s = true ->
  fst (signup_create w s email password) = s
  /\ status_of (snd (signup_create w s email password)) <> Some 201.
Proof.
  intros Hex.
  destruct (signup_create_cases w s email password)
    as [[Hs Hst] | [Hno _]]; [ | congruence ].
  split; [ exact Hs | ].
  destruct (snd (signup_create w s email password)) as [resp | e];
    [ | discriminate ].
  simpl. intros [= H]. rewrite H in Hst. discriminate.
Qed.

(** C7, as the code has it.  However the store accesses of any number of
    signups interleave, at most one of those for an email is answered
    201 and the table never holds an email twice, given a table that
    satisfies its UNIQUE constraint.  The row is written after a lookup:
    a signup whose lookup finds the email is answered 409, and the commit
    refuses an email the table holds and writes nothing. *)
Theorem concurrent_signups_exclusive (s0 s : Store)
    (reqs : list (World * pyval)) (pool : list request) (e : string) :
  unique_emails s0 ->
  steps (s0, map incoming reqs) (s, pool) ->
  (count (created_for e) pool <= 1)%nat
  /\ unique_emails s
  /\ (forall data email password user,
        signup_validate [] data = Returned (Proceed email password) ->
        Db.first (Db.has_email email) s = Some user ->
        signup_validate s data
        = Returned (Reject (error_response "Email already registered" 409)))
  /\ (forall w email password,
        existsb (Db.has_email email) s = true ->
        fst (signup_create w s email password) = s
        /\ status_of (snd (signup_create w s email password)) <> Some 201).
Proof.
  intros Huniq Hsteps.
  destruct (steps_invariant (initial_invariant reqs Huniq) Hsteps)
    as (Hu & Hcount & _).
  simpl in *. split; [ | split; [ exact Hu | split ] ].
  - specialize (Hcount e). specialize (Hu e). unfold count in *. lia.
  - intros data email password user. apply signup_validate_existing.
  - intros w email password. apply signup_create_existing.
Qed.

End ConcurrentSignup.

(** ** The reference implementation obeys the laws *)

Section ReferenceLaws.

Import Ref.

Lemma strip_prefix_append (p s : string) :
  strip_prefix p (p ++ s) = Some s.
Proof.
  induction p as [ | c p IH]; simpl; [ reflexivity | ].
  rewrite Ascii.eqb_refl. exact IH.
Qed.

Lemma take_append (a b : string) : take (String.length a) (a ++ b) = a.
Proof. induction a as [ | c a IH]; simpl; [ destruct b | rewrite IH ]; reflexivity. Qed.

Lemma drop_append (a b : string) : drop (String.length a) (a ++ b) = b.
Proof. induction a as [ | c a IH]; simpl; [ destruct b; reflexivity | exact IH ]. Qed.

Lemma hexdigest_length (bs : bytes) :
  String.length (Sha256.hexdigest bs) = (2 * List.length bs)%nat.
Proof. induction bs as [ | b bs IH]; simpl; [ reflexivity | rewrite IH; lia ]. Qed.

Lemma unhex_byte (b : byte) :
  hex_value (Sha256.hex_digit (Z.shiftr (Sha256.byteZ b) 4))
  = Some (Z.shiftr (Sha256.byteZ b) 4)
  /\ hex_value (Sha256.hex_digit (Z.land (Sha256.byteZ b) 15))
     = Some (Z.land (Sha256.byteZ b) 15)
  /\ Sha256.Zbyte (16 * Z.shiftr (Sha256.byteZ b) 4
                   + Z.land (Sha256.byteZ b) 15) = b.
Proof. destruct b; vm_compute; auto. Qed.

Lemma unhex_hexdigest (bs : bytes) : unhex (Sha256.hexdigest bs) = Some bs.
Proof.
  induction bs as [ | b bs IH]; [ reflexivity | ].
  destruct (unhex_byte b) as (Hhi & Hlo & Hb).
  cbn [Sha256.hexdigest unhex]. rewrite Hhi, Hlo, IH, Hb. reflexivity.
Qed.

Lemma tag_length (k : Key) (m : bytes) : String.length (tag k m) = 64%nat.
Proof. unfold tag. rewrite hexdigest_length, sha256_length. reflexivity. Qed.

Lemma unseal_seal (k : Key) (n m : bytes) : unseal k (seal k n m) = Returned m.
Proof.
  unfold unseal, seal. rewrite strip_prefix_append.
  assert (Hdrop : drop 64 (tag k m ++ Sha256.hexdigest m)
                  = Sha256.hexdigest m).
  { rewrite <- (tag_length k m) at 1. apply drop_append. }
  assert (Htake : take 64 (tag k m ++ Sha256.hexdigest m) = tag k m).
  { rewrite <- (tag_length k m) at 1. apply take_append. }
  rewrite Hdrop, Htake, unhex_hexdigest, String.eqb_refl.
  reflexivity.
Qed.

Lemma utf8_decode_char (c : ascii) (bs : bytes) :
  utf8_decode (Str.encode_char c ++ bs)
  = bind (utf8_decode bs) (fun s => Returned (String c s)).
Proof.
  destruct c as [[ | ] [ | ] [ | ] [ | ] [ | ] [ | ] [ | ] [ | ]]; reflexivity.
Qed.

Lemma utf8_decode_encode (s : string) :
  utf8_decode (Str.encode s) = Returned s.
Proof.
  induction s as [ | c s IH]; [ reflexivity | ].
  cbn [Str.encode]. rewrite utf8_decode_char, IH. reflexivity.
Qed.

Lemma read_string_escape (s rest : string) :
  read_string (escape s ++ String QUOTE rest) = Some (s, rest).
Proof.
  assert (Hbq : Ascii.eqb BACKSLASH QUOTE = false) by reflexivity.
  induction s as [ | c s IH]; cbn [escape String.append read_string].
  - rewrite Ascii.eqb_refl. reflexivity.
  - destruct (Ascii.eqb c QUOTE) eqn:Eq; cbn [orb].
    + cbn [String.append read_string].
      rewrite Hbq, Ascii.eqb_refl, IH. reflexivity.
    + destruct (Ascii.eqb c BACKSLASH) eqn:Eb;
        cbn [String.append read_string].
      * rewrite Hbq, Ascii.eqb_refl, IH. reflexivity.
      * rewrite Eq, Eb, IH. reflexivity.
Qed.

Lemma quote_append (s rest : string) :
  (quote s ++ rest)%string = String QUOTE (escape s ++ String QUOTE rest).
Proof. unfold quote. simpl. rewrite <- append_assoc. reflexivity. Qed.

Lemma loads_dumps_members (kvs : list (string * pyval)) :
  kvs <> [] -> str_valued kvs ->
  forall fuel, (List.length kvs <= fuel)%nat ->
  loads_members fuel (dumps_members kvs) = Some kvs.
Proof.
  induction kvs as [ | [k v] rest IH]; [ congruence | ].
  intros _ Hstr fuel Hfuel.
  destruct (Hstr k v (or_introl eq_refl)) as [x ->].
  assert (Hrest : str_valued rest).
  { intros k' v' Hin. apply (Hstr k' v'). right. exact Hin. }
  destruct fuel as [ | fuel]; [ simpl in Hfuel; lia | ].
  cbn [dumps_members dumps_value loads_members].
  rewrite quote_append. cbn [strip_prefix]. rewrite Ascii.eqb_refl.
  rewrite read_string_escape.
  cbn [String.append strip_prefix]. rewrite !Ascii.eqb_refl.
  rewrite quote_append. cbn [strip_prefix]. rewrite Ascii.eqb_refl.
  rewrite read_string_escape.
  destruct rest as [ | kv rest]; [ reflexivity | ].
  cbn [String.append String.eqb Ascii.eqb Bool.eqb strip_prefix].
  cbv iota. rewrite IH; [ reflexivity | discriminate | assumption | ].
  simpl in *. lia.
Qed.

Lemma string_length_append (a b : string) :
  String.length (a ++ b) = (String.length a + String.length b)%nat.
Proof. induction a as [ | c a IH]; simpl; [ | rewrite IH ]; reflexivity. Qed.

Lemma dumps_members_length (kvs : list (string * pyval)) :
  (List.length kvs <= String.length (dumps_members kvs))%nat.
Proof.
  induction kvs as [ | [k v] rest IH]; [ simpl; lia | ].
  cbn [dumps_members].
  destruct rest as [ | kv rest];
    repeat (rewrite string_length_append || cbn [String.length String.append]);
    simpl List.length in *; lia.
Qed.

Lemma loads_dumps (kvs : list (string * pyval)) :
  str_valued kvs -> loads (dumps (PDict kvs)) = Returned (PDict kvs).
Proof.
  intros Hstr. destruct kvs as [ | [k v] rest]; [ reflexivity | ].
  unfold loads, dumps.
  assert (Hne : String.eqb (String "{" (dumps_members ((k, v) :: rest))) "{}"
                = false).
  { cbn [dumps_members]. rewrite quote_append. reflexivity. }
  rewrite Hne. cbn [strip_prefix]. rewrite Ascii.eqb_refl.
  rewrite loads_dumps_members;
    [ reflexivity | discriminate | assumption | apply dumps_members_length ].
Qed.

End ReferenceLaws.

Section IsoLaws.

Import Iso.

Lemma digit_is_digit (d : Z) :
  0 <= d <= 9 -> Py.is_digit (digit d) = true /\ Py.digit_val (digit d) = d.
Proof.
  intros H.
  assert (C : d = 0 \/ d = 1 \/ d = 2 \/ d = 3 \/ d = 4 \/ d = 5 \/ d = 6
              \/ d = 7 \/ d = 8 \/ d = 9) by lia.
  repeat destruct C as [-> | C]; try subst d; split; reflexivity.
Qed.

Lemma digits_fmt (k : nat) (n acc : Z) (rest : string) :
  0 <= n ->
  digits k acc (fmt k n ++ rest)
  = Some (acc * 10 ^ Z.of_nat k + n mod 10 ^ Z.of_nat k, rest).
Proof.
  intros Hn. revert acc. induction k as [ | k IH]; intros acc.
  - cbn [digits fmt String.append]. rewrite Z.mod_1_r. f_equal. f_equal.
    simpl. lia.
  - cbn [digits fmt String.append].
    assert (Hd : 0 <= (n / 10 ^ Z.of_nat k) mod 10 <= 9).
    { pose proof (Z.mod_pos_bound (n / 10 ^ Z.of_nat k) 10). lia. }
    destruct (digit_is_digit Hd) as [-> ->].
    rewrite IH. f_equal. f_equal.
    rewrite Nat2Z.inj_succ, Z.pow_succ_r by lia.
    assert (Hp : 0 < 10 ^ Z.of_nat k) by (apply Z.pow_pos_nonneg; lia).
    rewrite (Z.mul_comm 10 (10 ^ Z.of_nat k)).
    rewrite Z.rem_mul_r by lia. ring.
Qed.

Lemma digits_fmt_small (k : nat) (n : Z) (rest : string) :
  0 <= n < 10 ^ Z.of_nat k ->
  digits k 0 (fmt k n ++ rest) = Some (n, rest).
Proof.
  intros H. rewrite digits_fmt by lia. rewrite Z.mod_small by lia.
  reflexivity.
Qed.

Lemma all_in_spec (k : nat) (lo : Z) (p : Z -> bool) :
  all_in k lo p = true ->
  forall n, lo <= n < lo + 2 ^ Z.of_nat k -> p n = true.
Proof.
  revert lo. induction k as [ | k IH]; intros lo H n Hn.
  - simpl in *. replace n with lo by lia. exact H.
  - cbn [all_in] in H. apply andb_true_iff in H as [H1 H2].
    rewrite Nat2Z.inj_succ, Z.pow_succ_r in Hn by lia.
    destruct (Z_lt_le_dec n (lo + 2 ^ Z.of_nat k)).
    + apply (IH lo H1). lia.
    + apply (IH _ H2). lia.
Qed.

Lemma cycle_checked : all_in 17 0 cycle_ok && all_in 14 131072 cycle_ok = true.
Proof. vm_compute. reflexivity. Qed.

Lemma cycle_ymd_ok (r : Z) : 0 <= r < DI400Y -> cycle_ok r = true.
Proof.
  intros H. pose proof cycle_checked as C.
  apply andb_true_iff in C as [C1 C2].
  destruct (Z_lt_le_dec r 131072).
  - apply (all_in_spec _ _ C1). simpl. lia.
  - apply (all_in_spec _ _ C2). unfold DI400Y in H. simpl. lia.
Qed.

End IsoLaws.

Section IsoRoundTrip.

Import Iso.

Lemma days_before_year_shift (q y : Z) :
  days_before_year (q * 400 + y) = q * DI400Y + days_before_year y.
Proof.
  unfold days_before_year, DI400Y. cbv zeta.
  replace (q * 400 + y - 1) with (y - 1 + q * 400) by lia.
  replace ((y - 1 + q * 400) / 4) with ((y - 1) / 4 + q * 100)
    by (rewrite <- Z.div_add by lia; f_equal; lia).
  replace ((y - 1 + q * 400) / 100) with ((y - 1) / 100 + q * 4)
    by (rewrite <- Z.div_add by lia; f_equal; lia).
  replace ((y - 1 + q * 400) / 400) with ((y - 1) / 400 + q)
    by (rewrite <- Z.div_add by lia; f_equal; lia).
  lia.
Qed.

Lemma is_leap_shift (q y : Z) : is_leap (q * 400 + y) = is_leap y.
Proof.
  unfold is_leap.
  replace ((q * 400 + y) mod 4) with (y mod 4)
    by (replace (q * 400 + y) with (y + (q * 100) * 4) by lia;
        rewrite Z.mod_add by lia; reflexivity).
  replace ((q * 400 + y) mod 100) with (y mod 100)
    by (replace (q * 400 + y) with (y + (q * 4) * 100) by lia;
        rewrite Z.mod_add by lia; reflexivity).
  replace ((q * 400 + y) mod 400) with (y mod 400)
    by (replace (q * 400 + y) with (y + q * 400) by lia;
        rewrite Z.mod_add by lia; reflexivity).
  reflexivity.
Qed.

Lemma ord2ymd_ok (n : Z) :
  1 <= n <= 3652059 ->
  exists y m d,
    ord2ymd n = (y, m, d)
    /\ 1 <= y <= 9999 /\ 1 <= m <= 12 /\ 1 <= d <= days_in_month y m
    /\ ymd2ord y m d = n.
Proof.
  intros Hn. unfold ord2ymd.
  pose proof (Z.div_mod (n - 1) DI400Y) as Hdm.
  pose proof (Z.mod_pos_bound (n - 1) DI400Y) as Hr.
  set (q := (n - 1) / DI400Y) in *. set (r := (n - 1) mod DI400Y) in *.
  unfold DI400Y in Hdm, Hr. specialize (Hdm ltac:(lia)). specialize (Hr ltac:(lia)).
  pose proof (@cycle_ymd_ok r) as Hok. unfold DI400Y in Hok.
  specialize (Hok ltac:(lia)). unfold cycle_ok in Hok.
  replace (DI400Y <=? r) with false in Hok
    by (symmetry; apply Z.leb_gt; unfold DI400Y; lia).
  cbn [orb] in Hok.
  destruct (cycle_ymd r) as [[y m] d].
  repeat (apply andb_true_iff in Hok as [Hok ?]).
  repeat match goal with
         | H : (_ <=? _) = true |- _ => apply Z.leb_le in H
         | H : (_ =? _) = true |- _ => apply Z.eqb_eq in H
         end.
  assert (Hy : q * 400 + y <= 9999).
  { destruct (Z_le_gt_dec q 23); [ lia | ].
    match goal with
    | H : (_ <? _) || (_ <=? _) = true |- _ =>
        apply orb_true_iff in H as [H | H];
        [ apply Z.ltb_lt in H | apply Z.leb_le in H ]
    end; lia. }
  exists (q * 400 + y), m, d.
  split; [ reflexivity | ]. split; [ lia | ]. split; [ lia | ].
  unfold days_in_month, ymd2ord, days_before_month in *.
  rewrite is_leap_shift, days_before_year_shift. unfold DI400Y. split; lia.
Qed.

Lemma expect_cons (c : ascii) (r : string) : expect c (String c r) = Some r.
Proof. unfold expect. rewrite Ascii.eqb_refl. reflexivity. Qed.

Lemma time_fields (t : Z) :
  0 <= t < DT.US_PER_DAY ->
  0 <= t / US_PER_HOUR < 24
  /\ 0 <= (t / US_PER_MINUTE) mod 60 < 60
  /\ 0 <= (t / DT.US_PER_SECOND) mod 60 < 60
  /\ 0 <= t mod DT.US_PER_SECOND < 1000000
  /\ t / US_PER_HOUR * US_PER_HOUR + (t / US_PER_MINUTE) mod 60 * US_PER_MINUTE
     + (t / DT.US_PER_SECOND) mod 60 * DT.US_PER_SECOND
     + t mod DT.US_PER_SECOND = t.
Proof.
  unfold US_PER_HOUR, US_PER_MINUTE, DT.US_PER_DAY, DT.US_PER_SECOND.
  intros Ht. Z.div_mod_to_equations. lia.
Qed.

Lemma parse_isoformat (w : Z) :
  0 <= w <= DT.MAX_WALL ->
  parse (isoformat (Datetime w (Some 0))) = Some (Datetime w (Some 0)).
Proof.
  intros Hw. unfold isoformat. cbn [wall utcoffset].
  assert (Hday : 0 <= w / DT.US_PER_DAY <= 3652058
                 /\ 0 <= w mod DT.US_PER_DAY < DT.US_PER_DAY
                 /\ w = DT.US_PER_DAY * (w / DT.US_PER_DAY) + w mod DT.US_PER_DAY).
  { unfold DT.MAX_WALL, DT.US_PER_DAY, DT.US_PER_SECOND in *.
    Z.div_mod_to_equations. lia. }
  destruct Hday as (Hn & Ht & Hwt).
  destruct (@ord2ymd_ok (w / DT.US_PER_DAY + 1) ltac:(lia))
    as (y & m & d & -> & Hy & Hm & Hd & Hord).
  destruct (time_fields Ht) as (Hh & Hmi & Hs & Hus & Hsum).
  set (t := w mod DT.US_PER_DAY) in *.
  assert (Hdim : days_in_month y m <= 31).
  { unfold days_in_month.
    assert (C : m = 1 \/ m = 2 \/ m = 3 \/ m = 4 \/ m = 5 \/ m = 6 \/ m = 7
                \/ m = 8 \/ m = 9 \/ m = 10 \/ m = 11 \/ m = 12) by lia.
    repeat destruct C as [-> | C]; try subst m;
      destruct (is_leap y); simpl; lia. }
  assert (Hoff : fmt_offset (Some 0) = "+00:00") by reflexivity.
  rewrite Hoff. unfold parse.
  rewrite digits_fmt_small by (change (10 ^ Z.of_nat 4) with 10000; lia).
  cbn [obind]. rewrite expect_cons. cbn [obind].
  rewrite digits_fmt_small by (change (10 ^ Z.of_nat 2) with 100; lia).
  cbn [obind]. rewrite expect_cons. cbn [obind].
  rewrite digits_fmt_small by (change (10 ^ Z.of_nat 2) with 100; lia).
  cbn [obind]. rewrite expect_cons. cbn [obind].
  rewrite digits_fmt_small by (change (10 ^ Z.of_nat 2) with 100; lia).
  cbn [obind]. rewrite expect_cons. cbn [obind].
  rewrite digits_fmt_small by (change (10 ^ Z.of_nat 2) with 100; lia).
  cbn [obind]. rewrite expect_cons. cbn [obind].
  rewrite digits_fmt_small by (change (10 ^ Z.of_nat 2) with 100; lia).
  cbn [obind].
  assert (Hfrac : parse_fraction
                    (fmt_fraction (t mod DT.US_PER_SECOND) ++ "+00:00")
                  = Some (t mod DT.US_PER_SECOND, "+00:00")).
  { unfold fmt_fraction.
    destruct (Z.eqb_spec (t mod DT.US_PER_SECOND) 0) as [-> | Hnz].
    - reflexivity.
    - cbn [String.append parse_fraction].
      apply digits_fmt_small. change (10 ^ Z.of_nat 6) with 1000000. lia. }
  rewrite Hfrac. cbn [obind].
  change (parse_offset "+00:00") with (Some (Some 0)). cbn [obind].
  replace ((1 <=? y) && (1 <=? m) && (m <=? 12) && (1 <=? d)
           && (d <=? days_in_month y m) && (t / US_PER_HOUR <? 24)
           && ((t / US_PER_MINUTE) mod 60 <? 60)
           && ((t / DT.US_PER_SECOND) mod 60 <? 60)) with true.
  - f_equal. f_equal. rewrite Hord.
    transitivity (DT.US_PER_DAY * (w / DT.US_PER_DAY) + t); lia.
  - symmetry. repeat (apply andb_true_iff; split);
      try apply Z.leb_le; try apply Z.ltb_lt; lia.
Qed.

Lemma fromisoformat_isoformat (w : Z) :
  0 <= w <= DT.MAX_WALL ->
  fromisoformat (isoformat (Datetime w (Some 0)))
  = Returned (Datetime w (Some 0)).
Proof.
  intros Hw. unfold fromisoformat. rewrite parse_isoformat by assumption.
  reflexivity.
Qed.

End IsoRoundTrip.

#[export] Instance reference_laws : LibsLaws reference_libs.
Proof.
  split.
  - intros k n m _. apply unseal_seal.
  - apply utf8_decode_encode.
  - intros kvs Hstr _. apply loads_dumps, Hstr.
  - apply fromisoformat_isoformat.
Qed.

(** ** Schedules are runs *)

Section ScheduleRuns.

Context {L : Libs}.

Lemma split_at {A} (l : list A) (i : nat) (x : A) :
  nth_error l i = Some x -> l = firstn i l ++ x :: skipn (S i) l.
Proof.
  revert i. induction l as [ | a l IH]; intros [ | i] H; simpl in *;
    try discriminate.
  - injection H as ->. reflexivity.
  - f_equal. apply IH, H.
Qed.

Lemma advance_at_steps (i : nat) (c : Store * list request) :
  steps c (advance_at i c).
Proof.
  unfold advance_at. destruct c as [s pool]. simpl.
  destruct (nth_error pool i) as [r | ] eqn:E; [ | apply steps_refl ].
  destruct (advance s r) as [s' r'] eqn:Ea.
  eapply steps_then; [ apply steps_refl | ].
  rewrite (split_at _ _ E) at 1. apply step_at, Ea.
Qed.

Lemma steps_trans (c1 c2 c3 : Store * list request) :
  steps c1 c2 -> steps c2 c3 -> steps c1 c3.
Proof.
  intros H12 H23. induction H23 as [ | c2 c3 c4 _ IH H34];
    [ assumption | ].
  eapply steps_then; [ apply IH, H12 | exact H34 ].
Qed.

Lemma run_steps (schedule : list nat) (c : Store * list request) :
  steps c (run schedule c).
Proof.
  revert c. induction schedule as [ | i rest IH]; intros c; simpl.
  - apply steps_refl.
  - eapply steps_trans; [ apply advance_at_steps | apply IH ].
Qed.

(** A signup served alone is its two store accesses in a row. *)
Lemma signup_in_two_steps (w : World) (s : Store) (data : pyval) :
  run [0; 0]%nat (s, [incoming (w, data)])
  = (fst (signup w s data),
     [MkRequest w data (Finished (snd (signup w s data)))]).
Proof.
  unfold run, advance_at, advance, signup. simpl.
  destruct (signup_validate s data) as [[r | email password] | e]; simpl;
    try reflexivity.
  destruct (signup_create w s email password) as [s' out]. reflexivity.
Qed.

End ScheduleRuns.

(** ** Regular expressions: the matcher and the strings matched *)

Section Regex.

Import Lang.

Lemma append_empty (a b : string) :
  (a ++ b)%string = EmptyString -> a = EmptyString /\ b = EmptyString.
Proof. destruct a; simpl; [ auto | discriminate ]. Qed.

Lemma matches_cat_inv (r1 r2 : Re.regex) (s : string) :
  matches (Re.Cat r1 r2) s ->
  exists s1 s2, s = (s1 ++ s2)%string /\ matches r1 s1 /\ matches r2 s2.
Proof. intros H. inversion H; subst. eauto. Qed.

Lemma matches_alt_inv (r1 r2 : Re.regex) (s : string) :
  matches (Re.Alt r1 r2) s -> matches r1 s \/ matches r2 s.
Proof. intros H. inversion H; subst; auto. Qed.

Lemma matches_cls_inv (p : ascii -> bool) (s : string) :
  matches (Re.Cls p) s -> exists c, s = String c EmptyString /\ p c = true.
Proof. intros H. inversion H; subst. eauto. Qed.

Lemma matches_eps_inv (s : string) : matches Re.Eps s -> s = EmptyString.
Proof. intros H. inversion H. reflexivity. Qed.

Lemma matches_void_inv (s : string) : ~ matches Re.Void s.
Proof. intros H. inversion H. Qed.

(** A non-empty match of a star starts with a non-empty match of its
    body. *)
Lemma matches_star_cons (r : Re.regex) (c : ascii) (s : string) :
  matches (Re.Star r) (String c s) ->
  exists s1 s2, s = (s1 ++ s2)%string
    /\ matches r (String c s1) /\ matches (Re.Star r) s2.
Proof.
  intros H. remember (Re.Star r) as r' eqn:Er.
  remember (String c s) as t eqn:Et.
  induction H as [ | | | | | r0 | r0 s1 s2 H1 _ H2 IH2]; try discriminate.
  injection Er as ->.
  destruct s1 as [ | d s1]; simpl in Et.
  - apply IH2; [ reflexivity | exact Et ].
  - injection Et as -> <-. eauto.
Qed.

Lemma nullable_matches (r : Re.regex) :
  Re.nullable r = true <-> matches r EmptyString.
Proof.
  induction r as [ | | p | r1 IH1 r2 IH2 | r1 IH1 r2 IH2 | r IH]; simpl.
  - split; [ discriminate | intros H; destruct (matches_void_inv H) ].
  - split; [ intros _; constructor | reflexivity ].
  - split; [ discriminate | ].
    intros H. apply matches_cls_inv in H as (c & H & _). discriminate.
  - rewrite andb_true_iff, IH1, IH2. split.
    + intros [H1 H2]. apply (m_cat H1 H2).
    + intros H. apply matches_cat_inv in H as (s1 & s2 & E & H1 & H2).
      symmetry in E. apply append_empty in E as [-> ->]. auto.
  - rewrite orb_true_iff, IH1, IH2. split.
    + intros [H | H]; [ apply m_alt_l | apply m_alt_r ]; exact H.
    + apply matches_alt_inv.
  - split; [ intros _; constructor | reflexivity ].
Qed.

Lemma deriv_matches (r : Re.regex) (c : ascii) (s : string) :
  matches (Re.deriv c r) s <-> matches r (String c s).
Proof.
  revert s.
  induction r as [ | | p | r1 IH1 r2 IH2 | r1 IH1 r2 IH2 | r IH];
    intros s; simpl.
  - split; intros H; destruct (matches_void_inv H).
  - split; intros H; [ destruct (matches_void_inv H) | ].
    apply matches_eps_inv in H. discriminate.
  - destruct (p c) eqn:Ep; split; intros H.
    + apply matches_eps_inv in H as ->. constructor. exact Ep.
    + apply matches_cls_inv in H as (d & [= -> ->] & _). constructor.
    + destruct (matches_void_inv H).
    + apply matches_cls_inv in H as (d & [= -> ->] & Hd). congruence.
  - assert (Hcat : matches (Re.Cat (Re.deriv c r1) r2) s
                   \/ (matches r1 EmptyString /\ matches (Re.deriv c r2) s)
                   <-> matches (Re.Cat r1 r2) (String c s)).
    { split.
      - intros [H | [H1 H2]].
        + apply matches_cat_inv in H as (s1 & s2 & -> & H1 & H2).
          apply IH1 in H1. apply (m_cat H1 H2).
        + apply IH2 in H2. apply (m_cat H1 H2).
      - intros H. apply matches_cat_inv in H as (s1 & s2 & E & H1 & H2).
        destruct s1 as [ | d s1]; simpl in E.
        + subst s2. right. split; [ exact H1 | apply IH2, H2 ].
        + injection E as <- ->. left.
          apply m_cat; [ apply IH1, H1 | exact H2 ]. }
    destruct (Re.nullable r1) eqn:En.
    + rewrite <- Hcat. split.
      * intros H. apply matches_alt_inv in H as [H | H]; [ auto | ].
        right. split; [ apply nullable_matches, En | exact H ].
      * intros [H | [_ H]]; [ apply m_alt_l | apply m_alt_r ]; exact H.
    + rewrite <- Hcat. split; [ auto | ].
      intros [H | [H _]]; [ exact H | ].
      apply nullable_matches in H. congruence.
  - split; intros H.
    + apply matches_alt_inv in H as [H | H];
        [ apply m_alt_l, IH1 | apply m_alt_r, IH2 ]; exact H.
    + apply matches_alt_inv in H as [H | H];
        [ apply m_alt_l, IH1 | apply m_alt_r, IH2 ]; exact H.
  - split; intros H.
    + apply matches_cat_inv in H as (s1 & s2 & -> & H1 & H2).
      apply IH in H1. apply (m_star_more H1 H2).
    + apply matches_star_cons in H as (s1 & s2 & -> & H1 & H2).
      apply m_cat; [ apply IH, H1 | exact H2 ].
Qed.

Lemma fullmatch_matches (r : Re.regex) (s : string) :
  Re.fullmatch r s = true <-> matches r s.
Proof.
  revert r. induction s as [ | c s IH]; intros r; simpl.
  - apply nullable_matches.
  - rewrite IH. apply deriv_matches.
Qed.

Lemma matches_star_cls (p : ascii -> bool) (s : string) :
  matches (Re.Star (Re.Cls p)) s <-> all_chars p s = true.
Proof.
  split.
  - revert s. induction s as [ | c s IH]; intros H; [ reflexivity | ].
    apply matches_star_cons in H as (s1 & s2 & -> & H1 & H2).
    apply matches_cls_inv in H1 as (d & [= -> ->] & Hd). simpl in *.
    rewrite Hd. apply IH, H2.
  - induction s as [ | c s IH]; simpl; intros H; [ constructor | ].
    apply andb_true_iff in H as [Hc Hs].
    apply (m_star_more (s1 := String c EmptyString));
      [ constructor; exact Hc | apply IH, Hs ].
Qed.

Lemma matches_plus_cls (p : ascii -> bool) (s : string) :
  matches (Re.plus (Re.Cls p)) s
  <-> s <> EmptyString /\ all_chars p s = true.
Proof.
  unfold Re.plus. split.
  - intros H. apply matches_cat_inv in H as (s1 & s2 & -> & H1 & H2).
    apply matches_cls_inv in H1 as (c & -> & Hc).
    apply matches_star_cls in H2. simpl. rewrite Hc, H2.
    split; [ discriminate | reflexivity ].
  - intros [Hne H]. destruct s as [ | c s]; [ congruence | ].
    simpl in H. apply andb_true_iff in H as [Hc Hs].
    apply (m_cat (s1 := String c EmptyString));
      [ constructor; exact Hc | apply matches_star_cls, Hs ].
Qed.

Lemma chr_is_eq (z : Z) (c : ascii) :
  Re.chr_is z c = true -> c = Str.chr z.
Proof.
  unfold Re.chr_is, Str.code, Str.chr. intros H. apply Z.eqb_eq in H.
  subst z. rewrite N2Z.id. symmetry. apply ascii_N_embedding.
Qed.

Lemma matches_pattern (s : string) :
  matches pattern s <-> email_shape s.
Proof.
  unfold pattern, email_shape. split.
  - intros H.
    apply matches_cat_inv in H as (l & s1 & -> & Hl & H).
    apply matches_cat_inv in H as (a & s2 & -> & Ha & H).
    apply matches_cat_inv in H as (d & s3 & -> & Hd & H).
    apply matches_cat_inv in H as (dot & s4 & -> & Hdot & H).
    apply matches_cat_inv in H as (t1 & s5 & -> & Ht1 & H).
    apply matches_cat_inv in H as (t2 & t3 & -> & Ht2 & Ht3).
    apply matches_plus_cls in Hl as [Hl1 Hl2].
    apply matches_plus_cls in Hd as [Hd1 Hd2].
    apply matches_cls_inv in Ha as (ca & -> & Hca).
    apply matches_cls_inv in Hdot as (cd & -> & Hcd).
    apply matches_cls_inv in Ht1 as (c1 & -> & Hc1).
    apply matches_cls_inv in Ht2 as (c2 & -> & Hc2).
    apply matches_star_cls in Ht3.
    apply chr_is_eq in Hca. apply chr_is_eq in Hcd. subst ca cd.
    exists l, d, (String c1 (String c2 t3)).
    split; [ reflexivity | ]. split; [ exact Hl1 | ].
    split; [ exact Hl2 | ]. split; [ exact Hd1 | ]. split; [ exact Hd2 | ].
    split; [ simpl; lia | ]. simpl. rewrite Hc1, Hc2, Ht3. reflexivity.
  - intros (l & d & t & -> & Hl1 & Hl2 & Hd1 & Hd2 & Hlen & Ht).
    destruct t as [ | c1 [ | c2 t3]]; simpl in Hlen; try lia.
    simpl in Ht. apply andb_true_iff in Ht as [Hc1 Ht].
    apply andb_true_iff in Ht as [Hc2 Ht3].
    apply m_cat; [ apply matches_plus_cls; auto | ].
    apply (m_cat (s1 := String "@" EmptyString)); [ constructor; reflexivity | ].
    apply m_cat; [ apply matches_plus_cls; auto | ].
    apply (m_cat (s1 := String "." EmptyString)); [ constructor; reflexivity | ].
    apply (m_cat (s1 := String c1 EmptyString)); [ constructor; exact Hc1 | ].
    apply (m_cat (s1 := String c2 EmptyString)); [ constructor; exact Hc2 | ].
    apply matches_star_cls, Ht3.
Qed.

(** [re.match] with a pattern closed by [$]: the whole string, or all of
    it but one final newline. *)
Lemma match_anchored_matches (r : Re.regex) (s : string) :
  Re.match_anchored r s = true
  <-> matches r s \/ exists s', s = (s' ++ NEWLINE)%string /\ matches r s'.
Proof.
  unfold Re.match_anchored. rewrite fullmatch_matches. split.
  - intros H. apply matches_cat_inv in H as (s1 & s2 & -> & H1 & H2).
    apply matches_alt_inv in H2 as [H2 | H2].
    + apply matches_eps_inv in H2 as ->. left.
      rewrite append_nil_r. exact H1.
    + apply matches_cls_inv in H2 as (c & -> & Hc).
      apply chr_is_eq in Hc as ->. right. exists s1. auto.
  - intros [H | (s' & -> & H)].
    + rewrite <- (append_nil_r s).
      apply m_cat; [ exact H | apply m_alt_l; constructor ].
    + apply m_cat; [ exact H | ].
      apply m_alt_r. constructor. reflexivity.
Qed.

(** X1. [is_valid_email] accepts exactly the strings of the shape
    [local@domain.tld], and those followed by one newline. *)
Theorem is_valid_email_spec (s : string) :
  is_valid_email s = true
  <-> email_shape s
      \/ exists s', s = (s' ++ NEWLINE)%string /\ email_shape s'.
Proof.
  unfold is_valid_email. rewrite match_anchored_matches.
  rewrite matches_pattern. split.
  - intros [H | (s' & E & H)]; [ left; exact H | right ].
    exists s'. split; [ exact E | apply matches_pattern, H ].
  - intros [H | (s' & E & H)]; [ left; exact H | right ].
    exists s'. split; [ exact E | apply matches_pattern, H ].
Qed.

End Regex.

(** ** Signup *)

Section Signup.

Context {L : Libs}.

Lemma first_none_existsb {A} (f : A -> bool) (l : list A) :
  find f l = None <-> existsb f l = false.
Proof.
  induction l as [ | x l IH]; simpl; [ tauto | ].
  destruct (f x); simpl; [ split; discriminate | exact IH ].
Qed.

Lemma valid_email_nonempty (email : string) :
  is_valid_email email = true -> Str.truthy email = true.
Proof. destruct email; [ discriminate | reflexivity ]. Qed.

(** An acceptable body is accepted. *)
Lemma signup_creates (w : World) (s : Store) (data : pyval)
    (email p pwhash : string) :
  acceptable w s data email p pwhash ->
  signup w s data
  = (s ++ [new_row w s email pwhash],
     Returned (created_response w (new_row w s email pwhash))).
Proof.
  intros (Hdata & Hread & Hvalid & Hlen & Hnew & Hhash & Hw).
  unfold signup, signup_validate. rewrite Hdata, Hread. cbn [negb bind].
  rewrite Hvalid, (valid_email_nonempty _ Hvalid). cbn [negb orb].
  assert (Hp : Py.truthy (PStr p) = true)
    by (destruct p; simpl in *; [ lia | reflexivity ]).
  rewrite Hp. cbn [negb len bind].
  replace (Z.of_nat (String.length p) <? 8) with false
    by (symmetry; apply Z.ltb_ge; lia).
  rewrite Hnew.
  unfold signup_create, hash_password, Db.commit_add. rewrite Hhash, Hw.
  cbn [negb User.email].
  apply first_none_existsb in Hnew. rewrite Hnew. reflexivity.
Qed.

(** Every other body leaves the table alone and is not answered 201. *)
Lemma signup_cases (w : World) (s : Store) (data : pyval) :
  (exists email p pwhash, acceptable w s data email p pwhash)
  \/ (fst (signup w s data) = s
      /\ status_of (snd (signup w s data)) <> Some 201).
Proof.
  unfold acceptable, signup, signup_validate.
  destruct (Py.truthy data) eqn:Hdata; cbn [negb];
    [ | right; split; [ reflexivity | discriminate ] ].
  destruct (read_credentials data) as [[email password] | e] eqn:Hread;
    cbn [bind]; [ | right; split; [ reflexivity | discriminate ] ].
  destruct (Str.truthy email); cbn [negb orb];
    [ | right; split; [ reflexivity | discriminate ] ].
  destruct (is_valid_email email) eqn:Hvalid; cbn [negb];
    [ | right; split; [ reflexivity | discriminate ] ].
  destruct (Py.truthy password) eqn:Hp; cbn [negb bind];
    [ | right; split; [ reflexivity | discriminate ] ].
  destruct (len password) as [n | e] eqn:Hn; cbn [bind];
    [ | right; split; [ reflexivity | discriminate ] ].
  destruct (n <? 8) eqn:H8;
    [ right; split; [ reflexivity | discriminate ] | ].
  destruct (Db.first (Db.has_email email) s) eqn:Hfirst;
    [ right; split; [ reflexivity | discriminate ] | ].
  unfold signup_create.
  destruct password as [ | | | | p | | ]; cbn [hash_password];
    try (right; split; [ reflexivity | discriminate ]).
  destruct (generate_password_hash p (salt w)) as [pwhash | e] eqn:Hhash;
    [ | right; split; [ reflexivity | discriminate ] ].
  unfold Db.commit_add.
  destruct (healthy w) eqn:Hw; cbn [negb];
    [ | right; split; [ reflexivity | discriminate ] ].
  left. exists email, p, pwhash. injection Hn as <-. apply Z.ltb_ge in H8.
  repeat split; try reflexivity; try assumption; lia.
Qed.

(** X2. [signup] answers 201 for exactly the acceptable bodies: a
    non-empty body whose normalised email is valid and not in the table,
    with a password that is a string of at least 8 characters which
    [generate_password_hash] hashes without raising, while the store
    commits. *)
Theorem signup_created_iff (w : World) (s : Store) (data : pyval) :
  status_of (snd (signup w s data)) = Some 201
  <-> exists email p pwhash, acceptable w s data email p pwhash.
Proof.
  split.
  - intros H. destruct (signup_cases w s data) as [Hacc | [_ Hno]];
      [ exact Hacc | congruence ].
  - intros (email & p & pwhash & Hacc).
    rewrite (@signup_creates w s data email p pwhash Hacc). reflexivity.
Qed.

(** X3. [signup] changes the table only when it answers 201, and then by
    appending one row: the next id, the normalised email, the hash of the
    password, unverified, holding the verification token the answer
    discloses. *)
Theorem signup_effect (w : World) (s : Store) (data : pyval) :
  (fst (signup w s data) = s
   /\ status_of (snd (signup w s data)) <> Some 201)
  \/ (exists email p pwhash,
        read_credentials data = Returned (email, PStr p)
        /\ generate_password_hash p (salt w) = Returned pwhash
        /\ signup w s data
           = (s ++ [new_row w s email pwhash],
              Returned (created_response w (new_row w s email pwhash)))).
Proof.
  destruct (signup_cases w s data) as [(email & p & pwhash & Hacc) | H];
    [ right | left; exact H ].
  exists email, p, pwhash. split; [ apply Hacc | ].
  split; [ apply Hacc | apply (@signup_creates w s data email p pwhash Hacc) ].
Qed.

End Signup.

(** ** Normalisation of the email *)

Section Normalise.

Lemma isspace_lower_char (c : ascii) :
  Str.isspace (Str.lower_char c) = Str.isspace c.
Proof. destruct c as [[] [] [] [] [] [] [] []]; reflexivity. Qed.

Lemma lower_char_twice (c : ascii) :
  Str.lower_char (Str.lower_char c) = Str.lower_char c.
Proof. destruct c as [[] [] [] [] [] [] [] []]; reflexivity. Qed.

Lemma lower_twice (s : string) : Str.lower (Str.lower s) = Str.lower s.
Proof.
  induction s as [ | c s IH]; simpl; [ reflexivity | ].
  rewrite lower_char_twice, IH. reflexivity.
Qed.

Lemma lstrip_lower (s : string) :
  Str.lstrip (Str.lower s) = Str.lower (Str.lstrip s).
Proof.
  induction s as [ | c s IH]; simpl; [ reflexivity | ].
  rewrite isspace_lower_char. destruct (Str.isspace c); [ exact IH | reflexivity ].
Qed.

Lemma rstrip_lower (s : string) :
  Str.rstrip (Str.lower s) = Str.lower (Str.rstrip s).
Proof.
  induction s as [ | c s IH]; simpl; [ reflexivity | ].
  rewrite IH, isspace_lower_char.
  destruct (Str.rstrip s); simpl; [ | reflexivity ].
  destruct (Str.isspace c); reflexivity.
Qed.

Lemma strip_lower_commute (s : string) :
  Str.strip (Str.lower s) = Str.lower (Str.strip s).
Proof. unfold Str.strip. rewrite lstrip_lower, rstrip_lower. reflexivity. Qed.

Lemma rstrip_twice (s : string) : Str.rstrip (Str.rstrip s) = Str.rstrip s.
Proof.
  induction s as [ | c s IH]; [ reflexivity | ].
  cbn [Str.rstrip]. destruct (Str.rstrip s) as [ | d r] eqn:E.
  - destruct (Str.isspace c) eqn:Ec; [ reflexivity | ].
    cbn [Str.rstrip]. rewrite Ec. reflexivity.
  - cbn [Str.rstrip] in *. rewrite IH. reflexivity.
Qed.

(** What [lstrip] leaves does not start with whitespace, and [rstrip]
    keeps such a start. *)
Lemma lstrip_rstrip_lstrip (s : string) :
  Str.lstrip (Str.rstrip (Str.lstrip s)) = Str.rstrip (Str.lstrip s).
Proof.
  induction s as [ | c s IH]; [ reflexivity | ].
  cbn [Str.lstrip]. destruct (Str.isspace c) eqn:Ec; [ exact IH | ].
  cbn [Str.rstrip]. rewrite Ec.
  destruct (Str.rstrip s); cbn [Str.lstrip]; rewrite Ec; reflexivity.
Qed.

Lemma strip_twice (s : string) : Str.strip (Str.strip s) = Str.strip s.
Proof.
  unfold Str.strip. rewrite lstrip_rstrip_lstrip. apply rstrip_twice.
Qed.

Lemma normalise_twice (s : string) :
  Str.lower (Str.strip (Str.lower (Str.strip s))) = Str.lower (Str.strip s).
Proof. rewrite strip_lower_commute, strip_twice. apply lower_twice. Qed.

(** What [rstrip] leaves does not end in whitespace. *)
Lemma rstrip_last (s a : string) (c : ascii) :
  Str.rstrip s = (a ++ String c EmptyString)%string -> Str.isspace c = false.
Proof.
  revert a. induction s as [ | d s IH]; intros a; cbn [Str.rstrip].
  - destruct a; discriminate.
  - destruct (Str.rstrip s) as [ | e r].
    + destruct (Str.isspace d) eqn:Ed; [ destruct a; discriminate | ].
      destruct a as [ | x a]; simpl; [ congruence | ].
      intros [= _ H]. destruct a; discriminate.
    + destruct a as [ | x a]; simpl; [ discriminate | ].
      intros [= _ H]. apply (IH a). exact H.
Qed.

Lemma lower_last (s a : string) (c : ascii) :
  Str.lower s = (a ++ String c EmptyString)%string ->
  exists c', c = Str.lower_char c'
    /\ exists a', s = (a' ++ String c' EmptyString)%string.
Proof.
  revert a. induction s as [ | d s IH]; intros a; simpl.
  - destruct a; discriminate.
  - destruct a as [ | x a]; simpl.
    + intros [= <- H]. destruct s; [ | discriminate ].
      exists d. split; [ reflexivity | exists EmptyString; reflexivity ].
    + intros [= _ H]. apply IH in H as (c' & Hc & a' & ->).
      exists c'. split; [ exact Hc | exists (String d a'); reflexivity ].
Qed.

(** A normalised string does not end in a newline. *)
Lemma normalised_no_newline (e s' : string) :
  Str.lower (Str.strip e) <> (s' ++ NEWLINE)%string.
Proof.
  intros H. apply lower_last in H as (c' & Hc & a' & H).
  apply rstrip_last in H.
  rewrite <- isspace_lower_char, <- Hc in H. discriminate.
Qed.

(** X4. Normalising is idempotent: the email [signup] stores and reports,
    sent back as it is, is read as the same email. *)
Theorem strip_lower_idempotent (v : pyval) (email : string) :
  strip_lower v = Returned email ->
  strip_lower (PStr email) = Returned email.
Proof.
  destruct v; try discriminate. intros [= <-]. simpl.
  rewrite normalise_twice. reflexivity.
Qed.

End Normalise.

(** ** The table the routes maintain *)

Section Table.

Context {L : Libs}.

Import Lang.

Lemma read_credentials_normalised (data : pyval) (email : string)
    (password : pyval) :
  read_credentials data = Returned (email, password) ->
  exists e, email = Str.lower (Str.strip e).
Proof.
  unfold read_credentials.
  destruct (Py.get data "email" (PStr "")) as [v | e]; cbn [bind];
    [ | discriminate ].
  destruct v; cbn [strip_lower bind]; try discriminate.
  destruct (Py.get data "password" (PStr "")); cbn [bind]; [ | discriminate ].
  intros [= <- _]. eauto.
Qed.

(** After [strip], the newline [$] tolerates cannot be there. *)
Lemma normalised_valid_shape (e : string) :
  is_valid_email (Str.lower (Str.strip e)) = true ->
  email_shape (Str.lower (Str.strip e)).
Proof.
  unfold is_valid_email. intros H.
  apply match_anchored_matches in H as [H | (s' & H & _)].
  - apply matches_pattern, H.
  - destruct (normalised_no_newline _ _ H).
Qed.

Lemma next_id_above (s : Store) (u : User.t) :
  In u s -> User.id u < Db.next_id s.
Proof.
  unfold Db.next_id. induction s as [ | r s IH]; cbn [fold_right In];
    [ tauto | ].
  intros [-> | H]; [ lia | ]. specialize (IH H). lia.
Qed.

Lemma next_id_positive (s : Store) : 0 < Db.next_id s.
Proof.
  unfold Db.next_id. induction s as [ | r s IH]; cbn [fold_right]; lia.
Qed.

Lemma first_none_email (e : string) (s : Store) :
  Db.first (Db.has_email e) s = None -> ~ In e (map User.email s).
Proof.
  intros H Hin. apply in_map_iff in Hin as (u & <- & Hu).
  pose proof (find_none _ _ H u Hu) as Hf.
  unfold Db.has_email in Hf. rewrite String.eqb_refl in Hf. discriminate.
Qed.

Lemma new_row_wellformed (w : World) (s : Store) (data : pyval)
    (email p pwhash : string) :
  acceptable w s data email p pwhash ->
  row_wellformed (new_row w s email pwhash).
Proof.
  intros (_ & Hread & Hvalid & Hlen & _ & Hhash & _).
  apply read_credentials_normalised in Hread as [e ->].
  unfold row_wellformed, new_row. cbn [User.id User.email User.password_hash
    User.is_verified User.verification_token].
  split; [ apply next_id_positive | ].
  split; [ apply normalised_valid_shape, Hvalid | ].
  split; [ apply normalise_twice | ].
  split; [ eauto | ].
  split; discriminate.
Qed.

(** Where [verify_email] changes the table. *)
Lemma verify_email_cases (w : World) (s : Store) (token : string) :
  (fst (verify_email w s token) = s
   /\ (Db.first (Db.has_token token) s = None
       \/ healthy w = false
       \/ exists user, Db.first (Db.has_token token) s = Some user
            /\ User.is_verified user = true))
  \/ exists user,
       Db.first (Db.has_token token) s = Some user
       /\ User.is_verified user = false
       /\ healthy w = true
       /\ verify_email w s token
          = (map (fun r => if User.id r =? User.id user
                           then verified_at (clock1 w) user else r) s,
             Returned (Response (PDict [
               ("message", PStr "Email verified successfully");
               ("user", User.to_dict (verified_at (clock1 w) user))
             ]) 200)).
Proof.
  unfold verify_email.
  destruct (Db.first (Db.has_token token) s) as [user | ];
    [ | left; split; [ reflexivity | auto ] ].
  destruct (User.is_verified user) eqn:Ev;
    [ left; split; [ reflexivity | eauto ] | ].
  unfold Db.commit_update.
  destruct (healthy w); cbn [negb];
    [ | left; split; [ reflexivity | auto ] ].
  right. exists user. repeat split; assumption.
Qed.

(** Rows are told apart by their id. *)
Lemma same_id_same_row (s : Store) (u v : User.t) :
  NoDup (map User.id s) -> In u s -> In v s -> User.id u = User.id v -> u = v.
Proof.
  induction s as [ | r s IH]; simpl; [ tauto | ].
  intros Hnd Hu Hv Hid. apply NoDup_cons_iff in Hnd as [Hr Hnd].
  destruct Hu as [-> | Hu], Hv as [-> | Hv].
  - reflexivity.
  - destruct Hr. rewrite Hid. apply in_map, Hv.
  - destruct Hr. rewrite <- Hid. apply in_map, Hu.
  - apply IH; assumption.
Qed.

(** The update by primary key rewrites the one row it was made for. *)
Lemma update_one_row (s before after : Store) (user row : User.t) :
  NoDup (map User.id s) ->
  s = before ++ user :: after ->
  map (fun r => if User.id r =? User.id user then row else r) s
  = before ++ row :: after.
Proof.
  intros Hnd ->. rewrite map_app. cbn [map]. rewrite Z.eqb_refl.
  assert (Hother : forall l, (forall r, In r l -> In r (before ++ user :: after)
                                          /\ r <> user) ->
            map (fun r => if User.id r =? User.id user then row else r) l = l).
  { induction l as [ | r l IHl]; intros Hl; simpl; [ reflexivity | ].
    destruct (Hl r (or_introl eq_refl)) as [Hin Hne].
    destruct (Z.eqb_spec (User.id r) (User.id user)) as [E | _].
    - destruct Hne. apply (@same_id_same_row _ _ _ Hnd Hin (in_elt _ _ _) E).
    - rewrite IHl; [ reflexivity | ]. intros x Hx. apply Hl. right. exact Hx. }
  rewrite map_app in Hnd. cbn [map] in Hnd.
  rewrite !Hother; [ reflexivity | | ].
  - intros r Hr. split; [ apply in_or_app; right; right; exact Hr | ].
    intros ->. apply NoDup_remove_2 in Hnd. apply Hnd.
    apply in_or_app. right. apply in_map, Hr.
  - intros r Hr. split; [ apply in_or_app; left; exact Hr | ].
    intros ->. apply NoDup_remove_2 in Hnd. apply Hnd.
    apply in_or_app. left. apply in_map, Hr.
Qed.

Lemma verified_at_wellformed (t : Z) (u : User.t) :
  row_wellformed u -> row_wellformed (verified_at t u).
Proof.
  unfold row_wellformed, verified_at. simpl.
  intros (H1 & H2 & H3 & H4 & _). repeat split; auto.
Qed.

Lemma api_step_wellformed (s s' : Store) :
  store_wellformed s -> api_step s s' -> store_wellformed s'.
Proof.
  intros Hwf Hstep. revert Hwf.
  destruct Hstep as [w s0 data | w s0 token]; intros (Hid & Hemail & Hrows).
  - destruct (signup_cases w s0 data)
      as [(email & p & pwhash & Hacc) | [-> _]];
      [ | exact (conj Hid (conj Hemail Hrows)) ].
    rewrite (@signup_creates _ w s0 data email p pwhash Hacc). cbn [fst].
    pose proof Hacc as (_ & _ & _ & _ & Hnew & _).
    unfold store_wellformed. rewrite !map_app. cbn [map].
    split; [ | split ].
    + apply NoDup_app; [ exact Hid | repeat constructor; simpl; tauto | ].
      intros i Hi [<- | []]. apply in_map_iff in Hi as (u & Hu & Hin).
      apply next_id_above in Hin. cbn [new_row User.id] in Hu. lia.
    + apply NoDup_app; [ exact Hemail | repeat constructor; simpl; tauto | ].
      intros e He [<- | []]. apply (first_none_email _ _ Hnew He).
    + intros u Hu. apply in_app_or in Hu as [Hu | [<- | []]];
        [ apply Hrows, Hu
        | apply (@new_row_wellformed w s0 data email p pwhash Hacc) ].
  - destruct (verify_email_cases w s0 token)
      as [[-> _] | (user & Hfound & _ & _ & ->)];
      [ exact (conj Hid (conj Hemail Hrows)) | ].
    cbn [fst]. apply find_some in Hfound as [Hin _].
    destruct (in_split _ _ Hin) as (before & after & Hs).
    rewrite (@update_one_row s0 before after user
               (verified_at (clock1 w) user) Hid Hs).
    subst s0. unfold store_wellformed.
    rewrite !map_app in *. cbn [map] in *.
    split; [ exact Hid | ]. split; [ exact Hemail | ].
    intros u Hu. apply in_app_or in Hu as [Hu | [<- | Hu]].
    + apply Hrows, in_or_app. left. exact Hu.
    + apply verified_at_wellformed, Hrows, in_elt.
    + apply Hrows, in_or_app. right. right. exact Hu.
Qed.

(** X5. Every table the routes produce from an empty one keeps the
    constraints of the model and more: ids are distinct and positive,
    emails are distinct, normalised and of the shape [local@domain.tld],
    every password is stored as a hash of a password of at least 8
    characters, and a row is verified exactly when it holds no
    verification token. *)
Theorem reachable_wellformed (s : Store) : reachable s -> store_wellformed s.
Proof.
  induction 1 as [ | s s' _ IH Hstep].
  - split; [ constructor | ]. split; [ constructor | ]. intros u [].
  - apply (api_step_wellformed IH Hstep).
Qed.

(** X6. On a table with distinct ids, a valid verification token changes
    the one row it finds and no other: that row becomes verified and loses
    its token, and the answer shows it. *)
Theorem verify_email_effect (w : World) (s : Store) (token : string)
    (user : User.t) :
  NoDup (map User.id s) ->
  Db.first (Db.has_token token) s = Some user ->
  User.is_verified user = false ->
  healthy w = true ->
  exists before after,
    s = before ++ user :: after
    /\ verify_email w s token
       = (before ++ verified_at (clock1 w) user :: after,
          Returned (Response (PDict [
            ("message", PStr "Email verified successfully");
            ("user", User.to_dict (verified_at (clock1 w) user))
          ]) 200)).
Proof.
  intros Hid Hfound Hv Hw.
  destruct (verify_email_cases w s token)
    as [[_ [H | [H | (u & H & Hu)]]] | (u & H & _ & _ & Heq)];
    try congruence.
  rewrite Hfound in H. injection H as <-.
  apply find_some in Hfound as [Hin _].
  destruct (in_split _ _ Hin) as (before & after & Hs).
  exists before, after. split; [ exact Hs | ].
  rewrite Heq. f_equal.
  apply (@update_one_row s before after user _ Hid Hs).
Qed.

End Table.

(** ** Tokens over time *)

Section TokenLife.

Context {L : Libs}.


(** What [verify_token] returns for a token of [generate_token] once its
    expiry instant has passed. *)
Lemma verify_generated_token_late `{!LibsLaws L} (cfg : Config)
    (t_exp t_iat : Z) (nonce : bytes) (user_id expires_in : Z)
    (token : string) (t_now : Z) :
  generate_token cfg t_exp t_iat nonce user_id expires_in = Returned token ->
  t_exp + expires_in * DT.US_PER_SECOND < t_now ->
  verify_token cfg t_now token = Returned None.
Proof.
  intros Hgen Hnow.
  apply generate_token_returned in Hgen as [Hrange ->].
  unfold verify_token, verify_token_try, pyseto_decode, pyseto_encode.
  rewrite v4_local_correct by apply get_paseto_key_length.
  cbn [bind]. rewrite utf8_correct. cbn [bind].
  rewrite json_correct.
  - cbn [bind Py.getitem Py.lookup String.eqb Ascii.eqb Bool.eqb
         datetime_fromisoformat].
    rewrite isoformat_correct by exact Hrange.
    cbn [bind]. unfold DT.lt. cbn [DT.now_utc wall utcoffset bind].
    replace (t_exp + expires_in * DT.US_PER_SECOND - 0 <? t_now - 0)
      with true; [ reflexivity | ].
    symmetry. apply Z.ltb_lt. lia.
  - intros k v [H | [H | [H | []]]]; inversion H; eauto.
  - simpl. repeat constructor; simpl; intuition discriminate.
Qed.

(** X8. Past its expiry instant a token of [generate_token] is refused,
    whatever its lifetime was, and the guard answers 401 without calling
    the protected function. *)
Theorem expired_token_refused `{!LibsLaws L} (f : Z -> outcome response)
    (cfg : Config) (t_exp t_iat : Z) (nonce : bytes)
    (user_id expires_in : Z) (token : string) (t_now : Z)
    (auth_header : option string) :
  generate_token cfg t_exp t_iat nonce user_id expires_in = Returned token ->
  t_exp + expires_in * DT.US_PER_SECOND < t_now ->
  carries_bearer auth_header token ->
  verify_token cfg t_now token = Returned None
  /\ token_required f cfg t_now auth_header = Returned INVALID.
Proof.
  intros Hgen Hnow Hhdr.
  pose proof (verify_generated_token_late _ _ _ _ _ _ Hgen Hnow) as Hv.
  split; [ exact Hv | ].
  rewrite (token_required_bearer f cfg t_now auth_header
             (proj2 (bearer_token_spec auth_header token) Hhdr)).
  apply with_token_invalid, Hv.
Qed.

(** X9. Acceptance only ever ends: a token accepted at some clock reading
    is accepted, with the same payload, at every earlier one; so a token
    once refused as expired stays refused. *)
Theorem verify_token_monotone (cfg : Config) (t t' : Z) (token : string)
    (payload : pyval) :
  verify_token cfg t token = Returned (Some payload) ->
  t' <= t ->
  verify_token cfg t' token = Returned (Some payload).
Proof.
  unfold verify_token, verify_token_try.
  destruct (pyseto_decode (get_paseto_key cfg) token) as [pb | e];
    cbn [bind try_except]; [ | discriminate ].
  destruct (bind (bytes_decode pb) (fun s => json_loads s)) as [p | e];
    cbn [bind try_except]; [ | discriminate ].
  destruct (bind (Py.getitem p "exp") (fun e => datetime_fromisoformat e))
    as [d | e]; cbn [bind try_except]; [ | discriminate ].
  unfold DT.lt. cbn [DT.now_utc wall utcoffset].
  destruct (utcoffset d) as [o | ]; cbn [bind try_except]; [ | discriminate ].
  destruct (wall d - o <? t - 0) eqn:E; cbn [try_except]; [ discriminate | ].
  intros [= <-] Hle. apply Z.ltb_ge in E.
  replace (wall d - o <? t' - 0) with false; [ reflexivity | ].
  symmetry. apply Z.ltb_ge. lia.
Qed.

End TokenLife.

(** ** What the guard lets through *)

Section GuardSafety.

Context {L : Libs}.

(** What [verify_token] returns is a [dict]: its ['exp'] was read. *)
Lemma verified_payload_dict (cfg : Config) (t_now : Z) (token : string)
    (payload : pyval) :
  verify_token cfg t_now token = Returned (Some payload) ->
  exists kvs, payload = PDict kvs /\ kvs <> [].
Proof.
  unfold verify_token, verify_token_try.
  destruct (pyseto_decode (get_paseto_key cfg) token) as [pb | e];
    cbn [bind try_except]; [ | discriminate ].
  destruct (bind (bytes_decode pb) (fun s => json_loads s)) as [p | e];
    cbn [bind try_except]; [ | discriminate ].
  destruct (Py.getitem p "exp") as [v | e] eqn:Hexp; cbn [bind try_except];
    [ | discriminate ].
  destruct (datetime_fromisoformat v) as [d | e]; cbn [bind try_except];
    [ | discriminate ].
  destruct (DT.lt d (DT.now_utc t_now)) as [[ | ] | e];
    cbn [bind try_except]; try discriminate.
  destruct p as [ | | | | | | kvs]; try discriminate Hexp.
  destruct kvs as [ | kv kvs]; [ discriminate Hexp | ].
  intros [= <-]. eexists. split; [ reflexivity | discriminate ].
Qed.

(** X10. The protected function runs only on the user id of a token that
    [verify_token] accepted at this clock reading.  In every other case
    the answer does not depend on the function: 401 for a missing or
    refused token, and an exception when an accepted payload names no
    user id. *)
Theorem token_required_calls_verified (cfg : Config) (t_now : Z)
    (auth_header : option string) :
  (exists r,
     (r = Returned MISSING \/ r = Returned INVALID \/ exists e, r = Raised e)
     /\ forall f, token_required f cfg t_now auth_header = r)
  \/ (exists token payload user_id,
        carries_bearer auth_header token
        /\ verify_token cfg t_now token = Returned (Some payload)
        /\ subject payload = Returned user_id
        /\ forall f, token_required f cfg t_now auth_header = f user_id).
Proof.
  destruct (bearer_token auth_header) as [token | ] eqn:Hb.
  - assert (Hf : forall f, token_required f cfg t_now auth_header
                           = with_token f cfg t_now token)
      by (intros f; apply token_required_bearer, Hb).
    unfold with_token in Hf.
    destruct (verify_token cfg t_now token) as [[payload | ] | e] eqn:Hv.
    + destruct (verified_payload_dict _ _ _ Hv) as (kvs & -> & Hne).
      assert (Ht : not_payload (Some (PDict kvs)) = false)
        by (destruct kvs; [ congruence | reflexivity ]).
      cbn [bind] in Hf. rewrite Ht in Hf.
      fold (subject (PDict kvs)) in Hf.
      destruct (subject (PDict kvs)) as [uid | e] eqn:Hs; cbn [bind] in Hf.
      * right. exists token, (PDict kvs), uid.
        split; [ apply bearer_token_spec, Hb | ].
        split; [ exact Hv | ]. split; [ exact Hs | exact Hf ].
      * left. exists (Raised e). split; [ | exact Hf ].
        right. right. exists e. reflexivity.
    + left. exists (Returned INVALID). split; [ auto | exact Hf ].
    + unfold verify_token in Hv.
      destruct (verify_token_try cfg t_now token); discriminate.
  - left. exists (Returned MISSING). split; [ auto | ].
    intros f. unfold token_required. rewrite Hb. reflexivity.
Qed.

End GuardSafety.

(** ** Login, and what follows a signup *)

Section Accounts.

Context {L : Libs}.

Lemma login_authenticated (cfg : Config) (w : World) (s : Store)
    (data : pyval) (user : User.t) (token : string) :
  authenticated cfg w s data user token ->
  login cfg w s data = Returned (login_response token user).
Proof.
  intros (email & p & Hread & He & Hp & Hfound & Hcheck & Hgen).
  unfold login.
  rewrite (read_credentials_truthy _ Hread He), Hread. cbn [negb bind].
  rewrite (truthy_nonempty He).
  assert (Hpt : Py.truthy (PStr p) = true) by (apply truthy_nonempty, Hp).
  rewrite Hpt. cbn [negb orb]. rewrite Hfound.
  cbn [check_password]. rewrite Hcheck. cbn [bind negb].
  rewrite Hgen. reflexivity.
Qed.

(** Every other request is answered without a token. *)
Lemma login_cases (cfg : Config) (w : World) (s : Store) (data : pyval) :
  (exists user token, authenticated cfg w s data user token)
  \/ (status_of (login cfg w s data) <> Some 200
      /\ token_of (login cfg w s data) = None).
Proof.
  unfold authenticated, login.
  destruct (Py.truthy data); cbn [negb];
    [ | right; split; [ discriminate | reflexivity ] ].
  destruct (read_credentials data) as [[email password] | e] eqn:Hread;
    cbn [bind]; [ | right; split; [ discriminate | reflexivity ] ].
  destruct (Str.truthy email) eqn:He; cbn [negb orb];
    [ | right; split; [ discriminate | reflexivity ] ].
  destruct (Py.truthy password) eqn:Hp; cbn [negb];
    [ | right; split; [ discriminate | reflexivity ] ].
  destruct (Db.first (Db.has_email email) s) as [user | ] eqn:Hfound;
    [ | right; split; [ discriminate | reflexivity ] ].
  destruct password as [ | | | | p | | ]; cbn [check_password bind];
    try (right; split; [ discriminate | reflexivity ]).
  destruct (check_password_hash (User.password_hash user) p)
    as [[ | ] | e] eqn:Hcheck; cbn [bind negb];
    try (right; split; [ discriminate | reflexivity ]).
  destruct (generate_token cfg (clock1 w) (clock2 w) (nonce w)
              (User.id user) DEFAULT_EXPIRES_IN) as [token | e] eqn:Hgen;
    cbn [bind]; [ | right; split; [ discriminate | reflexivity ] ].
  left. exists user, token, email, p.
  split; [ reflexivity | ].
  split; [ intros ->; discriminate | ].
  split; [ intros ->; discriminate | auto ].
Qed.

(** X11. [login] answers 200 exactly when the body names a stored email
    with a string password the stored hash checks against (and the token
    could be made); the answer then carries the token made for the id of
    that row.  No other answer carries a token. *)
Theorem login_succeeds_iff (cfg : Config) (w : World) (s : Store)
    (data : pyval) :
  (status_of (login cfg w s data) = Some 200
   <-> exists user token, authenticated cfg w s data user token)
  /\ (forall user token,
        authenticated cfg w s data user token ->
        login cfg w s data = Returned (login_response token user))
  /\ (status_of (login cfg w s data) <> Some 200 ->
      token_of (login cfg w s data) = None).
Proof.
  split; [ | split ].
  - split.
    + intros H. destruct (login_cases cfg w s data) as [Hauth | [Hno _]];
        [ exact Hauth | congruence ].
    + intros (user & token & Hauth).
      rewrite (login_authenticated Hauth). reflexivity.
  - intros user token. apply login_authenticated.
  - intros Hno. destruct (login_cases cfg w s data)
      as [(user & token & Hauth) | [_ Hnone]]; [ | exact Hnone ].
    rewrite (login_authenticated Hauth) in Hno. destruct Hno. reflexivity.
Qed.

(** *** An account persists *)

Lemma first_app_found {A} (f : A -> bool) (l l' : list A) (x : A) :
  find f l = Some x -> find f (l ++ l') = Some x.
Proof.
  induction l as [ | a l IH]; simpl; [ discriminate | ].
  destruct (f a); [ auto | exact IH ].
Qed.

Lemma first_app_new {A} (f : A -> bool) (l : list A) (x : A) :
  find f l = None -> f x = true -> find f (l ++ [x]) = Some x.
Proof.
  induction l as [ | a l IH]; simpl; [ intros _ ->; reflexivity | ].
  destruct (f a); [ discriminate | exact IH ].
Qed.

Lemma first_by_email_replaced (e : string) (before after : Store)
    (user row u : User.t) :
  same_account user row ->
  Db.first (Db.has_email e) (before ++ user :: after) = Some u ->
  exists u', Db.first (Db.has_email e) (before ++ row :: after) = Some u'
             /\ same_account u u'.
Proof.
  intros Hsame. unfold Db.first.
  assert (Hrow : Db.has_email e row = Db.has_email e user)
    by (unfold Db.has_email; destruct Hsame as (_ & -> & _); reflexivity).
  induction before as [ | r before IH]; cbn [app find].
  - rewrite Hrow. destruct (Db.has_email e user).
    + intros [= <-]. exists row. split; [ reflexivity | exact Hsame ].
    + intros H. exists u. split; [ exact H | repeat split ].
  - destruct (Db.has_email e r); [ | exact IH ].
    intros [= <-]. exists r. repeat split.
Qed.

Lemma api_step_keeps_account (s s' : Store) (e : string) (u : User.t) :
  store_wellformed s -> api_step s s' ->
  Db.first (Db.has_email e) s = Some u ->
  exists u', Db.first (Db.has_email e) s' = Some u' /\ same_account u u'.
Proof.
  intros Hwf Hstep. revert Hwf.
  destruct Hstep as [w s0 data | w s0 token]; intros (Hid & _ & _) Hfound.
  - destruct (signup_cases w s0 data)
      as [(email & p & pwhash & Hacc) | [-> _]].
    + rewrite (@signup_creates _ w s0 data email p pwhash Hacc). cbn [fst].
      exists u.
      split; [ apply first_app_found, Hfound | repeat split ].
    + exists u. split; [ exact Hfound | repeat split ].
  - destruct (verify_email_cases w s0 token)
      as [[-> _] | (user & Htok & _ & _ & ->)].
    + exists u. split; [ exact Hfound | repeat split ].
    + cbn [fst]. apply find_some in Htok as [Hin _].
      destruct (in_split _ _ Hin) as (before & after & Hs).
      rewrite (@update_one_row s0 before after user
                 (verified_at (clock1 w) user) Hid Hs).
      subst s0.
      apply (@first_by_email_replaced e before after user
               (verified_at (clock1 w) user) u);
        [ repeat split | exact Hfound ].
Qed.

Lemma api_steps_wellformed (s s' : Store) :
  store_wellformed s -> api_steps s s' -> store_wellformed s'.
Proof.
  intros Hwf. induction 1 as [ | s1 s2 s3 _ IH Hstep]; [ exact Hwf | ].
  apply (api_step_wellformed (IH Hwf) Hstep).
Qed.

Lemma api_steps_keep_account (s s' : Store) (e : string) (u : User.t) :
  store_wellformed s -> api_steps s s' ->
  Db.first (Db.has_email e) s = Some u ->
  exists u', Db.first (Db.has_email e) s' = Some u' /\ same_account u u'.
Proof.
  intros Hwf Hsteps Hfound.
  induction Hsteps as [ | s1 s2 s3 Hsteps IH Hstep].
  - exists u. split; [ exact Hfound | repeat split ].
  - destruct (IH Hwf Hfound) as (u2 & H2 & Hi & He & Hh).
    destruct (@api_step_keeps_account s2 s3 e u2
                (api_steps_wellformed Hwf Hsteps) Hstep H2)
      as (u3 & H3 & Hi' & He' & Hh').
    exists u3. split; [ exact H3 | ]. repeat split; congruence.
Qed.

(** After a signup answered 201, the email finds the new row, now and
    after any further requests. *)
Lemma signed_up_account (w : World) (s s' : Store) (data : pyval)
    (email p pwhash : string) :
  store_wellformed s ->
  acceptable w s data email p pwhash ->
  api_steps (fst (signup w s data)) s' ->
  exists u, Db.first (Db.has_email email) s' = Some u
            /\ same_account (new_row w s email pwhash) u.
Proof.
  intros Hwf Hacc Hsteps.
  apply (@api_steps_keep_account (fst (signup w s data)) s' email).
  - apply (api_step_wellformed Hwf). constructor.
  - exact Hsteps.
  - rewrite (@signup_creates _ w s data email p pwhash Hacc). cbn [fst].
    apply first_app_new; [ apply Hacc | ].
    unfold Db.has_email, new_row. cbn [User.email]. apply String.eqb_refl.
Qed.

(** X12. Once a signup was answered 201, a login with the same body
    succeeds, then and after any number of further signups and
    verifications: it is answered 200 with a token for the id the signup
    assigned. *)
Theorem signup_then_login `{!HashLaws L} (cfg : Config) (w w' : World)
    (s s' : Store) (data : pyval) :
  store_wellformed s ->
  status_of (snd (signup w s data)) = Some 201 ->
  api_steps (fst (signup w s data)) s' ->
  0 <= clock1 w' ->
  clock1 w' + DEFAULT_EXPIRES_IN * DT.US_PER_SECOND <= DT.MAX_WALL ->
  exists user token,
    In user s' /\ User.id user = Db.next_id s
    /\ generate_token cfg (clock1 w') (clock2 w') (nonce w')
         (Db.next_id s) DEFAULT_EXPIRES_IN = Returned token
    /\ login cfg w' s' data = Returned (login_response token user).
Proof.
  intros Hwf Hcreated Hsteps Hclock Hmax.
  destruct (signup_cases w s data)
    as [(email & p & pwhash & Hacc) | [_ Hno]]; [ | congruence ].
  destruct (@signed_up_account w s s' data email p pwhash Hwf Hacc Hsteps)
    as (u & Hfound & Hi & He & Hh).
  cbn [new_row User.id User.email User.password_hash] in Hi, He, Hh.
  assert (Hgen := generate_token_payload cfg (clock2 w') (nonce w')
                    (Db.next_id s) (expires_in := DEFAULT_EXPIRES_IN)
                    ltac:(unfold DEFAULT_EXPIRES_IN; lia) Hclock Hmax).
  exists u. eexists. split; [ apply (find_some _ _ Hfound) | ].
  split; [ exact Hi | ]. split; [ exact Hgen | ].
  apply login_authenticated.
  pose proof Hacc as (_ & Hread & Hvalid & Hlen & _ & Hhash & _).
  exists email, p. split; [ exact Hread | ].
  split; [ intros ->; discriminate | ].
  split; [ intros ->; simpl in Hlen; lia | ].
  split; [ exact Hfound | ].
  split; [ rewrite Hh; apply (check_generated _ _ Hhash) | ].
  rewrite Hi. exact Hgen.
Qed.

(** X13. An email once registered stays taken: after a signup answered
    201, every later signup whose body would otherwise pass and whose
    normalised email is the same is answered 409 and leaves the table as
    it is. *)
Theorem registered_email_stays_taken (w w' : World) (s s' : Store)
    (data data' : pyval) (email : string) (password' : pyval) :
  store_wellformed s ->
  status_of (snd (signup w s data)) = Some 201 ->
  api_steps (fst (signup w s data)) s' ->
  signup_email data = Some email ->
  signup_validate [] data' = Returned (Proceed email password') ->
  signup w' s' data'
  = (s', Returned (error_response "Email already registered" 409)).
Proof.
  intros Hwf Hcreated Hsteps Hemail Hvalid.
  destruct (signup_cases w s data)
    as [(e & p & pwhash & Hacc) | [_ Hno]]; [ | congruence ].
  destruct (@signed_up_account w s s' data e p pwhash Hwf Hacc Hsteps)
    as (u & Hfound & _).
  pose proof Hacc as (_ & Hread & _).
  unfold signup_email in Hemail. rewrite Hread in Hemail.
  injection Hemail as ->.
  apply (signup_existing_email w' s' data' Hvalid Hfound).
Qed.

End Accounts.

(** ** From login to the protected route *)

Section Session.

Context {L : Libs}.

Lemma get_by_id (s : Store) (user : User.t) :
  NoDup (map User.id s) -> In user s -> Db.get (User.id user) s = Some user.
Proof.
  intros Hid Hin. unfold Db.get.
  destruct (find (fun u => User.id u =? User.id user) s) as [v | ] eqn:E.
  - apply find_some in E as [Hv Heq]. apply Z.eqb_eq in Heq.
    f_equal. apply (@same_id_same_row _ _ _ Hid Hv Hin Heq).
  - pose proof (find_none _ _ E user Hin) as H. simpl in H.
    rewrite Z.eqb_refl in H. discriminate.
Qed.

Lemma token_of_login_response (token : string) (user : User.t) :
  token_of (Returned (login_response token user)) = Some token.
Proof. reflexivity. Qed.

Lemma api_step_keeps_row (s s' : Store) (u : User.t) :
  NoDup (map User.id s) -> api_step s s' -> In u s ->
  exists u', In u' s' /\ same_account u u'.
Proof.
  intros Hid Hstep. revert Hid.
  destruct Hstep as [w s0 data | w s0 token]; intros Hid Hin.
  - exists u. split; [ | repeat split ].
    destruct (signup_store w s0 data) as [-> | (row & -> & _)];
      [ exact Hin | apply in_or_app; left; exact Hin ].
  - destruct (verify_email_cases w s0 token)
      as [[-> _] | (user & Htok & _ & _ & ->)];
      [ exists u; split; [ exact Hin | repeat split ] | ].
    cbn [fst]. apply find_some in Htok as [Huser _].
    destruct (in_split _ _ Huser) as (before & after & Hs).
    rewrite (@update_one_row s0 before after user
               (verified_at (clock1 w) user) Hid Hs).
    subst s0. apply in_app_or in Hin as [Hin | [<- | Hin]].
    + exists u. split; [ apply in_or_app; left; exact Hin | repeat split ].
    + exists (verified_at (clock1 w) user).
      split; [ apply in_elt | repeat split ].
    + exists u.
      split; [ apply in_or_app; right; right; exact Hin | repeat split ].
Qed.

Lemma api_steps_keep_row (s s' : Store) (u : User.t) :
  store_wellformed s -> api_steps s s' -> In u s ->
  exists u', In u' s' /\ same_account u u'.
Proof.
  intros Hwf Hsteps Hin.
  induction Hsteps as [ | s1 s2 s3 Hsteps IH Hstep].
  - exists u. split; [ exact Hin | repeat split ].
  - destruct (IH Hwf Hin) as (u2 & H2 & Hi & He & Hh).
    destruct (@api_step_keeps_row s2 s3 u2
                (proj1 (api_steps_wellformed Hwf Hsteps)) Hstep H2)
      as (u3 & H3 & Hi' & He' & Hh').
    exists u3. split; [ exact H3 | ]. repeat split; congruence.
Qed.

(** X14. The token of a login answer, presented as a bearer token up to
    an hour after the first clock reading of the login, opens [/me], then
    and after any number of further signups and verifications: the answer
    is 200 with the view of the row of the account the login named. *)
Theorem login_then_me `{!LibsLaws L} (cfg : Config) (w : World)
    (s s' : Store) (data : pyval) (token : string) (t_now : Z)
    (auth_header : option string) :
  store_wellformed s ->
  token_of (login cfg w s data) = Some token ->
  api_steps s s' ->
  carries_bearer auth_header token ->
  t_now <= clock1 w + DEFAULT_EXPIRES_IN * DT.US_PER_SECOND ->
  exists user user',
    authenticated cfg w s data user token
    /\ In user' s' /\ same_account user user'
    /\ me cfg t_now s' auth_header
       = Returned (Response (PDict [("user", User.to_dict user')]) 200).
Proof.
  intros Hwf Htoken Hsteps Hhdr Hnow.
  destruct (login_cases cfg w s data)
    as [(user & token' & Hauth) | [_ Hnone]]; [ | congruence ].
  rewrite (login_authenticated Hauth), token_of_login_response in Htoken.
  injection Htoken as ->.
  pose proof Hauth as (email & p & _ & _ & _ & Hfound & _ & Hgen).
  destruct (@api_steps_keep_row s s' user Hwf Hsteps
              (proj1 (find_some _ _ Hfound))) as (user' & Hin' & Hsame).
  exists user, user'. split; [ exact Hauth | ].
  split; [ exact Hin' | ]. split; [ exact Hsame | ].
  unfold me.
  rewrite (@guard_resolves_subject L _ (get_current_user s') cfg (clock1 w)
             (clock2 w) (nonce w) (User.id user) DEFAULT_EXPIRES_IN token
             t_now auth_header Hgen Hnow Hhdr).
  unfold get_current_user. destruct Hsame as (<- & _ & _).
  rewrite (@get_by_id s' user'
             (proj1 (api_steps_wellformed Hwf Hsteps)) Hin').
  reflexivity.
Qed.

End Session.

(** ** The reference password hashing *)

Section ReferenceHash.

Import RefHash.

Lemma hex_digit_not_dollar (b : byte) :
  Ascii.eqb (Sha256.hex_digit (Z.shiftr (Sha256.byteZ b) 4)) "$" = false
  /\ Ascii.eqb (Sha256.hex_digit (Z.land (Sha256.byteZ b) 15)) "$" = false.
Proof. destruct b; vm_compute; auto. Qed.

Lemma until_dollar_hexdigest (bs : bytes) (rest : string) :
  until_dollar (Sha256.hexdigest bs ++ String "$" rest)
  = Some (Sha256.hexdigest bs, rest).
Proof.
  induction bs as [ | b bs IH]; [ reflexivity | ].
  destruct (hex_digit_not_dollar b) as [Hhi Hlo].
  cbn [Sha256.hexdigest append until_dollar]. rewrite Hhi, Hlo, IH.
  reflexivity.
Qed.

Lemma check_generate (p : string) (slt : bytes) : check (generate p slt) p = true.
Proof.
  unfold check, generate. rewrite strip_prefix_append.
  change ("$" ++ digest slt p)%string with (String "$" (digest slt p)).
  rewrite until_dollar_hexdigest, unhex_hexdigest. apply String.eqb_refl.
Qed.

End ReferenceHash.

#[export] Instance reference_hash_laws : HashLaws reference_libs.
Proof.
  split. intros p slt pwhash [= <-]. simpl. rewrite check_generate.
  reflexivity.
Qed.

(** ** Verification, over time *)

Section Verified.

Context {L : Libs}.

Lemma api_step_keeps_verified (s s' : Store) (u : User.t) :
  NoDup (map User.id s) -> api_step s s' ->
  In u s -> User.is_verified u = true -> In u s'.
Proof.
  intros Hid Hstep. revert Hid.
  destruct Hstep as [w s0 data | w s0 token]; intros Hid Hin Hv.
  - destruct (signup_store w s0 data) as [-> | (row & -> & _)];
      [ exact Hin | apply in_or_app; left; exact Hin ].
  - destruct (verify_email_cases w s0 token)
      as [[-> _] | (user & Htok & Hun & _ & ->)]; [ exact Hin | ].
    cbn [fst]. apply find_some in Htok as [Huser _].
    destruct (in_split _ _ Huser) as (before & after & Hs).
    rewrite (@update_one_row s0 before after user
               (verified_at (clock1 w) user) Hid Hs).
    subst s0. apply in_app_or in Hin as [Hin | [<- | Hin]].
    + apply in_or_app. left. exact Hin.
    + congruence.
    + apply in_or_app. right. right. exact Hin.
Qed.

(** X15. A verified row is never touched again: it is in every later
    table exactly as it was, so verification is never undone. *)
Theorem verified_stays_verified (s s' : Store) (u : User.t) :
  store_wellformed s -> api_steps s s' ->
  In u s -> User.is_verified u = true -> In u s'.
Proof.
  intros Hwf Hsteps Hin Hv.
  induction Hsteps as [ | s1 s2 s3 Hsteps IH Hstep]; [ exact Hin | ].
  apply (@api_step_keeps_verified s2 s3 u
           (proj1 (api_steps_wellformed Hwf Hsteps)) Hstep (IH Hwf Hin) Hv).
Qed.

(** X16. The verification token a signup discloses verifies the account
    it created, when no earlier row holds the same token: the new row,
    and no other, becomes verified. *)
Theorem signup_then_verify (w w' : World) (s : Store) (data : pyval) :
  store_wellformed s ->
  status_of (snd (signup w s data)) = Some 201 ->
  Db.first (Db.has_token (token_urlsafe w)) s = None ->
  healthy w' = true ->
  exists row,
    signup w s data = (s ++ [row], Returned (created_response w row))
    /\ User.is_verified row = false
    /\ verify_email w' (s ++ [row]) (token_urlsafe w)
       = (s ++ [verified_at (clock1 w') row],
          Returned (Response (PDict [
            ("message", PStr "Email verified successfully");
            ("user", User.to_dict (verified_at (clock1 w') row))
          ]) 200)).
Proof.
  intros Hwf Hcreated Hfresh Hw'.
  destruct (signup_cases w s data)
    as [(email & p & pwhash & Hacc) | [_ Hno]]; [ | congruence ].
  pose proof (api_step_wellformed Hwf (api_signup w s data)) as (Hid & _).
  rewrite (@signup_creates _ w s data email p pwhash Hacc) in Hid.
  cbn [fst] in Hid.
  exists (new_row w s email pwhash).
  split; [ apply (@signup_creates _ w s data email p pwhash Hacc) | ].
  split; [ reflexivity | ].
  assert (Hfound : Db.first (Db.has_token (token_urlsafe w))
                     (s ++ [new_row w s email pwhash])
                   = Some (new_row w s email pwhash)).
  { apply first_app_new; [ exact Hfresh | ].
    unfold Db.has_token, new_row. cbn [User.verification_token].
    apply String.eqb_refl. }
  destruct (verify_email_cases w' (s ++ [new_row w s email pwhash])
              (token_urlsafe w))
    as [[_ [H | [H | (u & H & Hu)]]] | (u & H & _ & _ & Heq)];
    try congruence.
  - rewrite Hfound in H. injection H as <-. discriminate Hu.
  - rewrite Hfound in H. injection H as <-. rewrite Heq. f_equal.
    apply (@update_one_row _ s [] (new_row w s email pwhash) _ Hid eq_refl).
Qed.

End Verified.

(** ** The answers of the routes *)

Section Answers.

Context {L : Libs}.

(** X17. On a body whose email and password are strings (or absent),
    [signup] answers 201, 400, 409 or 500, or else raises what
    [generate_password_hash] raised on the password and leaves the table
    alone; reading the table is taken not to fail. *)
Theorem signup_answers (w : World) (s : Store) (data : pyval)
    (email p : string) :
  read_credentials data = Returned (email, PStr p) ->
  (exists resp,
     snd (signup w s data) = Returned resp
     /\ (status resp = 201 \/ status resp = 400 \/ status resp = 409
         \/ status resp = 500))
  \/ (exists e,
        generate_password_hash p (salt w) = Raised e
        /\ signup w s data = (s, Raised e)).
Proof.
  intros Hread. unfold signup, signup_validate. rewrite Hread.
  destruct (Py.truthy data); cbn [negb bind snd];
    [ | left; eexists; split; [ reflexivity | simpl; auto ] ].
  destruct (negb (Str.truthy email) || negb (is_valid_email email));
    [ left; eexists; split; [ reflexivity | simpl; auto ] | ].
  destruct (Py.truthy (PStr p)); cbn [negb len bind];
    [ | left; eexists; split; [ reflexivity | simpl; auto ] ].
  destruct (Z.of_nat (String.length p) <? 8);
    [ left; eexists; split; [ reflexivity | simpl; auto ] | ].
  destruct (Db.first (Db.has_email email) s);
    [ left; eexists; split; [ reflexivity | simpl; auto ] | ].
  unfold signup_create, hash_password.
  destruct (generate_password_hash p (salt w)) as [pwhash | e];
    [ | right; exists e; split; reflexivity ].
  unfold Db.commit_add.
  destruct (healthy w); cbn [negb];
    [ | left; eexists; split; [ reflexivity | simpl; auto ] ].
  destruct (existsb _ s); left; eexists; split; try reflexivity; simpl; auto.
Qed.

(** X18. On such a body [login] answers 200, 400 or 401, or else raises
    what [check_password_hash] or [generate_token] raised for the row the
    email found; reading the table is taken not to fail. *)
Theorem login_answers (cfg : Config) (w : World) (s : Store) (data : pyval)
    (email p : string) :
  read_credentials data = Returned (email, PStr p) ->
  (exists resp,
     login cfg w s data = Returned resp
     /\ (status resp = 200 \/ status resp = 400 \/ status resp = 401))
  \/ (exists user e,
        Db.first (Db.has_email email) s = Some user
        /\ (check_password_hash (User.password_hash user) p = Raised e
            \/ generate_token cfg (clock1 w) (clock2 w) (nonce w)
                 (User.id user) DEFAULT_EXPIRES_IN = Raised e)
        /\ login cfg w s data = Raised e).
Proof.
  intros Hread. unfold login. rewrite Hread.
  destruct (Py.truthy data); cbn [negb bind];
    [ | left; eexists; split; [ reflexivity | simpl; auto ] ].
  destruct (negb (Str.truthy email) || negb (Py.truthy (PStr p)));
    [ left; eexists; split; [ reflexivity | simpl; auto ] | ].
  destruct (Db.first (Db.has_email email) s) as [user | ];
    [ | left; eexists; split; [ reflexivity | simpl; auto ] ].
  cbn [check_password].
  destruct (check_password_hash (User.password_hash user) p)
    as [[ | ] | e] eqn:Hcheck; cbn [bind negb].
  - destruct (generate_token cfg (clock1 w) (clock2 w) (nonce w)
                (User.id user) DEFAULT_EXPIRES_IN) as [token | e] eqn:Hgen;
      cbn [bind].
    + left. eexists. split; [ reflexivity | simpl; auto ].
    + right. exists user, e. auto.
  - left. eexists. split; [ reflexivity | simpl; auto ].
  - right. exists user, e. auto.
Qed.

End Answers.

(** * The properties at concrete requests *)

(** The specification's scenarios, run on the code: signup, repeated
    signup, login, and [/me] with the token of the login and without. *)
Example scenario_signup_login_me :
  status_of (snd (signup world0 [] alice)) = Some 201
  /\ status_of (snd (signup world1 store1 alice_again)) = Some 409
  /\ status_of (login cfg0 world1 store1 alice) = Some 200
  /\ option_map (Ref.take 9) (token_of (login cfg0 world1 store1 alice))
     = Some "v4.local."
  /\ match token_of (login cfg0 world1 store1 alice) with
     | Some token =>
         status_of (me cfg0 (t0 + 5) store1 (Some ("Bearer " ++ token)%string))
     | None => None
     end = Some 200
  /\ me cfg0 (t0 + 5) store1 None = Returned MISSING.
Proof. repeat split; vm_compute; reflexivity. Qed.

(** A token whose last character was changed is refused, as is text that
    is no token, and the token itself an hour and a microsecond after
    issue. *)
Example tampered_or_late :
  verify_token cfg0 (t0 + 5) token0 <> Returned None
  /\ v4_local_decrypt (get_paseto_key cfg0)
       (Ref.take (String.length token0 - 1) token0 ++ "e")%string
     = Raised DecryptError
  /\ verify_token cfg0 (t0 + 5)
       (Ref.take (String.length token0 - 1) token0 ++ "e")%string
     = Returned None
  /\ verify_token cfg0 (t0 + 5) "invalid-token" = Returned None
  /\ verify_token cfg0 (t0 + 3600 * DT.US_PER_SECOND + 1) token0
     = Returned None.
Proof.
  split; [ vm_compute; discriminate | ].
  repeat split; vm_compute; reflexivity.
Qed.

(** C1 at a token for user 7, read five microseconds after issue. *)
Lemma token_round_trip_witness :
  LibsLaws reference_libs
  /\ 0 < 3600
  /\ exists token payload,
       generate_token cfg0 t0 t0 [x01] 7 3600 = Returned token
       /\ verify_token cfg0 (t0 + 5) token = Returned (Some payload)
       /\ Py.getitem payload "sub" = Returned (PStr (Py.str_of_int 7))
       /\ bind (Py.getitem payload "sub") Py.int = Returned 7.
Proof.
  assert (H1 : 0 < 3600) by lia.
  assert (H2 : 0 <= t0) by (unfold t0; lia).
  assert (H3 : t0 + 3600 * DT.US_PER_SECOND <= DT.MAX_WALL)
    by (unfold t0, DT.MAX_WALL, DT.US_PER_DAY, DT.US_PER_SECOND; lia).
  assert (H4 : t0 + 5 <= t0 + 3600 * DT.US_PER_SECOND)
    by (unfold DT.US_PER_SECOND; lia).
  split; [ exact reference_laws | ]. split; [ exact H1 | ].
  destruct (@token_round_trip reference_libs reference_laws cfg0 t0 t0 [x01]
              7 3600 H1) as [Hreturns Haccepted].
  destruct (Hreturns H2 H3) as [token Htoken].
  destruct (Haccepted token (t0 + 5) Htoken H4) as [payload Hpayload].
  exists token, payload. split; [ exact Htoken | exact Hpayload ].
Defined.

(** C2 at the same token, read one microsecond after its expiry. *)
Lemma verify_token_expired_witness :
  embedded_expiry cfg0 token0 = Some (t0 + 3600 * DT.US_PER_SECOND)
  /\ t0 + 3600 * DT.US_PER_SECOND < t0 + 3600 * DT.US_PER_SECOND + 1
  /\ verify_token cfg0 (t0 + 3600 * DT.US_PER_SECOND + 1) token0
     = Returned None.
Proof.
  assert (H1 : embedded_expiry cfg0 token0
               = Some (t0 + 3600 * DT.US_PER_SECOND))
    by (vm_compute; reflexivity).
  assert (H2 : t0 + 3600 * DT.US_PER_SECOND
               < t0 + 3600 * DT.US_PER_SECOND + 1) by lia.
  split; [ exact H1 | ]. split; [ exact H2 | ].
  exact (proj1 (@verify_token_expired reference_libs cfg0
                  (t0 + 3600 * DT.US_PER_SECOND + 1) token0
                  (t0 + 3600 * DT.US_PER_SECOND) H1 H2)).
Defined.

(** C3, on the code: the second call with the token of a verified account
    is answered 400, not 200. *)
Theorem reverification_rejected :
  let token := token_urlsafe world0 in
  let s2 := fst (verify_email world0 store1 token) in
  (exists r, snd (verify_email world0 store1 token) = Returned r
     /\ status r = 200)
  /\ verify_email world1 s2 token
     = (s2, Returned (error_response "Invalid verification token" 400)).
Proof.
  split; [ eexists; split; vm_compute; reflexivity | ].
  vm_compute. reflexivity.
Qed.

(** C4 fails on the code.  The body [{"email": "a@b.com", "password": 1}]
    is answered 401 "Invalid email or password" where no account holds
    the address, and raises where [alice] holds it, under every
    configuration and library: [check_password_hash] is called only once
    the lookup has found a row. *)
Theorem login_reveals_account (L : Libs) (cfg : Config) (w : World) :
  Db.first (Db.has_email "a@b.com") [] = None
  /\ Db.first (Db.has_email "a@b.com") store1 = Some row1
  /\ login (L := L) cfg w [] alice_number = Returned INVALID_CREDENTIALS
  /\ login (L := L) cfg w store1 alice_number = Raised AttributeError.
Proof.
  assert (H1 : Db.first (Db.has_email "a@b.com") [] = None) by reflexivity.
  assert (H2 : Db.first (Db.has_email "a@b.com") store1 = Some row1)
    by (vm_compute; reflexivity).
  split; [ exact H1 | ]. split; [ exact H2 | ].
  unfold login, alice_number, read_credentials.
  cbn [Py.truthy negb Py.get Py.lookup String.eqb Ascii.eqb Bool.eqb bind
       strip_lower].
  change (Str.lower (Str.strip "a@b.com")) with "a@b.com".
  cbn [bind Str.truthy Py.truthy Z.eqb negb orb].
  rewrite H1, H2. split; reflexivity.
Qed.

(** A wrong password, at an empty table and at the table holding
    [alice]. *)
Lemma login_no_account_oracle_witness :
  read_credentials alice_wrong_password
    = Returned ("a@b.com", PStr "wrongpassword")
  /\ Db.first (Db.has_email "a@b.com") [] = None
  /\ Db.first (Db.has_email "a@b.com") store1 = Some row1
  /\ check_password_hash (User.password_hash row1) "wrongpassword"
     = Returned false
  /\ login cfg0 world0 [] alice_wrong_password
     = login cfg0 world1 store1 alice_wrong_password
  /\ login cfg0 world0 [] alice_wrong_password
     = Returned INVALID_CREDENTIALS.
Proof.
  assert (H1 : read_credentials alice_wrong_password
               = Returned ("a@b.com", PStr "wrongpassword"))
    by reflexivity.
  assert (H2 : Db.first (Db.has_email "a@b.com") [] = None) by reflexivity.
  assert (H3 : Db.first (Db.has_email "a@b.com") store1 = Some row1)
    by (vm_compute; reflexivity).
  assert (H4 : check_password_hash (User.password_hash row1) "wrongpassword"
               = Returned false) by (vm_compute; reflexivity).
  split; [ exact H1 | ]. split; [ exact H2 | ]. split; [ exact H3 | ].
  split; [ exact H4 | ].
  pose proof (@login_no_account_oracle reference_libs cfg0 world0 world1 []
                store1 alice_wrong_password "a@b.com" "wrongpassword" row1
                H1 H2 H3 H4) as [Hsame Hboth].
  split; [ exact Hsame | ].
  apply Hboth; discriminate.
Defined.

(** C9 at the account of [alice], signed up and never verified. *)
Lemma login_ignores_verification_witness :
  User.is_verified row1 = false
  /\ read_credentials alice = Returned ("a@b.com", PStr "abcdefgh")
  /\ "a@b.com" <> "" /\ "abcdefgh" <> ""
  /\ Db.first (Db.has_email "a@b.com") store1 = Some row1
  /\ check_password_hash (User.password_hash row1) "abcdefgh" = Returned true
  /\ 0 <= clock1 world1
  /\ clock1 world1 + DEFAULT_EXPIRES_IN * DT.US_PER_SECOND <= DT.MAX_WALL
  /\ exists token,
       generate_token cfg0 (clock1 world1) (clock2 world1) (nonce world1)
         (User.id row1) DEFAULT_EXPIRES_IN = Returned token
       /\ login cfg0 world1 store1 alice
          = Returned (Response (PDict [
              ("message", PStr "Login successful");
              ("token", PStr token);
              ("user", User.to_dict row1)
            ]) 200).
Proof.
  assert (H0 : User.is_verified row1 = false) by reflexivity.
  assert (H1 : read_credentials alice = Returned ("a@b.com", PStr "abcdefgh"))
    by reflexivity.
  assert (H2 : "a@b.com" <> "") by discriminate.
  assert (H3 : "abcdefgh" <> "") by discriminate.
  assert (H4 : Db.first (Db.has_email "a@b.com") store1 = Some row1)
    by (vm_compute; reflexivity).
  assert (H5 : check_password_hash (User.password_hash row1) "abcdefgh"
               = Returned true)
    by (vm_compute; reflexivity).
  assert (H6 : 0 <= clock1 world1) by (unfold world1, t0; simpl; lia).
  assert (H7 : clock1 world1 + DEFAULT_EXPIRES_IN * DT.US_PER_SECOND
               <= DT.MAX_WALL)
    by (unfold world1, t0, DEFAULT_EXPIRES_IN, DT.MAX_WALL, DT.US_PER_DAY,
          DT.US_PER_SECOND; simpl; lia).
  split; [ exact H0 | ]. split; [ exact H1 | ]. split; [ exact H2 | ].
  split; [ exact H3 | ]. split; [ exact H4 | ]. split; [ exact H5 | ].
  split; [ exact H6 | ]. split; [ exact H7 | ].
  exact (@login_ignores_verification reference_libs cfg0 world1 store1 alice
           "a@b.com" "abcdefgh" row1 H1 H2 H3 H4 H5 H6 H7).
Defined.

(** C6 as stated fails: a request without a token and a request with a bad
    token are both turned away, with different responses. *)
Lemma rejections_distinguishable :
  ~ rejections_indistinguishable (L := reference_libs).
Proof.
  intros H.
  specialize (H (fun _ => Returned MISSING) cfg0 t0
                None (Some "Bearer invalid-token")).
  assert (R1 : rejected cfg0 t0 None) by exact I.
  assert (R2 : rejected cfg0 t0 (Some "Bearer invalid-token"))
    by (vm_compute; reflexivity).
  specialize (H R1 R2). vm_compute in H. discriminate H.
Qed.

(** The two runs of two signups for one address. *)
Example two_signups_in_turn :
  map answered (snd (run in_turn ([], map incoming two_signups)))
  = [Some 201; Some 409].
Proof. vm_compute. reflexivity. Qed.

Example two_signups_racing :
  map answered (snd (run racing ([], map incoming two_signups)))
  = [Some 201; Some 500].
Proof. vm_compute. reflexivity. Qed.

(** C7 as stated fails: the commit that meets an existing email does not
    answer Conflict; it answers 500 "Failed to create user". *)
Lemma create_does_not_report_conflict :
  ~ create_reports_conflict (L := reference_libs).
Proof.
  intros H.
  specialize (H world1 store1 "a@b.com" (PStr "another-password")).
  assert (E : existsb (Db.has_email "a@b.com") store1 = true)
    by (vm_compute; reflexivity).
  specialize (H E). vm_compute in H. discriminate H.
Qed.

(** C7, as the code has it, at the racing run. *)
Lemma concurrent_signups_exclusive_witness :
  unique_emails []
  /\ steps ([], map incoming two_signups)
       (fst (run racing ([], map incoming two_signups)),
        snd (run racing ([], map incoming two_signups)))
  /\ (count (created_for "a@b.com")
        (snd (run racing ([], map incoming two_signups))) <= 1)%nat
  /\ unique_emails (fst (run racing ([], map incoming two_signups)))
  /\ (forall data email password user,
        signup_validate [] data = Returned (Proceed email password) ->
        Db.first (Db.has_email email)
          (fst (run racing ([], map incoming two_signups))) = Some user ->
        signup_validate (fst (run racing ([], map incoming two_signups)))
          data
        = Returned (Reject (error_response "Email already registered" 409)))
  /\ (forall w email password,
        existsb (Db.has_email email)
          (fst (run racing ([], map incoming two_signups))) = true ->
        fst (signup_create w
               (fst (run racing ([], map incoming two_signups)))
               email password)
        = fst (run racing ([], map incoming two_signups))
        /\ status_of
             (snd (signup_create w
                     (fst (run racing ([], map incoming two_signups)))
                     email password))
           <> Some 201).
Proof.
  assert (H1 : unique_emails []) by (intros e; simpl; lia).
  assert (H2 : steps ([], map incoming two_signups)
                 (fst (run racing ([], map incoming two_signups)),
                  snd (run racing ([], map incoming two_signups)))).
  { rewrite <- surjective_pairing. apply run_steps. }
  split; [ exact H1 | ]. split; [ exact H2 | ].
  exact (@concurrent_signups_exclusive reference_libs [] _ two_signups _
           "a@b.com" H1 H2).
Defined.

(** ** The further properties at concrete requests *)

Lemma wellformed_empty `{L : Libs} : store_wellformed [].
Proof.
  split; [ constructor | ]. split; [ constructor | ]. intros u [].
Qed.

Lemma bearer_header_carries (token : string) :
  bearer_token (Some ("Bearer " ++ token)%string) = Some token ->
  carries_bearer (Some ("Bearer " ++ token)%string) token.
Proof. apply bearer_token_spec. Qed.

(** X4 at an address written with capitals and surrounding blanks. *)
Lemma strip_lower_idempotent_witness :
  strip_lower (PStr "  A@B.com ") = Returned "a@b.com"
  /\ strip_lower (PStr "a@b.com") = Returned "a@b.com".
Proof.
  assert (H : strip_lower (PStr "  A@B.com ") = Returned "a@b.com")
    by reflexivity.
  split; [ exact H | exact (strip_lower_idempotent _ H) ].
Defined.

(** X5 at the table after the signup of [alice]. *)
Lemma reachable_wellformed_witness :
  reachable store1 /\ store_wellformed store1.
Proof.
  assert (H : reachable store1)
    by exact (reachable_step reachable_empty (api_signup world0 [] alice)).
  split; [ exact H | exact (@reachable_wellformed reference_libs store1 H) ].
Defined.

(** X6 at the verification of [alice]. *)
Lemma verify_email_effect_witness :
  NoDup (map User.id store1)
  /\ Db.first (Db.has_token (token_urlsafe world0)) store1 = Some row1
  /\ User.is_verified row1 = false
  /\ healthy world1 = true
  /\ exists before after,
       store1 = before ++ row1 :: after
       /\ verify_email world1 store1 (token_urlsafe world0)
          = (before ++ verified_at (clock1 world1) row1 :: after,
             Returned (Response (PDict [
               ("message", PStr "Email verified successfully");
               ("user", User.to_dict (verified_at (clock1 world1) row1))
             ]) 200)).
Proof.
  assert (H1 : NoDup (map User.id store1))
    by (vm_compute; constructor; [ intros [] | constructor ]).
  assert (H2 : Db.first (Db.has_token (token_urlsafe world0)) store1
               = Some row1) by (vm_compute; reflexivity).
  assert (H3 : User.is_verified row1 = false) by (vm_compute; reflexivity).
  assert (H4 : healthy world1 = true) by reflexivity.
  split; [ exact H1 | ]. split; [ exact H2 | ]. split; [ exact H3 | ].
  split; [ exact H4 | ].
  exact (@verify_email_effect reference_libs world1 store1
           (token_urlsafe world0) row1 H1 H2 H3 H4).
Defined.

(** X8 at [token0], one microsecond after its expiry. *)
Lemma expired_token_refused_witness :
  generate_token cfg0 t0 t0 [x01] 7 3600 = Returned token0
  /\ t0 + 3600 * DT.US_PER_SECOND < t0 + 3600 * DT.US_PER_SECOND + 1
  /\ carries_bearer (Some ("Bearer " ++ token0)%string) token0
  /\ verify_token cfg0 (t0 + 3600 * DT.US_PER_SECOND + 1) token0
     = Returned None
  /\ me cfg0 (t0 + 3600 * DT.US_PER_SECOND + 1) store1
       (Some ("Bearer " ++ token0)%string)
     = Returned INVALID.
Proof.
  assert (H1 : generate_token cfg0 t0 t0 [x01] 7 3600 = Returned token0)
    by (vm_compute; reflexivity).
  assert (H2 : t0 + 3600 * DT.US_PER_SECOND
               < t0 + 3600 * DT.US_PER_SECOND + 1) by lia.
  assert (H3 : carries_bearer (Some ("Bearer " ++ token0)%string) token0)
    by (apply bearer_header_carries; vm_compute; reflexivity).
  split; [ exact H1 | ]. split; [ exact H2 | ]. split; [ exact H3 | ].
  exact (@expired_token_refused reference_libs reference_laws
           (get_current_user store1) cfg0 t0 t0 [x01] 7 3600 token0
           (t0 + 3600 * DT.US_PER_SECOND + 1)
           (Some ("Bearer " ++ token0)%string) H1 H2 H3).
Defined.

(** X9 at [token0], accepted five microseconds after issue. *)
Lemma verify_token_monotone_witness :
  verify_token cfg0 (t0 + 5) token0
    = Returned (Some (token_payload 7 (t0 + 3600 * DT.US_PER_SECOND) t0))
  /\ t0 <= t0 + 5
  /\ verify_token cfg0 t0 token0
     = Returned (Some (token_payload 7 (t0 + 3600 * DT.US_PER_SECOND) t0)).
Proof.
  assert (H1 : verify_token cfg0 (t0 + 5) token0
               = Returned (Some (token_payload 7
                                   (t0 + 3600 * DT.US_PER_SECOND) t0)))
    by (vm_compute; reflexivity).
  assert (H2 : t0 <= t0 + 5) by lia.
  split; [ exact H1 | ]. split; [ exact H2 | ].
  exact (@verify_token_monotone reference_libs cfg0 (t0 + 5) t0 token0 _
           H1 H2).
Defined.

(** X12 at [alice], who logs in after verifying her email. *)
Lemma signup_then_login_witness :
  HashLaws reference_libs
  /\ store_wellformed []
  /\ status_of (snd (signup world0 [] alice)) = Some 201
  /\ api_steps (fst (signup world0 [] alice)) store2
  /\ 0 <= clock1 world1
  /\ clock1 world1 + DEFAULT_EXPIRES_IN * DT.US_PER_SECOND <= DT.MAX_WALL
  /\ exists user token,
       In user store2 /\ User.id user = Db.next_id []
       /\ generate_token cfg0 (clock1 world1) (clock2 world1) (nonce world1)
            (Db.next_id []) DEFAULT_EXPIRES_IN = Returned token
       /\ login cfg0 world1 store2 alice
          = Returned (login_response token user).
Proof.
  assert (H1 : store_wellformed []) by exact wellformed_empty.
  assert (H2 : status_of (snd (signup world0 [] alice)) = Some 201)
    by (vm_compute; reflexivity).
  assert (H3 : api_steps (fst (signup world0 [] alice)) store2)
    by exact (api_steps_then (api_steps_refl _)
                (api_verify_email world1 store1 (token_urlsafe world0))).
  assert (H4 : 0 <= clock1 world1) by (vm_compute; discriminate).
  assert (H5 : clock1 world1 + DEFAULT_EXPIRES_IN * DT.US_PER_SECOND
               <= DT.MAX_WALL) by (vm_compute; discriminate).
  split; [ exact reference_hash_laws | ].
  split; [ exact H1 | ]. split; [ exact H2 | ]. split; [ exact H3 | ].
  split; [ exact H4 | ]. split; [ exact H5 | ].
  exact (@signup_then_login reference_libs reference_hash_laws cfg0 world0
           world1 [] store2 alice H1 H2 H3 H4 H5).
Defined.

(** X13 at the second signup for the address of [alice]. *)
Lemma registered_email_stays_taken_witness :
  store_wellformed []
  /\ status_of (snd (signup world0 [] alice)) = Some 201
  /\ api_steps (fst (signup world0 [] alice)) store2
  /\ signup_email alice = Some "a@b.com"
  /\ signup_validate [] alice_again
     = Returned (Proceed "a@b.com" (PStr "another-password"))
  /\ signup world1 store2 alice_again
     = (store2, Returned (error_response "Email already registered" 409)).
Proof.
  assert (H1 : store_wellformed []) by exact wellformed_empty.
  assert (H2 : status_of (snd (signup world0 [] alice)) = Some 201)
    by (vm_compute; reflexivity).
  assert (H3 : api_steps (fst (signup world0 [] alice)) store2)
    by exact (api_steps_then (api_steps_refl _)
                (api_verify_email world1 store1 (token_urlsafe world0))).
  assert (H4 : signup_email alice = Some "a@b.com") by reflexivity.
  assert (H5 : signup_validate [] alice_again
               = Returned (Proceed "a@b.com" (PStr "another-password")))
    by (vm_compute; reflexivity).
  split; [ exact H1 | ]. split; [ exact H2 | ]. split; [ exact H3 | ].
  split; [ exact H4 | ]. split; [ exact H5 | ].
  exact (@registered_email_stays_taken reference_libs world0 world1 []
           store2 alice alice_again "a@b.com" (PStr "another-password")
           H1 H2 H3 H4 H5).
Defined.

(** X14 at the login of [alice], the token shown five microseconds
    later, after she verified her email. *)
Lemma login_then_me_witness :
  LibsLaws reference_libs
  /\ store_wellformed store1
  /\ token_of (login cfg0 world1 store1 alice) = Some token1
  /\ api_steps store1 store2
  /\ carries_bearer (Some ("Bearer " ++ token1)%string) token1
  /\ clock1 world1 + 5
     <= clock1 world1 + DEFAULT_EXPIRES_IN * DT.US_PER_SECOND
  /\ exists user user',
       authenticated cfg0 world1 store1 alice user token1
       /\ In user' store2 /\ same_account user user'
       /\ me cfg0 (clock1 world1 + 5) store2
            (Some ("Bearer " ++ token1)%string)
          = Returned (Response (PDict [("user", User.to_dict user')]) 200).
Proof.
  assert (H1 : store_wellformed store1)
    by exact (api_step_wellformed wellformed_empty
                (api_signup world0 [] alice)).
  assert (H2 : token_of (login cfg0 world1 store1 alice) = Some token1)
    by (vm_compute; reflexivity).
  assert (H3 : api_steps store1 store2)
    by exact (api_steps_then (api_steps_refl _)
                (api_verify_email world1 store1 (token_urlsafe world0))).
  assert (H4 : carries_bearer (Some ("Bearer " ++ token1)%string) token1)
    by (apply bearer_header_carries; vm_compute; reflexivity).
  assert (H5 : clock1 world1 + 5
               <= clock1 world1 + DEFAULT_EXPIRES_IN * DT.US_PER_SECOND)
    by (vm_compute; discriminate).
  split; [ exact reference_laws | ].
  split; [ exact H1 | ]. split; [ exact H2 | ]. split; [ exact H3 | ].
  split; [ exact H4 | ]. split; [ exact H5 | ].
  exact (@login_then_me reference_libs reference_laws cfg0 world1 store1
           store2 alice token1 (clock1 world1 + 5)
           (Some ("Bearer " ++ token1)%string) H1 H2 H3 H4 H5).
Defined.

(** X15 at the verified row of [alice], after the signup of [bob]. *)
Lemma verified_stays_verified_witness :
  store_wellformed store2
  /\ api_steps store2 (fst (signup world1 store2 bob))
  /\ In (verified_at (clock1 world1) row1) store2
  /\ User.is_verified (verified_at (clock1 world1) row1) = true
  /\ In (verified_at (clock1 world1) row1) (fst (signup world1 store2 bob)).
Proof.
  assert (H1 : store_wellformed store2)
    by exact (api_steps_wellformed wellformed_empty
                (api_steps_then
                   (api_steps_then (api_steps_refl _)
                      (api_signup world0 [] alice))
                   (api_verify_email world1 store1 (token_urlsafe world0)))).
  assert (H2 : api_steps store2 (fst (signup world1 store2 bob)))
    by exact (api_steps_then (api_steps_refl _)
                (api_signup world1 store2 bob)).
  assert (H3 : In (verified_at (clock1 world1) row1) store2)
    by (vm_compute; left; reflexivity).
  assert (H4 : User.is_verified (verified_at (clock1 world1) row1) = true)
    by reflexivity.
  split; [ exact H1 | ]. split; [ exact H2 | ]. split; [ exact H3 | ].
  split; [ exact H4 | ].
  exact (@verified_stays_verified reference_libs store2
           (fst (signup world1 store2 bob))
           (verified_at (clock1 world1) row1) H1 H2 H3 H4).
Defined.

(** X16 at [alice], who verifies with the token her signup returned. *)
Lemma signup_then_verify_witness :
  store_wellformed []
  /\ status_of (snd (signup world0 [] alice)) = Some 201
  /\ Db.first (Db.has_token (token_urlsafe world0)) [] = None
  /\ healthy world1 = true
  /\ exists row,
       signup world0 [] alice = ([] ++ [row], Returned (created_response world0 row))
       /\ User.is_verified row = false
       /\ verify_email world1 ([] ++ [row]) (token_urlsafe world0)
          = ([] ++ [verified_at (clock1 world1) row],
             Returned (Response (PDict [
               ("message", PStr "Email verified successfully");
               ("user", User.to_dict (verified_at (clock1 world1) row))
             ]) 200)).
Proof.
  assert (H1 : store_wellformed []) by exact wellformed_empty.
  assert (H2 : status_of (snd (signup world0 [] alice)) = Some 201)
    by (vm_compute; reflexivity).
  assert (H3 : Db.first (Db.has_token (token_urlsafe world0)) [] = None)
    by reflexivity.
  assert (H4 : healthy world1 = true) by reflexivity.
  split; [ exact H1 | ]. split; [ exact H2 | ]. split; [ exact H3 | ].
  split; [ exact H4 | ].
  exact (@signup_then_verify reference_libs world0 world1 [] alice
           H1 H2 H3 H4).
Defined.

(** X17 and X18 at the body of [alice]. *)
Lemma signup_answers_witness :
  read_credentials alice = Returned ("a@b.com", PStr "abcdefgh")
  /\ ((exists resp,
         snd (signup world0 [] alice) = Returned resp
         /\ (status resp = 201 \/ status resp = 400 \/ status resp = 409
             \/ status resp = 500))
      \/ (exists e,
            generate_password_hash "abcdefgh" (salt world0) = Raised e
            /\ signup world0 [] alice = ([], Raised e))).
Proof.
  assert (H : read_credentials alice = Returned ("a@b.com", PStr "abcdefgh"))
    by reflexivity.
  split; [ exact H | ].
  exact (@signup_answers reference_libs world0 [] alice "a@b.com" "abcdefgh"
           H).
Defined.

Lemma login_answers_witness :
  read_credentials alice = Returned ("a@b.com", PStr "abcdefgh")
  /\ ((exists resp,
         login cfg0 world1 store1 alice = Returned resp
         /\ (status resp = 200 \/ status resp = 400 \/ status resp = 401))
      \/ (exists user e,
            Db.first (Db.has_email "a@b.com") store1 = Some user
            /\ (check_password_hash (User.password_hash user) "abcdefgh"
                = Raised e
                \/ generate_token cfg0 (clock1 world1) (clock2 world1)
                     (nonce world1) (User.id user) DEFAULT_EXPIRES_IN
                   = Raised e)
            /\ login cfg0 world1 store1 alice = Raised e)).
Proof.
  assert (H1 : read_credentials alice
               = Returned ("a@b.com", PStr "abcdefgh")) by reflexivity.
  split; [ exact H1 | ].
  exact (@login_answers reference_libs cfg0 world1 store1 alice "a@b.com"
           "abcdefgh" H1).
Defined.
